(** * The request-queue overlay tree of node-smb-server

    A shallow embedding of [lib/backends/rq/tree.js] (the overlay tree
    [RQTree]) and of [lib/backends/fs/tree.js] (the file-system tree
    [FSTree], of which the local and the work tree are instances).

    The callback chains of the source are sequenced in a state-and-error
    monad over a [World] that holds the three name spaces (local, work,
    remote), the request queue, the in-memory [createdFiles] set, the log
    and the trace of collaborator calls.  A callback invoked with an error
    is [Fail], a callback invoked with a value is [Done], an exception that
    escapes (so that no callback is ever invoked) is [Throw]. *)

From Stdlib Require Import Ascii String.
From stdpp Require Import gmap strings list.

Set Default Proof Using "Type".
Open Scope string_scope.
Open Scope list_scope.
Open Scope stdpp_scope.

(** ** Parameters of the share *)

(** What the tree takes from modules that are configuration or third-party
    code: the temporary-file predicate of the share, the path helpers of
    [utils] and of Node's [path], the normaliser of [unorm], and the two
    prefixes copied into every queued request. *)
Class Env := {
  isTempFileName : string → bool;
  getParentPath : string → option string;
  getPathName : string → string;
  pathJoin : string → string → string;
  nfkd : string → string;
  shareRemotePrefix : string;
  shareLocalPath : string
}.

(** ** Data *)

Inductive Kind := RegularFile | Directory.

Inductive SMBError :=
| NotFound | AlreadyExists | NotEmpty | Conflict | Io | RemoteError | QueueError.

Inductive JSError := TypeError.

Inductive Outcome (A : Type) :=
| Done (a : A)
| Fail (e : SMBError)
| Throw (x : JSError).
Arguments Done {A} a.
Arguments Fail {A} e.
Arguments Throw {A} x.

(** A file handle of a tree ([FSFile], [DAMFile]): [getPath] and
    [isDirectory] are stored, [getName] is the last segment of the path. *)
Record File := { getPath : string; isDirectory : bool }.

(** An overlay file ([RQFile]): the name it was created with and the
    handles that back it.  [remoteFile] is what [remoteFiles[i]] evaluated
    to, so it is optional also in the merged form. *)
Record RQFile := {
  rqName : string;
  localFile : option File;
  remoteFile : option File
}.

(** The [options] object handed to [RequestQueue.queueRequest]. *)
Record Request := {
  method : string;
  path : string;
  destPath : option string;
  remotePrefix : string;
  localPrefix : string
}.

(** One entry of a directory of a tree on disk. *)
Record DirEntry := { d_dir : string; d_name : string; d_kind : Kind }.

(** Modelled from the spec: [RQLocalTree] (lib/backends/rq/localtree.js,
    whose code is not available).  The local tree and the work tree are two
    sibling local filesystem trees, with the operations of [FSTree]. *)
Inductive Tree := Local | Work.

(** Every call that leaves the two source files. *)
Inductive Call :=
| FsStat (t : Tree) (name : string)
| FsReaddir (t : Tree) (dir : string)
| Mkdirp (t : Tree) (dir : string)
| FsOpenWx (t : Tree) (name : string)
| FsClose (t : Tree) (name : string)
| FsUnlink (t : Tree) (name : string)
| FsRename (t : Tree) (oldName newName : string)
| FSFileCreateInstance (t : Tree) (name : string)
| FSFileDelete (name : string)
| DamExists (name : string)
| DamOpen (name : string)
| DamList (pattern : string)
| DamDelete (name : string)
| DamRename (oldName newName : string)
| RqQueueRequest (options : Request)
| RqGetRequests (parentPath : string)
| RqUpdatePath (oldName newName : string)
| RQFileCreateInstance (name : string)
| RQFileFromLocal (name : string)
| RQFileFromLocalAndRemote (name : string)
| RQFileCanDelete (name : string)
| RQFileDeleteWorkFiles (name : string)
| InvalidateContentCache (parentPath : option string) (recursive : bool).

(** The [logger.info] and [logger.error] lines of the overlay tree
    ([logger.debug] lines are left out). *)
Inductive LogLine :=
| InfoTreeDelete (name : string)
| InfoDeletedRemotely (name : string)
| InfoConflictSendingEvent (name : string)
| ErrorUnableToQueue (options : Request) (e : SMBError)
| ErrorCleanUpAfterDeletion (e : SMBError).

Record World := {
  local : list DirEntry;
  work : list DirEntry;
  remote : list DirEntry;
  rq : list Request;
  createdFiles : gset string;
  openFiles : gset string;
  logs : list LogLine;
  trace : list Call;
  faults : Call → option SMBError
}.

Definition M (A : Type) : Type := World → Outcome A * World.

Definition ret {A} (a : A) : M A := λ w, (Done a, w).

Definition bind {A B} (m : M A) (k : A → M B) : M B := λ w,
  match m w with
  | (Done a, w') => k a w'
  | (Fail e, w') => (Fail e, w')
  | (Throw x, w') => (Throw x, w')
  end.

Notation "x <~ m ; k" := (bind m (λ x, k))
  (at level 20, m at level 100, k at level 200, only parsing).
Notation "'run' m ; k" := (bind m (λ _, k))
  (at level 20, m at level 100, k at level 200, only parsing).

Definition fail {A} (e : SMBError) : M A := λ w, (Fail e, w).
Definition throw {A} (x : JSError) : M A := λ w, (Throw x, w).

(** *** Field updates of the world *)

Definition treeOf (t : Tree) (w : World) : list DirEntry :=
  match t with Local => local w | Work => work w end.

Definition setTree (t : Tree) (fs : list DirEntry) (w : World) : World :=
  {| local := match t with Local => fs | Work => local w end;
     work := match t with Local => work w | Work => fs end;
     remote := remote w; rq := rq w; createdFiles := createdFiles w;
     openFiles := openFiles w; logs := logs w; trace := trace w;
     faults := faults w |}.

Definition setRemote (fs : list DirEntry) (w : World) : World :=
  {| local := local w; work := work w; remote := fs; rq := rq w;
     createdFiles := createdFiles w; openFiles := openFiles w;
     logs := logs w; trace := trace w; faults := faults w |}.

Definition setRq (q : list Request) (w : World) : World :=
  {| local := local w; work := work w; remote := remote w; rq := q;
     createdFiles := createdFiles w; openFiles := openFiles w;
     logs := logs w; trace := trace w; faults := faults w |}.

Definition setCreatedFiles (s : gset string) (w : World) : World :=
  {| local := local w; work := work w; remote := remote w; rq := rq w;
     createdFiles := s; openFiles := openFiles w;
     logs := logs w; trace := trace w; faults := faults w |}.

Definition addLog (l : LogLine) (w : World) : World :=
  {| local := local w; work := work w; remote := remote w; rq := rq w;
     createdFiles := createdFiles w; openFiles := openFiles w;
     logs := logs w ++ [l]; trace := trace w; faults := faults w |}.

Definition record (c : Call) (w : World) : World :=
  {| local := local w; work := work w; remote := remote w; rq := rq w;
     createdFiles := createdFiles w; openFiles := openFiles w;
     logs := logs w; trace := trace w ++ [c]; faults := faults w |}.

(** A collaborator call: it is recorded, fails with the error the world
    has in store for it, and runs its body otherwise. *)
Definition call {A} (c : Call) (body : M A) : M A := λ w,
  match faults w c with
  | Some e => (Fail e, record c w)
  | None => body (record c w)
  end.

Definition logger (l : LogLine) : M unit := λ w, (Done tt, addLog l w).

Section Tree.
Context `{Env}.

Definition getName (f : File) : string := getPathName (getPath f).

(** [utils.getParentPath(p) || ''] *)
Definition parentOrEmpty (p : string) : string := default "" (getParentPath p).

(** ** Node's [fs] on a tree

    A tree on disk is the list of its directory entries, in the order
    [readdir] reports them; the path of an entry is [Path.join] of its
    directory and its name.  The root of the share is an entry like any
    other.  Paths are the logical names of the share (the constant
    [share.path] in front of them is left out). *)

Definition entryPath (e : DirEntry) : string := pathJoin (d_dir e) (d_name e).

Definition fs_find (fs : list DirEntry) (p : string) : option DirEntry :=
  find (λ e, bool_decide (entryPath e = p)) fs.

Definition fs_stat (fs : list DirEntry) (p : string) : option Kind :=
  d_kind <$> fs_find fs p.

Definition fs_has (fs : list DirEntry) (p : string) : bool :=
  match fs_stat fs p with Some _ => true | None => false end.

Definition fs_readdir (fs : list DirEntry) (dir : string) : list string :=
  d_name <$> filter (λ e, d_dir e = dir) fs.

Definition fs_entry (p : string) (k : Kind) : DirEntry :=
  {| d_dir := parentOrEmpty p; d_name := getPathName p; d_kind := k |}.

Definition fs_remove (fs : list DirEntry) (p : string) : list DirEntry :=
  filter (λ e, entryPath e ≠ p) fs.

(** Where an entry goes when [oldName] is renamed to [newName]: the entry
    itself, and every entry below it when it is a directory. *)
Definition fs_move (oldName newName : string) (e : DirEntry) : DirEntry :=
  if bool_decide (entryPath e = oldName) then fs_entry newName (d_kind e)
  else if bool_decide (d_dir e = oldName)
  then {| d_dir := newName; d_name := d_name e; d_kind := d_kind e |}
  else if String.prefix (oldName +:+ "/") (d_dir e)
  then {| d_dir := newName +:+
                   String.substring (String.length oldName)
                     (String.length (d_dir e) - String.length oldName) (d_dir e);
          d_name := d_name e; d_kind := d_kind e |}
  else e.

(** [mkdirp]: the directory and its missing ancestors. *)
Fixpoint mkdirp (fuel : nat) (fs : list DirEntry) (dir : string) : list DirEntry :=
  match fs_stat fs dir with
  | Some _ => fs
  | None =>
    match fuel, getParentPath dir with
    | S k, Some up => mkdirp k fs up ++ [fs_entry dir Directory]
    | _, _ => fs ++ [fs_entry dir Directory]
    end
  end.

Definition handle (p : string) (k : Kind) : File :=
  {| getPath := p; isDirectory := match k with Directory => true | RegularFile => false end |}.

(** Modelled from the spec: [FSFile.createInstance] (lib/backends/fs/file.js,
    whose code is not available).  A handle exposes [getName],
    [getPath], [isDirectory] and [delete]; a name that does not exist where
    it is required is [NotFound]. *)
Definition FSFile_createInstance (t : Tree) (name : string) : M File :=
  call (FSFileCreateInstance t name) (λ w,
    match fs_stat (treeOf t w) name with
    | Some k => (Done (handle name k), w)
    | None => (Fail NotFound, w)
    end).

(** Modelled from the spec: [delete] of a handle of the local tree. *)
Definition FSFile_delete (f : File) : M unit :=
  call (FSFileDelete (getPath f)) (λ w,
    match fs_stat (local w) (getPath f) with
    | Some _ => (Done tt, setTree Local (fs_remove (local w) (getPath f)) w)
    | None => (Fail NotFound, w)
    end).

Fixpoint mapM {A B} (f : A → M B) (l : list A) : M (list B) :=
  match l with
  | [] => ret []
  | x :: l' => y <~ f x ; ys <~ mapM f l' ; ret (y :: ys)
  end.

(** The errors of [fs.stat] that the tree on disk determines: a path that
    leads through a regular file is not ENOENT but ENOTDIR.  Modelled from
    the spec: [SMBError.fromSystemError] (lib/smberror.js, whose code is
    not available) makes a lower-level file-system failure an [Io]. *)
Fixpoint throughFile (fuel : nat) (fs : list DirEntry) (p : string) : bool :=
  match fuel, getParentPath p with
  | S n, Some up =>
    match fs_stat fs up with
    | Some RegularFile => true
    | Some Directory => false
    | None => throughFile n fs up
    end
  | _, _ => false
  end.

Definition statErrors (l wk : list DirEntry) : Call → option SMBError := λ c,
  match c with
  | FsStat t name =>
    if throughFile (String.length name) (match t with Local => l | Work => wk end) name
    then Some Io else None
  | _ => None
  end.

(** ** [FSTree] (lib/backends/fs/tree.js) *)

Definition FSTree_createFileInstance (t : Tree) (name : string) : M File :=
  FSFile_createInstance t name.

(** [fs.stat]: an error other than ENOENT is passed on, ENOENT is "no".
    The errors of [fs.stat] other than ENOENT (ENOTDIR for a name below a
    regular file, EACCES, ...) are the ones the world has in store for
    the call: see [statErrors]. *)
Definition FSTree_exists (t : Tree) (name : string) : M bool :=
  call (FsStat t name) (λ w, (Done (fs_has (treeOf t w) name), w)).

Definition FSTree_open (t : Tree) (name : string) : M File :=
  FSTree_createFileInstance t name.

Definition unicodeEquals (str1 str2 : string) : bool :=
  bool_decide (nfkd str1 = nfkd str2).

Definition matchingNames (pattern : string) (files : list string) : list string :=
  if bool_decide (pattern = "*") then files
  else List.filter (λ fileName, unicodeEquals fileName pattern) files.

Definition FSTree_list (t : Tree) (pattern : string) : M (list File) :=
  let parentPath := parentOrEmpty pattern in
  let pattern := getPathName pattern in
  files <~ call (FsReaddir t parentPath) (λ w,
             match fs_stat (treeOf t w) parentPath with
             | Some Directory => (Done (fs_readdir (treeOf t w) parentPath), w)
             | Some RegularFile => (Fail Io, w)
             | None => (Fail NotFound, w)
             end) ;
  mapM (λ name, FSTree_createFileInstance t (pathJoin parentPath name))
       (matchingNames pattern files).

Definition FSTree_createFile (t : Tree) (name : string) : M File :=
  run call (Mkdirp t (parentOrEmpty name)) (λ w,
    (Done tt, setTree t (mkdirp (String.length name) (treeOf t w) (parentOrEmpty name)) w)) ;
  run call (FsOpenWx t name) (λ w,
    match fs_stat (treeOf t w) name with
    | Some _ => (Fail AlreadyExists, w)
    | None => (Done tt, setTree t (treeOf t w ++ [fs_entry name RegularFile]) w)
    end) ;
  run call (FsClose t name) (ret tt) ;
  FSTree_createFileInstance t name.

Definition FSTree_delete (t : Tree) (name : string) : M unit :=
  call (FsUnlink t name) (λ w,
    match fs_stat (treeOf t w) name with
    | Some RegularFile => (Done tt, setTree t (fs_remove (treeOf t w) name) w)
    | Some Directory => (Fail Io, w)
    | None => (Fail NotFound, w)
    end).

(** [fs.rename] on a tree.  The old name must exist (ENOENT, or ENOTDIR
    when the path leads through a regular file).  Renaming a name to
    itself does nothing and succeeds.  The directory of the new name must
    exist (ENOENT, ENOTDIR) and be a directory (ENOTDIR); a directory does
    not go below itself (EINVAL).  An entry that bears the new name is
    replaced when it is of the same kind, a directory only when it is
    empty (ENOTEMPTY); a file does not replace a directory (EISDIR), nor a
    directory a file (ENOTDIR). *)
Fixpoint isBelow (fuel : nat) (dir p : string) : bool :=
  match fuel, getParentPath p with
  | S n, Some up => bool_decide (up = dir) || isBelow n dir up
  | _, _ => false
  end.

Definition noEntry (fs : list DirEntry) (p : string) : SMBError :=
  if throughFile (String.length p) fs p then Io else NotFound.

Definition fs_rename (fs : list DirEntry) (oldName newName : string)
  : SMBError + list DirEntry :=
  let moved := fs_move oldName newName <$> fs_remove fs newName in
  match fs_stat fs oldName with
  | None => inl (noEntry fs oldName)
  | Some k =>
    if bool_decide (oldName = newName) then inr fs
    else
      match fs_stat fs (parentOrEmpty newName) with
      | None => inl (noEntry fs (parentOrEmpty newName))
      | Some RegularFile => inl Io
      | Some Directory =>
        match k, fs_stat fs newName with
        | RegularFile, None => inr moved
        | RegularFile, Some RegularFile => inr moved
        | RegularFile, Some Directory => inl Io
        | Directory, target =>
          if isBelow (String.length newName) oldName newName then inl Io
          else
            match target with
            | None => inr moved
            | Some RegularFile => inl Io
            | Some Directory =>
              match fs_readdir fs newName with
              | [] => inr moved
              | _ :: _ => inl NotEmpty
              end
            end
        end
      end
  end.

Definition FSTree_rename (t : Tree) (oldName newName : string) : M unit :=
  call (FsRename t oldName newName) (λ w,
    match fs_rename (treeOf t w) oldName newName with
    | inr fs => (Done tt, setTree t fs w)
    | inl e => (Fail e, w)
    end).

(** ** The collaborators of the overlay tree *)

(** Modelled from the spec: [DAMTree] (lib/backends/dam/tree.js, whose code
    is not available).  The remote tree has the surface of a local
    tree: existence and listings in it are authoritative for remote state,
    a listing holds the entries of the directory of the pattern ([*] for
    all of them, a name for that one), a missing name is [NotFound]. *)
Definition DAMTree_exists (name : string) : M bool :=
  call (DamExists name) (λ w, (Done (fs_has (remote w) name), w)).

Definition DAMTree_open (name : string) : M File :=
  call (DamOpen name) (λ w,
    match fs_stat (remote w) name with
    | Some k => (Done (handle name k), w)
    | None => (Fail NotFound, w)
    end).

Definition DAMTree_list (pattern : string) : M (list File) :=
  call (DamList pattern) (λ w,
    let parentPath := parentOrEmpty pattern in
    let selected :=
      filter (λ e, d_dir e = parentPath ∧
                   (getPathName pattern = "*" ∨ d_name e = getPathName pattern))
             (remote w) in
    (Done ((λ e, handle (pathJoin parentPath (d_name e)) (d_kind e)) <$> selected), w)).

Definition DAMTree_delete (name : string) : M unit :=
  call (DamDelete name) (λ w,
    match fs_stat (remote w) name with
    | Some _ => (Done tt, setRemote (fs_remove (remote w) name) w)
    | None => (Fail NotFound, w)
    end).

Definition DAMTree_rename (oldName newName : string) : M unit :=
  call (DamRename oldName newName) (λ w,
    match fs_stat (remote w) oldName with
    | Some _ =>
      (Done tt, setRemote (fs_move oldName newName <$> fs_remove (remote w) newName) w)
    | None => (Fail NotFound, w)
    end).

(** Modelled from the spec: [RequestQueue] (lib/backends/rq/requestqueue.js,
    whose code is not available).  The queue is an ordered log of
    pending mutations, keyed by parent directory: [queueRequest] appends,
    [getRequests] maps the base names queued under a directory to their
    method, [updatePath] re-parents the entries of a directory.  The
    callbacks of the source receive the error first: on an error nothing
    else is passed, so the second component is undefined ([None]). *)
Definition requestKey (r : Request) : string := parentOrEmpty (path r).

Definition requestsOf (parentPath : string) (q : list Request) : gmap string string :=
  foldl (λ m r, if bool_decide (requestKey r = parentPath)
                then <[getPathName (path r) := method r]> m else m) ∅ q.

Definition RequestQueue_queueRequest (options : Request) (w : World)
  : option SMBError * World :=
  match faults w (RqQueueRequest options) with
  | Some e => (Some e, record (RqQueueRequest options) w)
  | None => (None, setRq (rq w ++ [options]) (record (RqQueueRequest options) w))
  end.

Definition RequestQueue_getRequests (parentPath : string) (w : World)
  : (option SMBError * option (gmap string string)) * World :=
  match faults w (RqGetRequests parentPath) with
  | Some e => ((Some e, None), record (RqGetRequests parentPath) w)
  | None => ((None, Some (requestsOf parentPath (rq w))),
             record (RqGetRequests parentPath) w)
  end.

Definition reparent (oldName newName p : string) : string :=
  if bool_decide (p = oldName) then newName
  else if String.prefix (oldName +:+ "/") p
  then newName +:+ String.substring (String.length oldName)
                     (String.length p - String.length oldName) p
  else p.

Definition reparentRequest (oldName newName : string) (r : Request) : Request :=
  {| method := method r;
     path := reparent oldName newName (path r);
     destPath := reparent oldName newName <$> destPath r;
     remotePrefix := remotePrefix r;
     localPrefix := localPrefix r |}.

Definition RequestQueue_updatePath (oldName newName : string) : M unit :=
  call (RqUpdatePath oldName newName) (λ w,
    (Done tt, setRq (reparentRequest oldName newName <$> rq w) w)).

(** [RQTree.prototype.getCreateFileName] *)
Definition getCreateFileName (name : string) : string := name +:+ ".rqcf".

(** Modelled from the spec: [RQFile] (lib/backends/rq/file.js, whose code is
    not available).  An overlay file is backed by a remote handle,
    by a local handle, or by both.  [canDelete] is true iff no client holds
    the file open, no pending queued operation refers to it and it has no
    creation marker.  [deleteWorkFiles] removes the sidecars of a name from
    the work tree. *)
Definition RQFile_createInstanceFromRemote (name : string) (remoteF : File) : RQFile :=
  {| rqName := name; localFile := None; remoteFile := Some remoteF |}.

Definition RQFile_createInstance (name : string) : M RQFile :=
  call (RQFileCreateInstance name) (λ w,
    match fs_stat (remote w) name with
    | Some k => (Done (RQFile_createInstanceFromRemote name (handle name k)), w)
    | None => (Fail NotFound, w)
    end).

Definition RQFile_createInstanceFromLocal (name : string) (localF : File) : M RQFile :=
  call (RQFileFromLocal name)
       (ret {| rqName := name; localFile := Some localF; remoteFile := None |}).

Definition RQFile_createInstanceFromLocalAndRemote
    (name : string) (localF : File) (remoteF : option File) : M RQFile :=
  call (RQFileFromLocalAndRemote name)
       (ret {| rqName := name; localFile := Some localF; remoteFile := remoteF |}).

Definition refersTo (name : string) (r : Request) : bool :=
  bool_decide (path r = name) || bool_decide (destPath r = Some name).

Definition RQFile_canDelete (f : RQFile) : M bool :=
  call (RQFileCanDelete (rqName f)) (λ w,
    (Done (bool_decide (rqName f ∉ openFiles w)
           && negb (existsb (refersTo (rqName f)) (rq w))
           && negb (fs_has (work w) (getCreateFileName (rqName f)))), w)).

Definition RQFile_deleteWorkFiles (name : string) : M unit :=
  call (RQFileDeleteWorkFiles name) (λ w,
    (Done tt,
     setTree Work (fs_remove (fs_remove (work w) (getCreateFileName name)) name) w)).

(** [share.invalidateContentCache]: the cache is not part of the overlay
    tree, the call is only recorded. *)
Definition invalidateContentCache (parentPath : option string) (recursive : bool) : M unit :=
  λ w, (Done tt, record (InvalidateContentCache parentPath recursive) w).

(** ** [RQTree] (lib/backends/rq/tree.js) *)

Definition RQTree_exists (name : string) : M bool :=
  result <~ FSTree_exists Local name ;
  if result : bool then ret result else DAMTree_exists name.

Definition RQTree_open (name : string) : M RQFile :=
  remoteExists <~ DAMTree_exists name ;
  localExists <~ FSTree_exists Local name ;
  if remoteExists && negb localExists
  then RQFile_createInstance name
  else
    localF <~ FSTree_open Local name ;
    if negb remoteExists
    then RQFile_createInstanceFromLocal name localF
    else
      remoteF <~ DAMTree_open name ;
      RQFile_createInstanceFromLocalAndRemote name localF (Some remoteF).

(** *** Objects used as tables

    [lookup] and [remoteLookup] are object literals [{}]: besides the
    properties that the loop sets, they have the ones that every object
    inherits from [Object.prototype].  A table is the finite map of its own
    properties.  Reading a key gives the number that was set for it, or
    what is inherited (a function, or the prototype itself for
    [__proto__]), or [undefined].  Setting a key makes an own property,
    except for [__proto__], whose setter ignores a number. *)
Definition objectPrototype : list string :=
  [ "constructor"; "__defineGetter__"; "__defineSetter__"; "hasOwnProperty";
    "__lookupGetter__"; "__lookupSetter__"; "isPrototypeOf";
    "propertyIsEnumerable"; "toString"; "valueOf"; "__proto__"; "toLocaleString" ].

Inductive JsValue := JsUndefined | JsNumber (n : nat) | JsInherited.

Definition jsGet (o : gmap string nat) (key : string) : JsValue :=
  if bool_decide (key = "__proto__") then JsInherited
  else match o !! key with
       | Some n => JsNumber n
       | None => if bool_decide (key ∈ objectPrototype) then JsInherited else JsUndefined
       end.

(** [v !== undefined] *)
Definition isDefined (v : JsValue) : bool :=
  match v with JsUndefined => false | _ => true end.

Definition jsSet (key : string) (n : nat) (o : gmap string nat) : gmap string nat :=
  if bool_decide (key = "__proto__") then o else <[key := n]> o.

(** [remoteFiles[origRemoteIndex]]: an array read at something that is
    not a number is [undefined]. *)
Definition arrayGet {A} (l : list A) (i : JsValue) : option A :=
  match i with JsNumber n => l !! n | _ => None end.

(** [rqFiles[remoteIndex] = rqFile]: a write at something that is not a
    number sets a property of the array that is not one of its elements. *)
Definition arraySet {A} (i : JsValue) (x : A) (l : list A) : list A :=
  match i with JsNumber n => <[n := x]> l | _ => l end.

(** What [list] hands to its callback: the remote handles as they came
    when the local tree has no such directory, overlay files otherwise. *)
Inductive Listing :=
| RemoteFiles (files : list File)
| RQFiles (files : list RQFile).

(** The [for] loop over [remoteFiles]; [i] is the loop index, the triple
    is [rqFiles], [lookup] and [remoteLookup]. *)
Fixpoint remoteLoop (requests : gmap string string) (remoteFiles : list File) (i : nat)
    (acc : list RQFile * gmap string nat * gmap string nat)
  : list RQFile * gmap string nat * gmap string nat :=
  match remoteFiles with
  | [] => acc
  | r :: rest =>
    let '(rqFiles, lookup, remoteLookup) := acc in
    if bool_decide (requests !! getName r ≠ Some "DELETE")
    then
      let rqFiles' := rqFiles ++ [RQFile_createInstanceFromRemote (getPath r) r] in
      remoteLoop requests rest (S i)
        (rqFiles', jsSet (getName r) (length rqFiles' - 1) lookup,
         jsSet (getName r) i remoteLookup)
    else remoteLoop requests rest (S i) acc
  end.

(** [processLocal(index)]: the recursion on [index] is the recursion on
    the local files that are left.  A [remoteIndex] that is a number is an
    index of [rqFiles] (see [remoteLoop_weak]), so the write never extends
    the array. *)
Fixpoint processLocal (lookup remoteLookup : gmap string nat) (remoteFiles : list File)
    (localFiles : list File) (rqFiles : list RQFile) : M (list RQFile) :=
  match localFiles with
  | [] => ret rqFiles
  | lf :: rest =>
    if isTempFileName (getName lf)
    then
      rqFile <~ RQFile_createInstanceFromLocal (getName lf) lf ;
      processLocal lookup remoteLookup remoteFiles rest (rqFiles ++ [rqFile])
    else
      let remoteIndex := jsGet lookup (getName lf) in
      let origRemoteIndex := jsGet remoteLookup (getName lf) in
      if isDefined remoteIndex
      then
        rqFile <~ RQFile_createInstanceFromLocalAndRemote (getPath lf) lf
                    (arrayGet remoteFiles origRemoteIndex) ;
        processLocal lookup remoteLookup remoteFiles rest (arraySet remoteIndex rqFile rqFiles)
      else
        rqFile <~ RQFile_createInstanceFromLocal (getPath lf) lf ;
        exists_ <~ FSTree_exists Work (getCreateFileName (getPath lf)) ;
        if exists_ : bool
        then processLocal lookup remoteLookup remoteFiles rest (rqFiles ++ [rqFile])
        else
          canDelete <~ RQFile_canDelete rqFile ;
          if canDelete : bool
          then
            run FSFile_delete lf ;
            run RQFile_deleteWorkFiles (getPath lf) ;
            run logger (InfoDeletedRemotely (rqName rqFile)) ;
            processLocal lookup remoteLookup remoteFiles rest rqFiles
          else
            run logger (InfoConflictSendingEvent (rqName rqFile)) ;
            processLocal lookup remoteLookup remoteFiles rest (rqFiles ++ [rqFile])
  end.

(** The callback of [getRequests]: [err] is not looked at; [requests] is
    indexed in the body of the loop, which throws when it is undefined. *)
Definition mergeListing (requests : option (gmap string string))
    (remoteFiles localFiles : list File) : M (list RQFile) :=
  match requests, remoteFiles with
  | None, _ :: _ => throw TypeError
  | None, [] => processLocal ∅ ∅ remoteFiles localFiles []
  | Some requests, _ =>
    let '(rqFiles, lookup, remoteLookup) := remoteLoop requests remoteFiles 0 ([], ∅, ∅) in
    processLocal lookup remoteLookup remoteFiles localFiles rqFiles
  end.

Definition RQTree_list (pattern : string) : M Listing :=
  remoteFiles <~ DAMTree_list pattern ;
  let parentPath := parentOrEmpty pattern in
  exists_ <~ FSTree_exists Local parentPath ;
  if exists_ : bool
  then
    localFiles <~ FSTree_list Local pattern ;
    (λ w, let '((err, requests), w') := RequestQueue_getRequests parentPath w in
          bind (mergeListing requests remoteFiles localFiles) (λ l, ret (RQFiles l)) w')
  else ret (RemoteFiles remoteFiles).

(** [if (newName)]: a string is true unless it is empty. *)
Definition truthy (s : option string) : bool :=
  match s with Some s => negb (bool_decide (s = "")) | None => false end.

Definition RQTree_queueData (name method : string) (newName : option string) : M unit :=
  λ w,
  let isTempFile := isTempFileName name in
  let options :=
    {| method := method; path := name;
       destPath := if truthy newName then newName else None;
       remotePrefix := shareRemotePrefix; localPrefix := shareLocalPath |} in
  let isTempFile :=
    if truthy newName then isTempFile && isTempFileName (default "" newName)
    else isTempFile in
  if negb isTempFile
  then
    match RequestQueue_queueRequest options w with
    | (Some err, w') => (Done tt, addLog (ErrorUnableToQueue options err) w')
    | (None, w') => (Done tt, w')
    end
  else (Done tt, w).

Definition RQTree_createFile (name : string) : M RQFile :=
  file <~ FSTree_createFile Local name ;
  createdFile <~ FSTree_createFile Work (getCreateFileName name) ;
  run (λ w, (Done tt, setCreatedFiles ({[name]} ∪ createdFiles w) w)) ;
  run invalidateContentCache (getParentPath name) true ;
  RQFile_createInstanceFromLocal name file.

Definition RQTree_delete (name : string) : M unit :=
  run logger (InfoTreeDelete name) ;
  exists_ <~ FSTree_exists Local name ;
  if exists_ : bool
  then
    run FSTree_delete Local name ;
    run invalidateContentCache (getParentPath name) true ;
    run RQTree_queueData name "DELETE" None ;
    (λ w, match RQFile_deleteWorkFiles name w with
          | (Fail err, w') => (Done tt, addLog (ErrorCleanUpAfterDeletion err) w')
          | (_, w') => (Done tt, w')
          end)
  else DAMTree_delete name.

Definition RQTree_rename (oldName newName : string) : M unit :=
  exists_ <~ FSTree_exists Local oldName ;
  if exists_ : bool
  then
    run FSTree_rename Local oldName newName ;
    run invalidateContentCache (getParentPath oldName) true ;
    run invalidateContentCache (getParentPath newName) true ;
    file <~ FSFile_createInstance Local newName ;
    exists_ <~ FSTree_exists Work oldName ;
    createdExists <~ FSTree_exists Work (getCreateFileName oldName) ;
    let queueRename : M unit :=
      if isDirectory file
      then
        run DAMTree_rename oldName newName ;
        RequestQueue_updatePath oldName newName
      else RQTree_queueData oldName "MOVE" (Some newName) in
    let renameCreated : M unit :=
      if exists_ : bool
      then run FSTree_rename Work oldName newName ; queueRename
      else queueRename in
    if createdExists : bool
    then
      run FSTree_rename Work (getCreateFileName oldName) (getCreateFileName newName) ;
      renameCreated
    else renameCreated
  else DAMTree_rename oldName newName.

End Tree.

(** ** A share to run the tree on

    POSIX-style logical names, temporary files recognised by a leading
    [~] or [.] of the base name, and the one rule of NFKD that the comment
    in [FSTree.list] is about: U+00E9 decomposes into U+0065 U+0301
    (strings are UTF-8 here: C3 A9 becomes 65 CC 81). *)

Fixpoint lastSlash (s : string) : option (string * string) :=
  match s with
  | EmptyString => None
  | String c rest =>
    match lastSlash rest with
    | Some (d, b) => Some (String c d, b)
    | None => if Ascii.eqb c "/"%char then Some (EmptyString, rest) else None
    end
  end.

Definition posixParent (p : string) : option string :=
  match lastSlash p with
  | None => None
  | Some (EmptyString, _) => Some "/"
  | Some (d, _) => Some d
  end.

Definition posixName (p : string) : string :=
  match lastSlash p with
  | None => p
  | Some (_, b) => b
  end.

Definition posixJoin (d n : string) : string :=
  if bool_decide (d = "") then n
  else if bool_decide (d = "/") then "/" +:+ n
  else d +:+ "/" +:+ n.

Definition tildeOrDot (p : string) : bool :=
  String.prefix "~" (posixName p) || String.prefix "." (posixName p).

Definition byte (n : nat) : ascii := Ascii.ascii_of_nat n.

Fixpoint decomposeEAcute (s : string) : string :=
  match s with
  | EmptyString => EmptyString
  | String c1 tl =>
    match tl with
    | String c2 rest =>
      if Ascii.eqb c1 (byte 195) && Ascii.eqb c2 (byte 169)
      then String "e"%char (String (byte 204) (String (byte 129) (decomposeEAcute rest)))
      else String c1 (decomposeEAcute tl)
    | EmptyString => String c1 EmptyString
    end
  end.

Definition sampleShare : Env :=
  {| isTempFileName := tildeOrDot;
     getParentPath := posixParent;
     getPathName := posixName;
     pathJoin := posixJoin;
     nfkd := decomposeEAcute;
     shareRemotePrefix := "http://localhost:4502/api/assets";
     shareLocalPath := "/tmp/smb/local" |}.

Definition noFaults : Call → option SMBError := λ _, None.

Definition dirEntry (dir name : string) : DirEntry :=
  {| d_dir := dir; d_name := name; d_kind := Directory |}.
Definition fileEntry (dir name : string) : DirEntry :=
  {| d_dir := dir; d_name := name; d_kind := RegularFile |}.

Definition world (l wk r : list DirEntry) (q : list Request)
    (f : Call → option SMBError) : World :=
  {| local := l; work := wk; remote := r; rq := q; createdFiles := ∅;
     openFiles := ∅; logs := []; trace := []; faults := f |}.


(** A share with a document and a folder in [/a], cached locally. *)
Definition renameWorld : World :=
  world [dirEntry "" "/"; dirEntry "/" "a"; fileEntry "/a" "x.txt"; dirEntry "/a" "d"]
        [dirEntry "" "/"]
        [dirEntry "" "/"; dirEntry "/" "a"; dirEntry "/a" "d"]
        [] noFaults.

(** The listings of a directory [/a]: the remote tree has [y.txt],
    [x.txt] and [gone.txt], for which a DELETE is pending; the local tree
    has [x.txt], a temporary file, a file created by a client (its marker
    is in the work tree) and [old.txt], which the remote tree has lost. *)
Definition sampleRemoteFiles : list File :=
  [ {| getPath := "/a/y.txt"; isDirectory := false |};
    {| getPath := "/a/x.txt"; isDirectory := false |};
    {| getPath := "/a/gone.txt"; isDirectory := false |} ].

Definition sampleLocalFiles : list File :=
  [ {| getPath := "/a/x.txt"; isDirectory := false |};
    {| getPath := "/a/~lock"; isDirectory := false |};
    {| getPath := "/a/new.txt"; isDirectory := false |};
    {| getPath := "/a/old.txt"; isDirectory := false |} ].

Definition sampleRequests : gmap string string := {[ "gone.txt" := "DELETE" ]}.

Definition mergeWorld : World :=
  world [dirEntry "" "/"; dirEntry "/" "a"; fileEntry "/a" "x.txt"; fileEntry "/a" "~lock";
         fileEntry "/a" "new.txt"; fileEntry "/a" "old.txt"]
        [dirEntry "" "/"; dirEntry "/" "a"; fileEntry "/a" "new.txt.rqcf"]
        [dirEntry "" "/"; dirEntry "/" "a"; fileEntry "/a" "y.txt"; fileEntry "/a" "x.txt";
         fileEntry "/a" "gone.txt"]
        [ {| method := "DELETE"; path := "/a/gone.txt"; destPath := None;
             remotePrefix := "http://localhost:4502/api/assets";
             localPrefix := "/tmp/smb/local" |} ]
        noFaults.

(** A temporary file that both trees list. *)
Definition tempBothWorld : World :=
  world [dirEntry "" "/"; dirEntry "/" "a"; fileEntry "/a" "~lock"] []
        [dirEntry "" "/"; dirEntry "/" "a"; fileEntry "/a" "~lock"] [] noFaults.

(** "caf" followed by U+00E9, and "cafe" followed by U+0301, in UTF-8. *)
Definition cafeNFC : string :=
  String "c" (String "a" (String "f" (String (byte 195) (String (byte 169) EmptyString)))).
Definition cafeNFD : string :=
  String "c" (String "a" (String "f" (String "e"
    (String (byte 204) (String (byte 129) EmptyString))))).

(** The remote tree has the composed name, the local tree the decomposed
    one, created by a client. *)
Definition cafeWorld : World :=
  world [dirEntry "" "/"; dirEntry "/" "a"; fileEntry "/a" cafeNFD]
        [dirEntry "" "/"; dirEntry "/" "a"; fileEntry "/a" (cafeNFD +:+ ".rqcf")]
        [dirEntry "" "/"; dirEntry "/" "a"; fileEntry "/a" cafeNFC]
        [] noFaults.

(** A document that both trees have, next to one that only the remote
    tree has. *)
Definition deleteWorld : World :=
  world [dirEntry "" "/"; dirEntry "/" "a"; fileEntry "/a" "x.txt"]
        [dirEntry "" "/"; dirEntry "/" "a"]
        [dirEntry "" "/"; dirEntry "/" "a"; fileEntry "/a" "x.txt"; fileEntry "/a" "y.txt"]
        [] noFaults.

(** [old.txt] was synced in an earlier session and has disappeared from the
    remote tree; it has no creation marker and a client holds it open. *)
Definition conflictWorld : World :=
  {| local := [dirEntry "" "/"; dirEntry "/" "a"; fileEntry "/a" "old.txt"];
     work := [dirEntry "" "/"; dirEntry "/" "a"];
     remote := [dirEntry "" "/"; dirEntry "/" "a"];
     rq := []; createdFiles := ∅; openFiles := {[ "/a/old.txt" ]};
     logs := []; trace := []; faults := noFaults |}.

(** A document [/a/x.txt] of the local tree; the errors of [fs.stat] are
    the ones that the trees determine. *)
Definition belowFileWorld : World :=
  let l := [dirEntry "" "/"; dirEntry "/" "a"; fileEntry "/a" "x.txt"] in
  let wk := [dirEntry "" "/"; dirEntry "/" "a"] in
  world l wk [dirEntry "" "/"; dirEntry "/" "a"; fileEntry "/a" "x.txt"] []
        (@statErrors sampleShare l wk).

(** Files that a client has created in [/a] (their markers are in the work
    tree): two of them bear names of properties that every object
    inherits. *)
Definition inheritedWorld : World :=
  world [dirEntry "" "/"; dirEntry "/" "a"; fileEntry "/a" "constructor";
         fileEntry "/a" "__proto__"; fileEntry "/a" "n.txt"]
        [dirEntry "" "/"; dirEntry "/" "a"; fileEntry "/a" "constructor.rqcf";
         fileEntry "/a" "__proto__.rqcf"; fileEntry "/a" "n.txt.rqcf"]
        [dirEntry "" "/"; dirEntry "/" "a"; fileEntry "/a" "__proto__"]
        [] noFaults.

(** A queue that cannot be read. *)
Definition getRequestsFails : Call → option SMBError :=
  λ c, match c with RqGetRequests _ => Some QueueError | _ => None end.

(** A queue that cannot be written. *)
Definition queueRequestFails : Call → option SMBError :=
  λ c, match c with RqQueueRequest _ => Some QueueError | _ => None end.

(** The remote directory is empty, the local one holds a file that a
    client has created; the queue cannot be read. *)
Definition emptyRemoteWorld : World :=
  world [dirEntry "" "/"; dirEntry "/" "a"; fileEntry "/a" "new.txt"]
        [dirEntry "" "/"; dirEntry "/" "a"; fileEntry "/a" "new.txt.rqcf"]
        [dirEntry "" "/"; dirEntry "/" "a"]
        [] getRequestsFails.

(** The remote directory holds a file; the queue cannot be read. *)
Definition unreadableQueueWorld : World :=
  world [dirEntry "" "/"; dirEntry "/" "a"]
        [dirEntry "" "/"; dirEntry "/" "a"]
        [dirEntry "" "/"; dirEntry "/" "a"; fileEntry "/a" "y.txt"]
        [] getRequestsFails.

(** A cached document; the queue cannot be written. *)
Definition unwritableQueueWorld : World :=
  world [dirEntry "" "/"; dirEntry "/" "a"; fileEntry "/a" "x.txt"]
        [dirEntry "" "/"; dirEntry "/" "a"]
        [dirEntry "" "/"; dirEntry "/" "a"; fileEntry "/a" "x.txt"]
        [] queueRequestFails.

(** ** Vocabulary of the properties *)

(** The requests a run has handed to the queue: the [queueRequest] calls
    of its trace. *)
Definition queuedBy (tr : list Call) : list Request :=
  omap (λ c, match c with RqQueueRequest r => Some r | _ => None end) tr.

(** Both names of a request (the only one, when it has no [destPath])
    match the temporary-file pattern. *)
Definition allTemp `{Env} (r : Request) : bool :=
  isTempFileName (path r) &&
  match destPath r with Some d => isTempFileName d | None => true end.

(** The calls of a run that reach the remote tree. *)
Definition isRemoteCall (c : Call) : bool :=
  match c with
  | DamExists _ | DamOpen _ | DamList _ | DamDelete _ | DamRename _ _ => true
  | _ => false
  end.

Definition remoteCalls (tr : list Call) : list Call := List.filter isRemoteCall tr.

(** The same world with a queue that accepts every request. *)
Definition healQueue (w : World) : World :=
  {| local := local w; work := work w; remote := remote w; rq := rq w;
     createdFiles := createdFiles w; openFiles := openFiles w;
     logs := logs w; trace := trace w;
     faults := λ c, match c with RqQueueRequest _ => None | _ => faults w c end |}.

(** The request that [rename] hands to [queueData] for a file. *)
Definition moveRequest `{Env} (oldName newName : string) : Request :=
  {| method := "MOVE"; path := oldName;
     destPath := if truthy (Some newName) then Some newName else None;
     remotePrefix := shareRemotePrefix; localPrefix := shareLocalPath |}.

Definition deleteRequest `{Env} (name : string) : Request :=
  {| method := "DELETE"; path := name; destPath := None;
     remotePrefix := shareRemotePrefix; localPrefix := shareLocalPath |}.

(** *** The merge, as the specification words it *)

Section MergeVocabulary.
Context `{Env}.

(** A remote entry survives the remote pass unless a DELETE is pending
    for its name. *)
Definition survivors (requests : gmap string string) (remoteFiles : list File) : list File :=
  filter (λ r, requests !! getName r ≠ Some "DELETE") remoteFiles.

(** The three forms of an overlay file in a listing: backed by the remote
    handle only, by the local handle only (created with the base name for
    a temporary file, with the path otherwise), and by both handles, under
    the path of the local one. *)
Definition remoteEntry (r : File) : RQFile :=
  {| rqName := getPath r; localFile := None; remoteFile := Some r |}.

Definition localEntry (lf : File) : RQFile :=
  {| rqName := if isTempFileName (getName lf) then getName lf else getPath lf;
     localFile := Some lf; remoteFile := None |}.

Definition syncedEntry (lf r : File) : RQFile :=
  {| rqName := getPath lf; localFile := Some lf; remoteFile := Some r |}.

(** A local file that is not temporary and bears the name of [r], a name
    that the table of the remote pass can hold. *)
Definition matching (r lf : File) : bool :=
  negb (isTempFileName (getName lf)) && bool_decide (getName lf = getName r)
  && negb (bool_decide (getName lf = "__proto__")).

(** The local file that ends up merged with [r]: the last one listed. *)
Definition lastMatch (localFiles : list File) (r : File) : option File :=
  find (matching r) (rev localFiles).

Definition mergedOrRemote (localFiles : list File) (r : File) : RQFile :=
  match lastMatch localFiles r with
  | Some lf => syncedEntry lf r
  | None => remoteEntry r
  end.

(** The writes [rqFiles[remoteIndex] = rqFile] of the local pass, alone. *)
Definition mergeStep (lookup remoteLookup : gmap string nat) (remoteFiles : list File)
    (lf : File) (rqFiles : list RQFile) : list RQFile :=
  if isTempFileName (getName lf) then rqFiles
  else arraySet (jsGet lookup (getName lf))
         {| rqName := getPath lf; localFile := Some lf;
            remoteFile := arrayGet remoteFiles (jsGet remoteLookup (getName lf)) |}
         rqFiles.

Fixpoint applyMerges (lookup remoteLookup : gmap string nat) (remoteFiles : list File)
    (localFiles : list File) (rqFiles : list RQFile) : list RQFile :=
  match localFiles with
  | [] => rqFiles
  | lf :: rest =>
    applyMerges lookup remoteLookup remoteFiles rest
      (mergeStep lookup remoteLookup remoteFiles lf rqFiles)
  end.

(** A local file for whose name the table of the remote pass holds
    nothing: no entry of [shown] bears the name, and the name is not one of
    the properties that the table inherits. *)
Definition unlisted (shown : list File) (lf : File) : Prop :=
  (getName lf ∉ objectPrototype) ∧ ∀ r, r ∈ shown → getName r ≠ getName lf.

(** The work tree holds the creation marker of a local file: a client
    has created the file. *)
Definition clientCreated (w : World) (lf : File) : Prop :=
  fs_has (work w) (getCreateFileName (getPath lf)) = true.

(** An overlay file stands for the name [n]. *)
Definition refers (n : string) (f : RQFile) : Prop :=
  rqName f = n ∨ getPath <$> localFile f = Some n ∨ getPath <$> remoteFile f = Some n.

(** The queue holds a DELETE for [n], and nothing queued later for it. *)
Definition pendingDelete (n : string) (w : World) : Prop :=
  requestsOf (parentOrEmpty n) (rq w) !! getPathName n = Some "DELETE".

End MergeVocabulary.

(** What keeps [canDelete] from giving up a file that has no creation
    marker: a client holds it open, or a pending request refers to it. *)
Definition heldBack (w : World) (lf : File) : Prop :=
  getPath lf ∈ openFiles w ∨ existsb (refersTo (getPath lf)) (rq w) = true.

(** Two worlds that differ in the trace of calls only. *)
Definition sameButTrace (w w' : World) : Prop :=
  local w' = local w ∧ work w' = work w ∧ remote w' = remote w ∧ rq w' = rq w ∧
  createdFiles w' = createdFiles w ∧ openFiles w' = openFiles w ∧
  logs w' = logs w ∧ faults w' = faults w.

(** ** Vocabulary of the further properties *)

(** What a read leaves behind: the queue, the remote tree, the in-memory
    sets and the faults as they were, nothing handed to [queueRequest],
    and local and work trees that have lost entries at most. *)
Definition quiet (w w' : World) : Prop :=
  rq w' = rq w ∧ remote w' = remote w ∧
  createdFiles w' = createdFiles w ∧ openFiles w' = openFiles w ∧
  faults w' = faults w ∧
  sublist (local w') (local w) ∧ sublist (work w') (work w) ∧
  queuedBy (trace w') = queuedBy (trace w).

Definition Quiet {A} (m : M A) : Prop := ∀ w, quiet w (snd (m w)).

(** A call other than [queueRequest]. *)
Definition notQueueRequest (c : Call) : Prop :=
  match c with RqQueueRequest _ => False | _ => True end.

(** ** The directory operations

    [createDirectory] and [deleteDirectory], of the file-system tree and
    of the overlay tree.  They reach four more collaborators: [fs.rmdir],
    the remote tree's [createDirectory] and [deleteDirectory], and the
    queue's [removePath].  These four are not recorded in the trace; the
    error that each of them has in store is given by [dirFaults]. *)

Inductive DirCall :=
| FsRmdir (t : Tree) (name : string)
| DamCreateDirectory (name : string)
| DamDeleteDirectory (name : string)
| RqRemovePath (name : string).

Class DirFaults := dirFaults : DirCall → option SMBError.

Section Directories.
Context `{Env} `{DirFaults}.

Definition dirCall {A} (c : DirCall) (body : M A) : M A := λ w,
  match dirFaults c with
  | Some e => (Fail e, w)
  | None => body w
  end.

(** [FSTree.prototype.createDirectory]: [mkdirp] accepts a directory that
    is there and refuses a file, then the handle is created. *)
Definition FSTree_createDirectory (t : Tree) (name : string) : M File :=
  run call (Mkdirp t name) (λ w,
    match fs_stat (treeOf t w) name with
    | Some RegularFile => (Fail AlreadyExists, w)
    | _ => (Done tt, setTree t (mkdirp (String.length name) (treeOf t w) name) w)
    end) ;
  FSTree_createFileInstance t name.

(** [FSTree.prototype.deleteDirectory]: [fs.rmdir] removes a directory
    that has no entry. *)
Definition FSTree_deleteDirectory (t : Tree) (name : string) : M unit :=
  dirCall (FsRmdir t name) (λ w,
    match fs_stat (treeOf t w) name with
    | Some Directory =>
      match fs_readdir (treeOf t w) name with
      | [] => (Done tt, setTree t (fs_remove (treeOf t w) name) w)
      | _ :: _ => (Fail NotEmpty, w)
      end
    | Some RegularFile => (Fail Io, w)
    | None => (Fail NotFound, w)
    end).

(** Modelled from the spec: [createDirectory] and [deleteDirectory] of
    [DAMTree] (lib/backends/dam/tree.js, whose code is not available).
    The remote tree has the surface of a local tree; a create that would
    overwrite is [AlreadyExists], a missing name is [NotFound]. *)
Definition DAMTree_createDirectory (name : string) : M File :=
  dirCall (DamCreateDirectory name) (λ w,
    match fs_stat (remote w) name with
    | Some _ => (Fail AlreadyExists, w)
    | None => (Done (handle name Directory),
               setRemote (remote w ++ [fs_entry name Directory]) w)
    end).

Definition DAMTree_deleteDirectory (name : string) : M unit :=
  dirCall (DamDeleteDirectory name) (λ w,
    match fs_stat (remote w) name with
    | Some _ => (Done tt, setRemote (fs_remove (remote w) name) w)
    | None => (Fail NotFound, w)
    end).

(** Modelled from the spec: [removePath] of [RequestQueue]
    (lib/backends/rq/requestqueue.js, whose code is not available) removes
    all queue entries whose key begins with the name. *)
Definition RequestQueue_removePath (name : string) : M unit :=
  dirCall (RqRemovePath name) (λ w,
    (Done tt, setRq (filter (λ r, String.prefix name (requestKey r) = false) (rq w)) w)).

(** [RQTree.prototype.createDirectory] *)
Definition RQTree_createDirectory (name : string) : M File :=
  file <~ FSTree_createDirectory Local name ;
  DAMTree_createDirectory name.

(** [RQTree.prototype.deleteDirectory] *)
Definition RQTree_deleteDirectory (name : string) : M unit :=
  exists_ <~ FSTree_exists Local name ;
  if exists_ : bool
  then
    run FSTree_deleteDirectory Local name ;
    run DAMTree_deleteDirectory name ;
    run RequestQueue_removePath name ;
    exists_ <~ FSTree_exists Work name ;
    if exists_ : bool
    then FSTree_deleteDirectory Work name
    else ret tt
  else DAMTree_deleteDirectory name.

End Directories.

(** Directory calls that all go through, and ones of which the remote
    tree refuses every one. *)
Definition noDirFaults : DirFaults := λ _, None.

Definition remoteDirFaults : DirFaults :=
  λ c, match c with
       | DamCreateDirectory _ | DamDeleteDirectory _ => Some RemoteError
       | _ => None
       end.

(** A cached folder [/a/d] that is empty, next to a document. *)
Definition folderWorld : World :=
  world [dirEntry "" "/"; dirEntry "/" "a"; dirEntry "/a" "d"; fileEntry "/a" "x.txt"]
        [dirEntry "" "/"; dirEntry "/" "a"]
        [dirEntry "" "/"; dirEntry "/" "a"; dirEntry "/a" "d"; fileEntry "/a" "x.txt"]
        [ {| method := "PUT"; path := "/a/d/old.txt"; destPath := None;
             remotePrefix := "http://localhost:4502/api/assets";
             localPrefix := "/tmp/smb/local" |} ]
        noFaults.

(** * Properties *)

(** ** Running the monad *)

Arguments fs_stat : simpl never.
Arguments fs_find : simpl never.
Arguments fs_remove : simpl never.
Arguments fs_readdir : simpl never.
Arguments fs_move : simpl never.
Arguments mkdirp : simpl never.
Arguments fs_rename : simpl never.
Arguments jsGet : simpl never.
Arguments jsSet : simpl never.
Arguments requestsOf : simpl never.
Arguments getCreateFileName : simpl never.
Arguments parentOrEmpty : simpl never.

(** ** [open] *)

(** C5, as amended.  When neither the remote tree nor the local tree
    contains [name], [open name] fails.  It makes three calls that look for
    the name: the remote [exists], [fs.stat] on the local tree and the
    local [open]; the error that the callback gets is the one of the first
    of them that reports an error of its own, and [NotFound], from the
    local [open], when none does. *)
Theorem open_absent_everywhere_NotFound `{Env} (name : string) (w : World) :
  fs_stat (remote w) name = None →
  fs_stat (local w) name = None →
  fst (RQTree_open name w)
  = Fail (match faults w (DamExists name) with
          | Some e => e
          | None =>
            match faults w (FsStat Local name) with
            | Some e => e
            | None => default NotFound (faults w (FSFileCreateInstance Local name))
            end
          end) ∧
  (faults w (DamExists name) = None →
   faults w (FsStat Local name) = None →
   faults w (FSFileCreateInstance Local name) = None →
   fst (RQTree_open name w) = Fail NotFound).
Proof.
  intros Hr Hl.
  assert (Hopen : fst (RQTree_open name w)
    = Fail (match faults w (DamExists name) with
            | Some e => e
            | None =>
              match faults w (FsStat Local name) with
              | Some e => e
              | None => default NotFound (faults w (FSFileCreateInstance Local name))
              end
            end)).
  { unfold RQTree_open, DAMTree_exists, FSTree_exists, FSTree_open,
      FSTree_createFileInstance, FSFile_createInstance, bind, call, fs_has.
    destruct (faults w (DamExists name)) eqn:F1; [reflexivity |].
    destruct (faults w (FsStat Local name)) eqn:F2;
      [repeat (cbn; rewrite ?F1, ?F2, ?Hr, ?Hl); reflexivity |].
    destruct (faults w (FSFileCreateInstance Local name)) eqn:F3;
      repeat (cbn; rewrite ?F1, ?F2, ?F3, ?Hr, ?Hl); reflexivity. }
  split; [exact Hopen |].
  intros F1 F2 F3. rewrite Hopen, F1, F2, F3. reflexivity.
Qed.

Lemma open_absent_everywhere_NotFound_witness :
  fst (@RQTree_open sampleShare "/a/zz"
         (world [dirEntry "" "/"; dirEntry "/" "a"; fileEntry "/a" "x.txt"] []
                [dirEntry "" "/"; dirEntry "/" "a"; fileEntry "/a" "y.txt"] []
                noFaults))
  = Fail NotFound.
Proof.
  apply (@open_absent_everywhere_NotFound sampleShare); reflexivity.
Defined.

(** C5, as stated, fails: neither tree contains [/a/x.txt/y], but
    [/a/x.txt] is a regular file of the local tree, so [fs.stat] reports
    ENOTDIR, not ENOENT; [FSTree.exists] passes the error on and it is
    what the callback of [open] gets. *)
Lemma open_below_a_file_counterexample :
  @fs_stat sampleShare (remote belowFileWorld) "/a/x.txt/y" = None ∧
  @fs_stat sampleShare (local belowFileWorld) "/a/x.txt/y" = None ∧
  faults belowFileWorld (FsStat Local "/a/x.txt/y") = Some Io ∧
  fst (@RQTree_open sampleShare "/a/x.txt/y" belowFileWorld) = Fail Io.
Proof. repeat split; vm_compute; reflexivity. Qed.

(** ** [queueData] *)

Lemma queuedBy_app tr1 tr2 : queuedBy (tr1 ++ tr2) = queuedBy tr1 ++ queuedBy tr2.
Proof. apply omap_app. Qed.

(** What [queueData] does to the world, case by case. *)
Lemma queueData_cases `{Env} (name meth : string) (newName : option string) (w : World) :
  let options :=
    {| method := meth; path := name;
       destPath := if truthy newName then newName else None;
       remotePrefix := shareRemotePrefix; localPrefix := shareLocalPath |} in
  fst (RQTree_queueData name meth newName w) = Done tt ∧
  ((allTemp options = true ∧ snd (RQTree_queueData name meth newName w) = w) ∨
   (allTemp options = false ∧ faults w (RqQueueRequest options) = None ∧
    snd (RQTree_queueData name meth newName w)
    = setRq (rq w ++ [options]) (record (RqQueueRequest options) w)) ∨
   (allTemp options = false ∧ ∃ err, faults w (RqQueueRequest options) = Some err ∧
    snd (RQTree_queueData name meth newName w)
    = addLog (ErrorUnableToQueue options err) (record (RqQueueRequest options) w))).
Proof.
  intros options. unfold RQTree_queueData, RequestQueue_queueRequest, allTemp.
  fold options. cbn [path destPath options].
  set (b := if truthy newName
            then isTempFileName name && isTempFileName (default "" newName)
            else isTempFileName name).
  assert (Hb : b = isTempFileName name &&
                   match (if truthy newName then newName else None) with
                   | Some d => isTempFileName d
                   | None => true
                   end).
  { subst b. destruct newName as [d|]; cbn [truthy default].
    - destruct (negb (bool_decide (d = ""))); [reflexivity |].
      now rewrite andb_true_r.
    - now rewrite andb_true_r. }
  rewrite <- Hb. clearbody b. destruct b; cbn [negb].
  - split; [reflexivity | left; split; reflexivity].
  - destruct (faults w (RqQueueRequest options)) eqn:E; cbn [fst snd];
      (split; [reflexivity | right]).
    + right. split; [reflexivity |]. eexists. split; reflexivity.
    + left. repeat split.
Qed.

(** [queueData] appends at most one entry, and that entry never has all
    of its names in the temporary namespace. *)
Lemma queueData_queues_at_most_one `{Env}
    (name meth : string) (newName : option string) (w : World) :
  let w' := snd (RQTree_queueData name meth newName w) in
  rq w' = rq w ∨
  ∃ r, rq w' = rq w ++ [r] ∧ path r = name ∧ method r = meth ∧
       destPath r = (if truthy newName then newName else None) ∧
       allTemp r = false ∧
       (destPath r = None → isTempFileName (path r) = false).
Proof.
  cbn zeta. destruct (queueData_cases name meth newName w) as [_ Hc].
  destruct Hc as [[_ ->] | [(Ht & _ & ->) | (_ & err & _ & ->)]];
    [now left | right | now left].
  eexists. split; [reflexivity |]. repeat split; try assumption.
  cbn [destPath path]. intros Hd. unfold allTemp in Ht. cbn [destPath path] in Ht.
  rewrite Hd in Ht. now rewrite andb_true_r in Ht.
Qed.

(** C2, as stated, fails: renaming a document to a temporary name queues a
    MOVE whose [destPath] matches the temporary pattern. *)
Lemma queueData_destPath_temp_counterexample :
  let w := world [] [] [] [] noFaults in
  ∃ r, rq (snd (@RQTree_queueData sampleShare "/a/x.txt" "MOVE" (Some "/a/~x.tmp") w)) = [r]
       ∧ destPath r = Some "/a/~x.tmp"
       ∧ @isTempFileName sampleShare "/a/~x.tmp" = true.
Proof. cbn zeta. eexists. split; [reflexivity |]. split; reflexivity. Qed.

(** ** [createFile] *)

Lemma find_snoc {A} (p : A → bool) (l : list A) (x : A) :
  find p (l ++ [x]) =
  match find p l with Some y => Some y | None => if p x then Some x else None end.
Proof.
  induction l as [|a l IH]; cbn; [reflexivity |].
  now destruct (p a).
Qed.

Lemma fs_stat_app_new `{Env} (fs : list DirEntry) (e : DirEntry) (p : string) (k : Kind) :
  fs_stat fs p = None → fs_stat (fs ++ [e]) p = Some k →
  k = d_kind e ∧ entryPath e = p.
Proof.
  unfold fs_stat, fs_find. intros Hnone Hsome.
  rewrite find_snoc in Hsome.
  destruct (find _ fs) as [x|]; [discriminate |].
  destruct (bool_decide (entryPath e = p)) eqn:E; [| discriminate].
  apply bool_decide_eq_true in E. now inversion Hsome.
Qed.

Lemma fs_has_true `{Env} (fs : list DirEntry) (p : string) (k : Kind) :
  fs_stat fs p = Some k → fs_has fs p = true.
Proof. unfold fs_has. now intros ->. Qed.

Lemma fs_stat_remove_eq `{Env} (fs : list DirEntry) (p : string) :
  fs_stat (fs_remove fs p) p = None.
Proof.
  unfold fs_stat, fs_find, fs_remove.
  induction fs as [|e fs IH]; [reflexivity |].
  rewrite filter_cons. destruct (decide (entryPath e ≠ p)) as [Hne | Heq]; [| exact IH].
  cbn [find]. rewrite bool_decide_eq_false_2 by exact Hne. exact IH.
Qed.

Lemma fs_stat_remove_ne `{Env} (fs : list DirEntry) (p d : string) :
  d ≠ p → fs_stat (fs_remove fs p) d = fs_stat fs d.
Proof.
  intros Hd. unfold fs_stat, fs_find, fs_remove.
  induction fs as [|e fs IH]; [reflexivity |].
  rewrite filter_cons. destruct (decide (entryPath e ≠ p)) as [Hne | Heq].
  - cbn [find]. destruct (bool_decide (entryPath e = d)); [reflexivity | exact IH].
  - cbn [find]. rewrite bool_decide_eq_false_2; [exact IH |].
    intros Heq'. apply Heq. congruence.
Qed.

(** Reading the fields of an updated world. *)
Ltac wsimpl :=
  cbn [faults local work remote rq createdFiles openFiles logs trace
       record setTree setRemote setRq setCreatedFiles addLog treeOf fst snd].
Tactic Notation "wsimpl" "in" hyp(H) :=
  cbn [faults local work remote rq createdFiles openFiles logs trace
       record setTree setRemote setRq setCreatedFiles addLog treeOf fst snd] in H.

(** Breaking a successful run into the answers of its calls. *)
Ltac break_run Hrun :=
  repeat (wsimpl in Hrun; cbn [isDirectory handle] in Hrun;
    match type of Hrun with
    | context [match faults ?w ?c with _ => _ end] =>
      let E := fresh "Hfault" in destruct (faults w c) eqn:E; try discriminate Hrun
    | context [match fs_stat ?fs ?p with _ => _ end] =>
      let E := fresh "Hstat" in destruct (fs_stat fs p) eqn:E; try discriminate Hrun
    | context [if fs_has ?fs ?p then _ else _] =>
      let E := fresh "Hhas" in destruct (fs_has fs p) eqn:E; try discriminate Hrun
    | context [match fs_rename ?fs ?a ?b with _ => _ end] =>
      let E := fresh "Hmv" in destruct (fs_rename fs a b) eqn:E; try discriminate Hrun
    | context [match ?k with RegularFile => _ | Directory => _ end] =>
      is_var k; destruct k
    end).

(** C7.  After a successful [createFile name]: the local tree contains
    [name], the work tree contains the creation marker [name.rqcf], [name]
    is in [createdFiles], the overlay file handed back is backed by the
    local handle only, and [createFile] has neither called the queue nor
    changed it (the PUT is left to the close of the file). *)
Theorem createFile_postcondition `{Env} (name : string) (w w' : World) (f : RQFile) :
  RQTree_createFile name w = (Done f, w') →
  fs_stat (local w') name = Some RegularFile ∧
  fs_stat (work w') (getCreateFileName name) = Some RegularFile ∧
  name ∈ createdFiles w' ∧
  f = {| rqName := name; localFile := Some (handle name RegularFile);
         remoteFile := None |} ∧
  rq w' = rq w ∧
  queuedBy (trace w') = queuedBy (trace w).
Proof.
  intros Hrun.
  unfold RQTree_createFile, FSTree_createFile, FSTree_createFileInstance,
    FSFile_createInstance, RQFile_createInstanceFromLocal,
    invalidateContentCache, bind, call, ret in Hrun.
  break_run Hrun.
  inversion Hrun; subst; clear Hrun. wsimpl.
  destruct (fs_stat_app_new _ _ _ _ Hstat Hstat0) as [-> _].
  destruct (fs_stat_app_new _ _ _ _ Hstat1 Hstat2) as [-> _].
  repeat split; try assumption; try reflexivity.
  - set_solver.
  - now rewrite !queuedBy_app, !app_nil_r.
Qed.

Lemma createFile_postcondition_witness :
  let w := world [dirEntry "" "/"; dirEntry "/" "a"] [dirEntry "" "/"] [dirEntry "" "/"]
                 [] noFaults in
  ∃ f w', @RQTree_createFile sampleShare "/a/x.txt" w = (Done f, w') ∧
    @fs_stat sampleShare (local w') "/a/x.txt" = Some RegularFile ∧
    @fs_stat sampleShare (work w') "/a/x.txt.rqcf" = Some RegularFile ∧
    "/a/x.txt" ∈ createdFiles w' ∧
    localFile f = Some (handle "/a/x.txt" RegularFile) ∧ remoteFile f = None ∧
    rq w' = [].
Proof.
  cbn zeta.
  destruct (@RQTree_createFile sampleShare "/a/x.txt"
              (world [dirEntry "" "/"; dirEntry "/" "a"] [dirEntry "" "/"]
                     [dirEntry "" "/"] [] noFaults)) as [[f | e | x] w'] eqn:Hrun.
  - exists f, w'. split; [reflexivity |].
    destruct (@createFile_postcondition sampleShare _ _ _ _ Hrun)
      as (HL & HW & HC & -> & HQ & _).
    repeat split; assumption.
  - vm_compute in Hrun. discriminate Hrun.
  - vm_compute in Hrun. discriminate Hrun.
Defined.

(** ** [rename] *)

Lemma remoteCalls_app tr1 tr2 : remoteCalls (tr1 ++ tr2) = remoteCalls tr1 ++ remoteCalls tr2.
Proof. apply List.filter_app. Qed.

(** Counting the calls of a trace that has been written out. *)
Ltac count_calls :=
  wsimpl; rewrite ?remoteCalls_app, ?queuedBy_app;
  cbn [remoteCalls List.filter isRemoteCall queuedBy omap list_omap];
  rewrite ?app_nil_r; try reflexivity.

(** C8, as amended.  A successful [rename oldName newName] of a name the
    local tree contains goes by the kind of the renamed entry.  For a
    directory the last two calls of the run are the rename on the remote
    tree and [updatePath] on the queue, which re-parents the pending
    entries, and nothing is handed to [queueRequest].  For a file no call
    reaches the remote tree, and a MOVE from [oldName] to [newName] is
    handed to the queue, unless both names are temporary: then nothing is
    queued. *)
Theorem rename_eager_for_directories_queued_for_files `{Env}
    (oldName newName : string) (w w' : World) :
  fs_has (local w) oldName = true →
  RQTree_rename oldName newName w = (Done tt, w') →
  (fs_stat (local w') newName = Some Directory ∧
   (∃ tr, trace w' = tr ++ [DamRename oldName newName; RqUpdatePath oldName newName] ∧
          remoteCalls tr = remoteCalls (trace w) ∧
          queuedBy tr = queuedBy (trace w)) ∧
   remote w' = (fs_move oldName newName <$> fs_remove (remote w) newName) ∧
   rq w' = (reparentRequest oldName newName <$> rq w))
  ∨
  (fs_stat (local w') newName = Some RegularFile ∧
   remoteCalls (trace w') = remoteCalls (trace w) ∧
   remote w' = remote w ∧
   ((allTemp (moveRequest oldName newName) = true ∧
     rq w' = rq w ∧ queuedBy (trace w') = queuedBy (trace w))
    ∨
    (allTemp (moveRequest oldName newName) = false ∧
     queuedBy (trace w') = queuedBy (trace w) ++ [moveRequest oldName newName] ∧
     (rq w' = rq w ++ [moveRequest oldName newName] ∨
      ∃ err, faults w (RqQueueRequest (moveRequest oldName newName)) = Some err ∧
             rq w' = rq w)))).
Proof.
  intros HL Hrun.
  unfold RQTree_rename, FSTree_exists, FSTree_rename, FSFile_createInstance,
    invalidateContentCache, DAMTree_rename, RequestQueue_updatePath,
    bind, call, ret in Hrun.
  break_run Hrun; try congruence.
  all: match type of Hrun with
       | RQTree_queueData _ _ _ ?w1 = _ =>
         right;
         destruct (queueData_cases oldName "MOVE" (Some newName) w1) as [_ Hc];
         rewrite Hrun in Hc; cbn [snd] in Hc;
         fold (moveRequest oldName newName) in Hc;
         destruct Hc as [[Ht ->] | [(Ht & Hf & ->) | (Ht & err & Hf & ->)]];
         try (wsimpl in Hf);
         (split; [wsimpl; assumption |]);
         (split; [count_calls |]); (split; [reflexivity |]);
         [ left; repeat split; [assumption | count_calls]
         | right; repeat split; [assumption | count_calls | left; reflexivity]
         | right; repeat split; [assumption | count_calls | right; eauto] ]
       | (Done _, _) = _ =>
         left; injection Hrun as <-;
         (split; [wsimpl; assumption |]);
         (split; [| split; reflexivity]);
         eexists; split;
         [ wsimpl; rewrite <- (app_assoc _ [DamRename oldName newName]); reflexivity
         | split; count_calls ]
       end.
Qed.

Lemma rename_eager_for_directories_queued_for_files_witness :
  (∃ w', @RQTree_rename sampleShare "/a/x.txt" "/a/y.txt" renameWorld = (Done tt, w') ∧
         remoteCalls (trace w') = [] ∧
         rq w' = [@moveRequest sampleShare "/a/x.txt" "/a/y.txt"]) ∧
  (∃ w', @RQTree_rename sampleShare "/a/d" "/a/e" renameWorld = (Done tt, w') ∧
         remoteCalls (trace w') = [DamRename "/a/d" "/a/e"] ∧
         rq w' = []).
Proof.
  split.
  - destruct (@RQTree_rename sampleShare "/a/x.txt" "/a/y.txt" renameWorld) as [[[] | e | x] w'] eqn:Hrun;
      [| vm_compute in Hrun; discriminate Hrun ..].
    exists w'. split; [reflexivity |].
    destruct (@rename_eager_for_directories_queued_for_files sampleShare
                "/a/x.txt" "/a/y.txt" renameWorld w' eq_refl Hrun)
      as [(Hk & _) | (_ & Hr & _ & [(Ht & _) | (_ & _ & [Hq | (err & Hf & _)])])].
    + vm_compute in Hrun. injection Hrun as <-. vm_compute in Hk. discriminate Hk.
    + split; [exact Hr |]. vm_compute in Ht. discriminate Ht.
    + split; [exact Hr | exact Hq].
    + discriminate Hf.
  - destruct (@RQTree_rename sampleShare "/a/d" "/a/e" renameWorld) as [[[] | e | x] w'] eqn:Hrun;
      [| vm_compute in Hrun; discriminate Hrun ..].
    exists w'. split; [reflexivity |].
    destruct (@rename_eager_for_directories_queued_for_files sampleShare
                "/a/d" "/a/e" renameWorld w' eq_refl Hrun)
      as [(_ & (tr & Htr & Hr & _) & _ & Hq) | (Hk & _)].
    + split; [| exact Hq]. rewrite Htr, remoteCalls_app, Hr. reflexivity.
    + vm_compute in Hrun. injection Hrun as <-. vm_compute in Hk. discriminate Hk.
Defined.

(** C8, as stated, fails: a file is renamed from one temporary name to
    another, the rename succeeds, and no MOVE is handed to the queue. *)
Lemma rename_temp_to_temp_counterexample :
  let w := world [dirEntry "" "/"; dirEntry "/" "a"; fileEntry "/a" "~x.tmp"] []
                 [dirEntry "" "/"; dirEntry "/" "a"] [] noFaults in
  let out := @RQTree_rename sampleShare "/a/~x.tmp" "/a/~y.tmp" w in
  @fs_stat sampleShare (local w) "/a/~x.tmp" = Some RegularFile ∧
  fst out = Done tt ∧
  @fs_stat sampleShare (local (snd out)) "/a/~y.tmp" = Some RegularFile ∧
  queuedBy (trace (snd out)) = [] ∧
  rq (snd out) = [].
Proof. cbn zeta. repeat split; vm_compute; reflexivity. Qed.

(** ** Errors of the queue *)

Lemma queueData_returns `{Env} (name meth : string) (newName : option string) (w : World) :
  fst (RQTree_queueData name meth newName w) = Done tt.
Proof. apply queueData_cases. Qed.

Ltac hsimpl :=
  cbn [faults local work remote rq createdFiles openFiles logs trace healQueue
       record setTree setRemote setRq setCreatedFiles addLog treeOf fst snd
       isDirectory handle].

(** Answering, in the goal, every call of two runs that ask the same. *)
Ltac break_goal :=
  repeat (hsimpl;
    match goal with
    | |- context [match faults ?w ?c with _ => _ end] =>
      let E := fresh "Hfault" in destruct (faults w c) eqn:E
    | |- context [match fs_stat ?fs ?p with _ => _ end] =>
      let E := fresh "Hstat" in destruct (fs_stat fs p) eqn:E
    | |- context [if fs_has ?fs ?p then _ else _] =>
      let E := fresh "Hhas" in destruct (fs_has fs p) eqn:E
    | |- context [match fs_rename ?fs ?a ?b with _ => _ end] =>
      let E := fresh "Hmv" in destruct (fs_rename fs a b) eqn:E
    | |- context [match ?k with RegularFile => _ | Directory => _ end] =>
      is_var k; destruct k
    | |- context [RQTree_queueData ?n ?m ?d ?w] =>
      let Hq := fresh "Hq" in
      pose proof (queueData_returns n m d w) as Hq;
      destruct (RQTree_queueData n m d w) as [? ?]; cbn [fst] in Hq; subst
    end).

(** C9.  An error of the queue while a mutation is enqueued does not reach
    the client, and is written to the log.  [queueData] returns normally
    whatever the queue answers, and logs the error of [queueRequest].  The
    callback of [delete] and of [rename] gets exactly what it gets in the
    same world with a queue that accepts every request.  A [delete] of a
    cached file that is not temporary hands its DELETE to the queue; when
    the queue answers with an error, [delete] still succeeds and the file
    is gone from the local tree, the error is in the log of [delete], and
    the queue is as it was.  The same holds for the MOVE of a [rename] of
    a cached file that succeeds when the queue accepts. *)
Theorem enqueue_errors_are_logged_not_propagated `{Env} (w : World) :
  (∀ name meth newName, fst (RQTree_queueData name meth newName w) = Done tt) ∧
  (∀ name, fst (RQTree_delete name w) = fst (RQTree_delete name (healQueue w))) ∧
  (∀ oldName newName,
     fst (RQTree_rename oldName newName w)
     = fst (RQTree_rename oldName newName (healQueue w))) ∧
  (∀ name, fs_stat (local w) name = Some RegularFile →
           faults w (FsStat Local name) = None →
           faults w (FsUnlink Local name) = None →
           fst (RQTree_delete name w) = Done tt) ∧
  (∀ name meth newName err,
     let options :=
       {| method := meth; path := name;
          destPath := if truthy newName then newName else None;
          remotePrefix := shareRemotePrefix; localPrefix := shareLocalPath |} in
     let w' := snd (RQTree_queueData name meth newName w) in
     allTemp options = false →
     faults w (RqQueueRequest options) = Some err →
     logs w' = logs w ++ [ErrorUnableToQueue options err] ∧ rq w' = rq w) ∧
  (∀ name err,
     fs_stat (local w) name = Some RegularFile →
     isTempFileName name = false →
     faults w (FsStat Local name) = None →
     faults w (FsUnlink Local name) = None →
     faults w (RqQueueRequest (deleteRequest name)) = Some err →
     let out := RQTree_delete name w in
     fst out = Done tt ∧
     fs_stat (local (snd out)) name = None ∧
     queuedBy (trace (snd out)) = queuedBy (trace w) ++ [deleteRequest name] ∧
     ErrorUnableToQueue (deleteRequest name) err ∈ logs (snd out) ∧
     rq (snd out) = rq w) ∧
  (∀ oldName newName err,
     let out := RQTree_rename oldName newName w in
     fs_has (local w) oldName = true →
     fst (RQTree_rename oldName newName (healQueue w)) = Done tt →
     fs_stat (local (snd out)) newName = Some RegularFile →
     allTemp (moveRequest oldName newName) = false →
     faults w (RqQueueRequest (moveRequest oldName newName)) = Some err →
     fst out = Done tt ∧
     queuedBy (trace (snd out)) = queuedBy (trace w) ++ [moveRequest oldName newName] ∧
     ErrorUnableToQueue (moveRequest oldName newName) err ∈ logs (snd out) ∧
     rq (snd out) = rq w).
Proof.
  assert (Hheal : ∀ oldName newName,
     fst (RQTree_rename oldName newName w)
     = fst (RQTree_rename oldName newName (healQueue w))).
  { intros oldName newName.
    unfold RQTree_rename, FSTree_exists, FSTree_rename, FSFile_createInstance,
      invalidateContentCache, DAMTree_rename, RequestQueue_updatePath,
      bind, call, ret.
    break_goal; reflexivity. }
  split; [intros; apply queueData_returns |].
  split; [| split; [exact Hheal | split; [| split; [| split]]]].
  - intros name.
    unfold RQTree_delete, logger, FSTree_exists, FSTree_delete, DAMTree_delete,
      RQFile_deleteWorkFiles, invalidateContentCache, bind, call, ret.
    break_goal; reflexivity.
  - intros name Hk F1 F2.
    unfold RQTree_delete, logger, FSTree_exists, FSTree_delete, DAMTree_delete,
      RQFile_deleteWorkFiles, invalidateContentCache, bind, call, ret, fs_has.
    repeat (hsimpl; rewrite ?F1, ?F2, ?Hk).
    break_goal; reflexivity.
  - intros name meth newName err options w' Ht Hf. subst w'.
    destruct (queueData_cases name meth newName w) as [_ Hc]. fold options in Hc.
    destruct Hc as [[Ht' _] | [(_ & Hf' & _) | (_ & err' & Hf' & ->)]];
      [congruence | congruence |].
    rewrite Hf in Hf'. injection Hf' as <-. split; reflexivity.
  - intros name err Hk Ht F1 F2 F3. cbv zeta.
    unfold RQTree_delete, logger, FSTree_exists, FSTree_delete, DAMTree_delete,
      invalidateContentCache, bind, call, ret, fs_has.
    repeat (hsimpl; rewrite ?F1, ?F2, ?Hk).
    match goal with
    | |- context [RQTree_queueData name "DELETE" None ?wm] =>
      destruct (queueData_cases name "DELETE" None wm) as [Hfst Hc];
      destruct (RQTree_queueData name "DELETE" None wm) as [o wq]
    end.
    cbn [fst snd truthy] in Hfst, Hc. subst o. fold (deleteRequest name) in Hc.
    destruct Hc as [[Ha _] | [(_ & Hf & _) | (_ & err' & Hf & ->)]].
    + unfold allTemp in Ha. cbn in Ha. rewrite Ht in Ha. discriminate.
    + wsimpl in Hf. congruence.
    + wsimpl in Hf. rewrite F3 in Hf. injection Hf as <-.
      unfold RQFile_deleteWorkFiles, call. hsimpl.
      destruct (faults w (RQFileDeleteWorkFiles name)); hsimpl;
        (split; [reflexivity |]); (split; [apply fs_stat_remove_eq |]);
        (split; [count_calls |]); (split; [| reflexivity]);
        rewrite !elem_of_app, !list_elem_of_singleton; tauto.
  - intros oldName newName err. cbv zeta. intros Hhas Hok Hkind Ht Hf.
    rewrite <- Hheal in Hok.
    destruct (RQTree_rename oldName newName w) as [[[] | e | x] w'] eqn:Hrun;
      try discriminate Hok.
    cbn [fst snd] in *. split; [reflexivity |].
    unfold RQTree_rename, FSTree_exists, FSTree_rename, FSFile_createInstance,
      invalidateContentCache, DAMTree_rename, RequestQueue_updatePath,
      bind, call, ret in Hrun.
    break_run Hrun; try congruence.
    all: match type of Hrun with
         | RQTree_queueData _ _ _ ?w1 = _ =>
           destruct (queueData_cases oldName "MOVE" (Some newName) w1) as [_ Hc];
           rewrite Hrun in Hc; cbn [snd] in Hc;
           fold (moveRequest oldName newName) in Hc;
           destruct Hc as [[Ht' _] | [(_ & Hf' & _) | (_ & err' & Hf' & ->)]];
           [ congruence
           | wsimpl in Hf'; congruence
           | wsimpl in Hf'; rewrite Hf in Hf'; injection Hf' as <-;
             (split; [count_calls |]); (split; [| reflexivity]);
             wsimpl; rewrite !elem_of_app, !list_elem_of_singleton; tauto ]
         | (Done _, _) = _ =>
           injection Hrun as <-; wsimpl in Hkind; congruence
         end.
Qed.

(** ** Objects used as tables *)

Lemma proto_inherited : "__proto__" ∈ objectPrototype.
Proof. unfold objectPrototype. rewrite !elem_of_cons. tauto. Qed.

Lemma jsGet_number (o : gmap string nat) (key : string) (n : nat) :
  jsGet o key = JsNumber n ↔ key ≠ "__proto__" ∧ o !! key = Some n.
Proof.
  unfold jsGet. destruct (bool_decide (key = "__proto__")) eqn:Hp.
  - apply bool_decide_eq_true in Hp. split; [discriminate | tauto].
  - apply bool_decide_eq_false in Hp. destruct (o !! key) as [m|].
    + split; [intros [= ->]; auto | intros [_ [= ->]]; reflexivity].
    + destruct (bool_decide (key ∈ objectPrototype));
        (split; [discriminate | intros [_ [=]]]).
Qed.

Lemma jsGet_undefined (o : gmap string nat) (key : string) :
  jsGet o key = JsUndefined ↔ (key ∉ objectPrototype) ∧ o !! key = None.
Proof.
  unfold jsGet. destruct (bool_decide (key = "__proto__")) eqn:Hp.
  - apply bool_decide_eq_true in Hp. subst key.
    split; [discriminate | intros [Hn _]; destruct (Hn proto_inherited)].
  - destruct (o !! key) as [m|]; [split; [discriminate | intros [_ [=]]] |].
    destruct (bool_decide (key ∈ objectPrototype)) eqn:Hi.
    + apply bool_decide_eq_true in Hi. split; [discriminate | tauto].
    + apply bool_decide_eq_false in Hi. tauto.
Qed.

Lemma jsGet_defined (o : gmap string nat) (key : string) :
  isDefined (jsGet o key) = false ↔ jsGet o key = JsUndefined.
Proof. destruct (jsGet o key); cbn; split; congruence. Qed.

Lemma jsGet_empty (key : string) :
  jsGet ∅ key = if bool_decide (key ∈ objectPrototype) then JsInherited else JsUndefined.
Proof.
  unfold jsGet. rewrite lookup_empty.
  destruct (bool_decide (key = "__proto__")) eqn:Hp; [| reflexivity].
  apply bool_decide_eq_true in Hp. subst key.
  now rewrite bool_decide_eq_true_2 by apply proto_inherited.
Qed.

(** ** The remote pass of [list] *)

Section RemotePass.
Context `{Env}.
Variable requests : gmap string string.

Lemma survivors_cons (r : File) (rs : list File) :
  survivors requests (r :: rs) =
  if bool_decide (requests !! getName r ≠ Some "DELETE")
  then r :: survivors requests rs else survivors requests rs.
Proof.
  unfold survivors. rewrite filter_cons.
  destruct (decide _) as [d|d].
  - now rewrite bool_decide_eq_true_2 by exact d.
  - now rewrite bool_decide_eq_false_2 by exact d.
Qed.

Lemma survivors_elem (r : File) (rs : list File) :
  r ∈ survivors requests rs ↔ requests !! getName r ≠ Some "DELETE" ∧ r ∈ rs.
Proof.
  unfold survivors.
  apply (list_elem_of_filter (λ r, requests !! getName r ≠ Some "DELETE")).
Qed.

(** The remote pass on a listing of distinct names: the entries that
    survive, and the own properties of the two tables. *)
Lemma remoteLoop_spec (rs : list File) :
  ∀ (i : nat) (rq0 : list RQFile) (lk0 rl0 : gmap string nat),
  NoDup (getName <$> rs) →
  ∃ lk rl,
    remoteLoop requests rs i (rq0, lk0, rl0)
    = (rq0 ++ (remoteEntry <$> survivors requests rs), lk, rl) ∧
    (∀ r k, survivors requests rs !! k = Some r → getName r ≠ "__proto__" →
            lk !! getName r = Some (length rq0 + k)) ∧
    (∀ nm, nm = "__proto__" ∨ (∀ r, r ∈ survivors requests rs → getName r ≠ nm) →
           lk !! nm = lk0 !! nm) ∧
    (∀ r j, rs !! j = Some r → requests !! getName r ≠ Some "DELETE" →
            getName r ≠ "__proto__" → rl !! getName r = Some (i + j)) ∧
    (∀ nm, nm = "__proto__" ∨ (∀ r, r ∈ survivors requests rs → getName r ≠ nm) →
           rl !! nm = rl0 !! nm).
Proof.
  induction rs as [|r rs IH]; intros i rq0 lk0 rl0 Hnd.
  - exists lk0, rl0. cbn. rewrite app_nil_r.
    split; [reflexivity |]. repeat split; try done.
  - rewrite fmap_cons in Hnd. apply NoDup_cons in Hnd as [Hr Hnd].
    cbn [remoteLoop]. rewrite survivors_cons.
    destruct (bool_decide (requests !! getName r ≠ Some "DELETE")) eqn:Hs.
    + apply bool_decide_eq_true in Hs.
      destruct (IH (S i) (rq0 ++ [RQFile_createInstanceFromRemote (getPath r) r])
                   (jsSet (getName r)
                      (length (rq0 ++ [RQFile_createInstanceFromRemote (getPath r) r]) - 1) lk0)
                   (jsSet (getName r) i rl0) Hnd)
        as (lk & rl & Heq & Hlk & Hlk0 & Hrl & Hrl0).
      exists lk, rl. rewrite Heq.
      assert (Hfresh : ∀ r', r' ∈ survivors requests rs → getName r' ≠ getName r).
      { intros r' Hin Heq'. apply survivors_elem in Hin as [_ Hin].
        apply Hr. rewrite <- Heq'. apply list_elem_of_fmap. eauto. }
      split; [| repeat split].
      * rewrite fmap_cons, <- app_assoc. reflexivity.
      * intros r' [|k] Hk Hp; cbn in Hk.
        -- injection Hk as <-. rewrite (Hlk0 _ (or_intror Hfresh)).
           unfold jsSet. rewrite bool_decide_eq_false_2 by exact Hp.
           rewrite lookup_insert_eq, length_app. cbn. f_equal. lia.
        -- rewrite (Hlk _ _ Hk Hp), length_app. cbn. f_equal. lia.
      * intros nm Hnm. rewrite Hlk0.
        -- unfold jsSet. destruct (bool_decide (getName r = "__proto__")) eqn:Hp;
             [reflexivity |].
           apply bool_decide_eq_false in Hp.
           rewrite lookup_insert_ne; [reflexivity |].
           destruct Hnm as [-> | Hnm]; [exact Hp |].
           apply Hnm. apply list_elem_of_here.
        -- destruct Hnm as [-> | Hnm]; [now left | right].
           intros r' Hin. apply Hnm. now apply list_elem_of_further.
      * intros r' [|j] Hj Hs' Hp; cbn in Hj.
        -- injection Hj as <-. rewrite (Hrl0 _ (or_intror Hfresh)).
           unfold jsSet. rewrite bool_decide_eq_false_2 by exact Hp.
           rewrite lookup_insert_eq. f_equal. lia.
        -- rewrite (Hrl _ _ Hj Hs' Hp). f_equal. lia.
      * intros nm Hnm. rewrite Hrl0.
        -- unfold jsSet. destruct (bool_decide (getName r = "__proto__")) eqn:Hp;
             [reflexivity |].
           apply bool_decide_eq_false in Hp.
           rewrite lookup_insert_ne; [reflexivity |].
           destruct Hnm as [-> | Hnm]; [exact Hp |].
           apply Hnm. apply list_elem_of_here.
        -- destruct Hnm as [-> | Hnm]; [now left | right].
           intros r' Hin. apply Hnm. now apply list_elem_of_further.
    + apply bool_decide_eq_false in Hs.
      destruct (IH (S i) rq0 lk0 rl0 Hnd) as (lk & rl & Heq & Hlk & Hlk0 & Hrl & Hrl0).
      exists lk, rl. split; [exact Heq |]. repeat split; try assumption.
      intros r' [|j] Hj Hs' Hp; cbn in Hj.
      * injection Hj as <-. contradiction.
      * rewrite (Hrl _ _ Hj Hs' Hp). f_equal. lia.
Qed.

End RemotePass.

(** ** The writes of the local pass *)

Section Merges.
Context `{Env}.
Variables (lookup remoteLookup : gmap string nat) (remoteFiles : list File).

Local Abbreviation step := (mergeStep lookup remoteLookup remoteFiles).
Local Abbreviation merges := (applyMerges lookup remoteLookup remoteFiles).

Lemma mergeStep_length (lf : File) (l : list RQFile) : length (step lf l) = length l.
Proof.
  unfold mergeStep. destruct (isTempFileName _); [reflexivity |].
  destruct (jsGet lookup _); cbn [arraySet]; [reflexivity | apply length_insert | reflexivity].
Qed.

Lemma applyMerges_length (ls : list File) :
  ∀ l : list RQFile, length (merges ls l) = length l.
Proof.
  induction ls as [|lf ls IH]; intros l; cbn; [reflexivity |].
  now rewrite IH, mergeStep_length.
Qed.

Lemma mergeStep_app (lf : File) (l k : list RQFile) :
  (∀ nm i, lookup !! nm = Some i → i < length l) →
  step lf (l ++ k) = step lf l ++ k.
Proof.
  intros Hrange. unfold mergeStep. destruct (isTempFileName _); [reflexivity |].
  destruct (jsGet lookup (getName lf)) as [|i|] eqn:Hi; cbn [arraySet]; try reflexivity.
  apply jsGet_number in Hi as [_ Hi]. apply insert_app_l. eauto.
Qed.

Lemma applyMerges_app (ls : list File) :
  ∀ l k : list RQFile,
  (∀ nm i, lookup !! nm = Some i → i < length l) →
  merges ls (l ++ k) = merges ls l ++ k.
Proof.
  induction ls as [|lf ls IH]; intros l k Hrange; cbn; [reflexivity |].
  rewrite mergeStep_app by assumption. apply IH.
  intros nm i Hi. rewrite mergeStep_length. eauto.
Qed.

Lemma applyMerges_snoc (ls : list File) (lf : File) :
  ∀ l : list RQFile, merges (ls ++ [lf]) l = step lf (merges ls l).
Proof. induction ls as [|x ls IH]; intros l; cbn; [reflexivity | apply IH]. Qed.

(** An entry of the merged array: one that was there, or one written for
    a local file that is not temporary and for whose name [lookup] holds a
    number. *)
Lemma applyMerges_elem (ls : list File) :
  ∀ (l : list RQFile) (x : RQFile),
  x ∈ merges ls l →
  x ∈ l ∨ ∃ lf, lf ∈ ls ∧ isTempFileName (getName lf) = false ∧
               (∃ i, jsGet lookup (getName lf) = JsNumber i) ∧
               x = {| rqName := getPath lf; localFile := Some lf;
                      remoteFile := arrayGet remoteFiles (jsGet remoteLookup (getName lf)) |}.
Proof.
  induction ls as [|lf ls IH]; intros l x Hx; cbn in Hx; [now left |].
  apply IH in Hx as [Hx | (lf' & Hin & Ht & Hl & ->)].
  - unfold mergeStep in Hx. destruct (isTempFileName (getName lf)) eqn:Ht; [now left |].
    destruct (jsGet lookup (getName lf)) as [|i|] eqn:Hi; cbn [arraySet] in Hx;
      [now left | | now left].
    apply list_elem_of_lookup in Hx as [j Hj].
    rewrite list_lookup_insert in Hj. destruct (decide _) as [[-> Hlt] | _].
    + injection Hj as <-. right. exists lf. repeat split; eauto using list_elem_of_here.
    + left. apply list_elem_of_lookup. eauto.
  - right. exists lf'. repeat split; eauto using list_elem_of_further.
Qed.

End Merges.

(** With the tables of the remote pass, the merged array is the surviving
    remote entries, each replaced in place by its merged form when a local
    file that is not temporary bears its name (and the name is not
    [__proto__], which the tables cannot hold). *)
Lemma applyMerges_survivors `{Env} (requests : gmap string string)
    (remoteFiles localFiles : list File) (rq0 : list RQFile) (lk rl : gmap string nat) :
  NoDup (getName <$> remoteFiles) →
  remoteLoop requests remoteFiles 0 ([], ∅, ∅) = (rq0, lk, rl) →
  rq0 = (remoteEntry <$> survivors requests remoteFiles) ∧
  applyMerges lk rl remoteFiles localFiles rq0
  = (mergedOrRemote localFiles <$> survivors requests remoteFiles) ∧
  (∀ nm i, lk !! nm = Some i → i < length rq0) ∧
  (∀ nm, lk !! nm = None ↔
         nm = "__proto__" ∨ ∀ r, r ∈ survivors requests remoteFiles → getName r ≠ nm).
Proof.
  intros Hnd Hloop.
  destruct (remoteLoop_spec requests remoteFiles 0 [] ∅ ∅ Hnd)
    as (lk' & rl' & Heq & Hlk & Hlk0 & Hrl & Hrl0).
  rewrite Hloop in Heq. injection Heq as -> <- <-. cbn [app].
  set (S := survivors requests remoteFiles) in *.
  assert (HndS : NoDup (getName <$> S)).
  { eapply sublist_NoDup; [exact Hnd |]. apply fmap_sublist. unfold S, survivors. apply sublist_filter. }
  assert (Hfind : ∀ nm i, lk !! nm = Some i →
                          ∃ r, S !! i = Some r ∧ getName r = nm ∧ nm ≠ "__proto__").
  { intros nm i Hi.
    destruct (decide (nm = "__proto__")) as [-> | Hp].
    { rewrite Hlk0, lookup_empty in Hi by now left. discriminate. }
    destruct (decide (nm ∈ getName <$> S)) as [Hyes | Hno].
    - apply list_elem_of_fmap in Hyes as (r & -> & Hin).
      apply list_elem_of_lookup in Hin as [k Hk].
      rewrite (Hlk _ _ Hk Hp) in Hi. cbn in Hi. injection Hi as <-. eauto.
    - rewrite Hlk0, lookup_empty in Hi; [discriminate |].
      right. intros r Hin Heq. apply Hno. apply list_elem_of_fmap. eauto. }
  split; [reflexivity |]. split; [| split].
  - induction localFiles as [|lf ls IH] using rev_ind.
    + cbn. apply list_fmap_ext. intros _ r _.
      unfold mergedOrRemote, lastMatch. reflexivity.
    + rewrite applyMerges_snoc, IH. clear IH.
      assert (Hmor : ∀ r, mergedOrRemote (ls ++ [lf]) r =
                          if matching r lf then syncedEntry lf r else mergedOrRemote ls r).
      { intros r. unfold mergedOrRemote, lastMatch. rewrite rev_unit. cbn [find].
        destruct (matching r lf); reflexivity. }
      assert (Hno : ∀ k r, S !! k = Some r →
                (∀ i, jsGet lk (getName lf) ≠ JsNumber i) → matching r lf = false).
      { intros k r Hk Hnum. unfold matching.
        destruct (bool_decide (getName lf = getName r)) eqn:He;
          [| now rewrite andb_false_r].
        destruct (bool_decide (getName lf = "__proto__")) eqn:Hp;
          [now rewrite andb_false_r |].
        apply bool_decide_eq_true in He. apply bool_decide_eq_false in Hp.
        exfalso. apply (Hnum (0 + k)). apply jsGet_number. split; [exact Hp |].
        rewrite He. apply Hlk; [exact Hk | congruence]. }
      unfold mergeStep.
      destruct (isTempFileName (getName lf)) eqn:Ht.
      { apply list_fmap_ext. intros _ r _. rewrite Hmor. unfold matching.
        now rewrite Ht. }
      destruct (jsGet lk (getName lf)) as [|i|] eqn:Hi; cbn [arraySet].
      * apply list_fmap_ext. intros k r Hk. rewrite Hmor.
        rewrite (Hno k r Hk); [reflexivity | discriminate].
      * apply jsGet_number in Hi as [Hp Hi].
        destruct (Hfind _ _ Hi) as (r & Hr & Hname & _).
        assert (Hrl' : arrayGet remoteFiles (jsGet rl (getName lf)) = Some r).
        { assert (Hin : r ∈ S) by (apply list_elem_of_lookup; eauto).
          apply survivors_elem in Hin as [Hs Hin].
          apply list_elem_of_lookup in Hin as [j Hj].
          assert (Hg : jsGet rl (getName lf) = JsNumber (0 + j)).
          { apply jsGet_number. split; [exact Hp |].
            rewrite <- Hname. apply Hrl; [exact Hj | exact Hs | congruence]. }
          rewrite Hg. exact Hj. }
        rewrite Hrl'. apply list_eq. intros k.
        rewrite list_lookup_insert, !list_lookup_fmap, length_fmap.
        destruct (decide (i = k ∧ i < length S)) as [[<- Hlt] | Hne].
        -- rewrite Hr. cbn. rewrite Hmor. unfold matching.
           rewrite Ht, Hname, bool_decide_eq_true_2 by reflexivity.
           rewrite bool_decide_eq_false_2 by exact Hp. reflexivity.
        -- destruct (S !! k) as [r0|] eqn:Hk; [| reflexivity]. cbn.
           rewrite Hmor. unfold matching. rewrite Ht. cbn [negb andb].
           rewrite bool_decide_eq_false_2; [reflexivity |].
           intros Heq. apply Hne. split.
           ++ assert (Hk' : lk !! getName r0 = Some (0 + k))
                by (apply Hlk; [exact Hk | congruence]).
              rewrite <- Heq, Hi in Hk'. now injection Hk'.
           ++ apply lookup_lt_Some in Hr. exact Hr.
      * apply list_fmap_ext. intros k r Hk. rewrite Hmor.
        rewrite (Hno k r Hk); [reflexivity | discriminate].
  - intros nm i Hi. destruct (Hfind _ _ Hi) as (r & Hr & _).
    rewrite length_fmap. apply lookup_lt_Some in Hr. exact Hr.
  - intros nm. split.
    + intros Hnone. destruct (decide (nm = "__proto__")) as [-> | Hp]; [now left | right].
      intros r Hin <-. apply list_elem_of_lookup in Hin as [k Hk].
      rewrite (Hlk _ _ Hk Hp) in Hnone. discriminate.
    + intros Hno. rewrite Hlk0 by exact Hno. apply lookup_empty.
Qed.

(** ** What a read leaves as it was *)

Lemma quiet_refl (w : World) : quiet w w.
Proof. repeat split; reflexivity. Qed.

Lemma quiet_trans (w1 w2 w3 : World) : quiet w1 w2 → quiet w2 w3 → quiet w1 w3.
Proof.
  unfold quiet. intros (?&?&?&?&?&?&?&?) (?&?&?&?&?&?&?&?).
  repeat split; try congruence; etrans; eauto.
Qed.

Lemma quiet_record (c : Call) (w : World) : notQueueRequest c → quiet w (record c w).
Proof.
  intros Hc. unfold quiet. wsimpl. repeat split; try reflexivity.
  rewrite queuedBy_app. destruct c; cbn in *; try contradiction; apply app_nil_r.
Qed.

Lemma Quiet_ret {A} (a : A) : Quiet (ret a).
Proof. intros w. apply quiet_refl. Qed.

Lemma Quiet_bind {A B} (m : M A) (k : A → M B) :
  Quiet m → (∀ a, Quiet (k a)) → Quiet (bind m k).
Proof.
  intros Hm Hk w. unfold bind. specialize (Hm w).
  destruct (m w) as [[a | e | x] w1]; cbn [snd] in *; try exact Hm.
  eapply quiet_trans; [exact Hm | apply Hk].
Qed.

Lemma Quiet_call {A} (c : Call) (body : M A) :
  notQueueRequest c → Quiet body → Quiet (call c body).
Proof.
  intros Hc Hb w. unfold call. destruct (faults w c).
  - cbn [snd]. apply quiet_record, Hc.
  - eapply quiet_trans; [apply quiet_record, Hc | apply Hb].
Qed.

Lemma Quiet_same {A} (m : M A) : (∀ w, snd (m w) = w) → Quiet m.
Proof. intros Hm w. rewrite Hm. apply quiet_refl. Qed.

Lemma quiet_addLog (l : LogLine) (w : World) : quiet w (addLog l w).
Proof. repeat split; reflexivity. Qed.

Lemma sublist_fs_remove `{Env} (fs : list DirEntry) (p : string) :
  sublist (fs_remove fs p) fs.
Proof. apply sublist_filter. Qed.

Section QuietList.
Context `{Env}.

Lemma Quiet_mapM {A B} (f : A → M B) (l : list A) :
  (∀ a, Quiet (f a)) → Quiet (mapM f l).
Proof.
  intros Hf. induction l as [|a l IH]; cbn [mapM]; [apply Quiet_ret |].
  apply Quiet_bind; [apply Hf |]. intros b.
  apply Quiet_bind; [exact IH |]. intros bs. apply Quiet_ret.
Qed.

Lemma Quiet_FSFile_createInstance (t : Tree) (name : string) :
  Quiet (FSFile_createInstance t name).
Proof.
  apply Quiet_call; [exact I |]. apply Quiet_same. intros w. now destruct (fs_stat _ _).
Qed.

Lemma Quiet_FSTree_exists (t : Tree) (name : string) : Quiet (FSTree_exists t name).
Proof. apply Quiet_call; [exact I |]. now apply Quiet_same. Qed.

Lemma Quiet_FSTree_list (t : Tree) (pattern : string) : Quiet (FSTree_list t pattern).
Proof.
  unfold FSTree_list. apply Quiet_bind.
  - apply Quiet_call; [exact I |]. apply Quiet_same. intros w.
    now destruct (fs_stat _ _) as [[|]|].
  - intros files. apply Quiet_mapM. intros name. apply Quiet_FSFile_createInstance.
Qed.

Lemma Quiet_DAMTree_list (pattern : string) : Quiet (DAMTree_list pattern).
Proof. apply Quiet_call; [exact I |]. now apply Quiet_same. Qed.

Lemma Quiet_FSFile_delete (f : File) : Quiet (FSFile_delete f).
Proof.
  apply Quiet_call; [exact I |]. intros w. destruct (fs_stat _ _); cbn [snd].
  - unfold quiet. wsimpl. repeat split; try reflexivity. apply sublist_fs_remove.
  - apply quiet_refl.
Qed.

Lemma Quiet_deleteWorkFiles (name : string) : Quiet (RQFile_deleteWorkFiles name).
Proof.
  apply Quiet_call; [exact I |]. intros w. cbn [snd]. unfold quiet. wsimpl.
  repeat split; try reflexivity. etrans; apply sublist_fs_remove.
Qed.

Lemma Quiet_logger (l : LogLine) : Quiet (logger l).
Proof. intros w. apply quiet_addLog. Qed.

Lemma Quiet_processLocal (lookup remoteLookup : gmap string nat)
    (remoteFiles localFiles : list File) :
  ∀ rqFiles, Quiet (processLocal lookup remoteLookup remoteFiles localFiles rqFiles).
Proof.
  induction localFiles as [|lf ls IH]; intros rqFiles; cbn [processLocal];
    [apply Quiet_ret |].
  destruct (isTempFileName (getName lf)).
  { apply Quiet_bind; [| intros; apply IH].
    apply Quiet_call; [exact I | apply Quiet_ret]. }
  destruct (isDefined (jsGet lookup (getName lf))).
  { apply Quiet_bind; [| intros; apply IH].
    apply Quiet_call; [exact I | apply Quiet_ret]. }
  apply Quiet_bind; [apply Quiet_call; [exact I | apply Quiet_ret] |]. intros rqFile.
  apply Quiet_bind; [apply Quiet_FSTree_exists |]. intros [|]; [apply IH |].
  apply Quiet_bind; [apply Quiet_call; [exact I | now apply Quiet_same] |].
  intros [|].
  - apply Quiet_bind; [apply Quiet_FSFile_delete |]. intros _.
    apply Quiet_bind; [apply Quiet_deleteWorkFiles |]. intros _.
    apply Quiet_bind; [apply Quiet_logger |]. intros _. apply IH.
  - apply Quiet_bind; [apply Quiet_logger |]. intros _. apply IH.
Qed.

Lemma Quiet_RQTree_list (pattern : string) : Quiet (RQTree_list pattern).
Proof.
  unfold RQTree_list. apply Quiet_bind; [apply Quiet_DAMTree_list |]. intros remoteFiles.
  apply Quiet_bind; [apply Quiet_FSTree_exists |]. intros [|]; [| apply Quiet_ret].
  apply Quiet_bind; [apply Quiet_FSTree_list |]. intros localFiles w.
  unfold RequestQueue_getRequests.
  assert (Hm : ∀ requests, Quiet (bind (mergeListing requests remoteFiles localFiles)
                                        (λ l, ret (RQFiles l)))).
  { intros requests. apply Quiet_bind; [| intros; apply Quiet_ret].
    unfold mergeListing. destruct requests as [q|].
    - destruct (remoteLoop q remoteFiles 0 ([], ∅, ∅)) as [[rq0 lk] rl].
      apply Quiet_processLocal.
    - destruct remoteFiles; [apply Quiet_processLocal |]. intros w0. apply quiet_refl. }
  destruct (faults w _);
    (eapply quiet_trans; [apply (quiet_record (RqGetRequests (parentOrEmpty pattern))); exact I
                         | apply Hm]).
Qed.

End QuietList.

Lemma fs_stat_sublist_None `{Env} (fs fs' : list DirEntry) (p : string) :
  sublist fs' fs → fs_stat fs p = None → fs_stat fs' p = None.
Proof.
  intros Hsub. unfold fs_stat, fs_find. intros Hnone.
  destruct (find _ fs') as [e|] eqn:Hf; [| reflexivity]. exfalso.
  apply find_some in Hf as [Hin Hp]. apply list_elem_of_In in Hin.
  assert (Hin' : e ∈ fs) by (eapply elem_of_sublist; eauto).
  destruct (find _ fs) as [e'|] eqn:Hf'; [discriminate |].
  apply list_elem_of_In in Hin'. pose proof (find_none _ _ Hf' _ Hin') as Hno.
  cbv beta in Hno, Hp. congruence.
Qed.

Lemma fs_has_sublist_false `{Env} (fs fs' : list DirEntry) (p : string) :
  sublist fs' fs → fs_has fs p = false → fs_has fs' p = false.
Proof.
  intros Hsub. unfold fs_has. intros Hno.
  destruct (fs_stat fs p) eqn:Hs; [discriminate |].
  now rewrite (fs_stat_sublist_None _ _ _ Hsub Hs).
Qed.

Lemma clientCreated_quiet `{Env} (w w1 : World) (lf : File) :
  quiet w w1 → clientCreated w1 lf → clientCreated w lf.
Proof.
  intros Hq. unfold clientCreated. intros Hc.
  destruct (fs_has (work w) _) eqn:Hw; [reflexivity |].
  rewrite (fs_has_sublist_false _ _ _ (proj1 (proj2 (proj2 (proj2 (proj2 (proj2 (proj2 Hq))))))) Hw)
    in Hc.
  discriminate.
Qed.

Lemma heldBack_quiet (w w1 : World) (lf : File) :
  quiet w w1 → heldBack w1 lf ↔ heldBack w lf.
Proof.
  intros (Hrq & _ & _ & Hopen & _). unfold heldBack. now rewrite Hrq, Hopen.
Qed.

(** ** The local pass of [list] *)

Ltac break_local Hrun :=
  repeat (wsimpl in Hrun; cbn [isDirectory handle rqName] in Hrun;
    match type of Hrun with
    | context [match faults ?w ?c with _ => _ end] =>
      let E := fresh "Hfault" in destruct (faults w c) eqn:E; try discriminate Hrun
    | context [match fs_stat ?fs ?p with _ => _ end] =>
      let E := fresh "Hstat" in destruct (fs_stat fs p) eqn:E; try discriminate Hrun
    | context [if fs_has ?fs ?p then _ else _] =>
      let E := fresh "Hhas" in destruct (fs_has fs p) eqn:E; try discriminate Hrun
    | context [if ?b then _ else _] =>
      let E := fresh "Hif" in destruct b eqn:E; try discriminate Hrun
    end).

Ltac break_local_goal :=
  repeat (wsimpl; cbn [isDirectory handle rqName];
    match goal with
    | |- context [match faults ?w ?c with _ => _ end] =>
      let E := fresh "Hfault" in destruct (faults w c) eqn:E
    | |- context [match fs_stat ?fs ?p with _ => _ end] =>
      let E := fresh "Hstat" in destruct (fs_stat fs p) eqn:E
    | |- context [if ?b then _ else _] =>
      let E := fresh "Hif" in destruct b eqn:E
    end).

Ltac unfold_local :=
  unfold RQFile_createInstanceFromLocal, RQFile_createInstanceFromLocalAndRemote,
    FSTree_exists, RQFile_canDelete, FSFile_delete, RQFile_deleteWorkFiles,
    logger, bind, call, ret.
Tactic Notation "unfold_local" "in" hyp(Hrun) :=
  unfold RQFile_createInstanceFromLocal, RQFile_createInstanceFromLocalAndRemote,
    FSTree_exists, RQFile_canDelete, FSFile_delete, RQFile_deleteWorkFiles,
    logger, bind, call, ret in Hrun.

(** A world that a step of the local pass has reached. *)
Ltac solve_quiet :=
  unfold quiet; wsimpl; repeat split; try reflexivity;
  rewrite ?queuedBy_app; cbn [queuedBy omap list_omap]; rewrite ?app_nil_r;
  try reflexivity; try apply sublist_fs_remove;
  try (etrans; apply sublist_fs_remove).

Section LocalPass.
Context `{Env}.
Variables (lookup remoteLookup : gmap string nat) (remoteFiles : list File).

(** The local pass only adds to the trace. *)
Lemma processLocal_trace (ls : list File) :
  ∀ (rq0 : list RQFile) (w : World) (c : Call),
  c ∈ trace w →
  c ∈ trace (snd (processLocal lookup remoteLookup remoteFiles ls rq0 w)).
Proof.
  induction ls as [|lf ls IH]; intros rq0 w c Hc; [exact Hc |].
  cbn [processLocal]. unfold_local.
  break_local_goal;
    first [ apply IH | idtac ];
    wsimpl; rewrite ?elem_of_app; tauto.
Qed.

(** What the local pass hands on: the array of the remote pass with the
    merges written into it, followed by entries for local files, in local
    order.  A file that follows is temporary, or has a name for which
    [lookup] holds nothing and is client-created or held back.  A file that
    does not follow is not temporary, and [lookup] holds something for
    its name, or the pass has deleted it: it had no marker and was not
    held back. *)
Lemma processLocal_shape (ls : list File) :
  ∀ (rq0 : list RQFile) (w w' : World) (out : list RQFile),
  (∀ nm i, lookup !! nm = Some i → i < length rq0) →
  processLocal lookup remoteLookup remoteFiles ls rq0 w = (Done out, w') →
  ∃ kept,
    out = applyMerges lookup remoteLookup remoteFiles ls rq0 ++ (localEntry <$> kept) ∧
    sublist kept ls ∧
    Forall (λ lf, isTempFileName (getName lf) = true ∨
                  (jsGet lookup (getName lf) = JsUndefined ∧
                   (clientCreated w lf ∨ heldBack w lf))) kept ∧
    (∀ lf, lf ∈ ls →
       lf ∈ kept ∨
       (isTempFileName (getName lf) = false ∧
        (isDefined (jsGet lookup (getName lf)) = true ∨
         (FSFileDelete (getPath lf) ∈ trace w' ∧
          fs_stat (local w') (getPath lf) = None ∧
          ¬ clientCreated w' lf ∧ ¬ heldBack w lf)))).
Proof.
  induction ls as [|lf ls IH]; intros rq0 w w' out Hrange Hrun.
  - cbn in Hrun. injection Hrun as <- <-. exists []. cbn. rewrite app_nil_r.
    repeat split; [constructor | constructor |]. intros lf Hin. inversion Hin.
  - cbn [processLocal] in Hrun.
    assert (Hkeep : ∀ w1,
      quiet w w1 →
      processLocal lookup remoteLookup remoteFiles ls (rq0 ++ [localEntry lf]) w1
        = (Done out, w') →
      (isTempFileName (getName lf) = true ∨
       (jsGet lookup (getName lf) = JsUndefined ∧ (clientCreated w lf ∨ heldBack w lf))) →
      ∃ kept,
        out = applyMerges lookup remoteLookup remoteFiles (lf :: ls) rq0
              ++ (localEntry <$> kept) ∧
        sublist kept (lf :: ls) ∧
        Forall (λ lf, isTempFileName (getName lf) = true ∨
                      (jsGet lookup (getName lf) = JsUndefined ∧
                       (clientCreated w lf ∨ heldBack w lf))) kept ∧
        (∀ lf0, lf0 ∈ lf :: ls →
           lf0 ∈ kept ∨
           (isTempFileName (getName lf0) = false ∧
            (isDefined (jsGet lookup (getName lf0)) = true ∨
             (FSFileDelete (getPath lf0) ∈ trace w' ∧
              fs_stat (local w') (getPath lf0) = None ∧
              ¬ clientCreated w' lf0 ∧ ¬ heldBack w lf0))))).
    { intros w1 Hq Hrest Hwhy.
      apply IH in Hrest as (kept & -> & Hsub & Hall & Hcls).
      2:{ intros nm i Hi. rewrite length_app. apply Hrange in Hi. lia. }
      exists (lf :: kept). split; [| split; [| split]].
      - rewrite applyMerges_app by exact Hrange. rewrite <- app_assoc. cbn.
        f_equal. unfold mergeStep.
        destruct Hwhy as [-> | [Hl _]]; [reflexivity |].
        rewrite Hl. now destruct (isTempFileName _).
      - now apply sublist_skip.
      - constructor; [exact Hwhy |].
        eapply Forall_impl; [exact Hall |]. intros lf0 [Ht0 | [Hu Hc]]; [now left | right].
        split; [exact Hu |]. destruct Hc as [Hc | Hc]; [left | right].
        + eapply clientCreated_quiet; eauto.
        + now apply (heldBack_quiet w w1).
      - intros lf0 Hin. apply elem_of_cons in Hin as [-> | Hin].
        + left. apply list_elem_of_here.
        + destruct (Hcls _ Hin) as [Hk | (Ht0 & Hr)];
            [left; now apply list_elem_of_further | right].
          split; [exact Ht0 |]. destruct Hr as [Hd | (Hd1 & Hd2 & Hd3 & Hd4)]; [now left | right].
          repeat split; try assumption.
          intros Hb. apply Hd4. now apply (heldBack_quiet w w1). }
    assert (Hdrop : ∀ w1 rq1,
      quiet w w1 →
      processLocal lookup remoteLookup remoteFiles ls rq1 w1 = (Done out, w') →
      rq1 = mergeStep lookup remoteLookup remoteFiles lf rq0 →
      isTempFileName (getName lf) = false →
      (isDefined (jsGet lookup (getName lf)) = true ∨
       (FSFileDelete (getPath lf) ∈ trace w1 ∧
        fs_stat (local w1) (getPath lf) = None ∧
        ¬ clientCreated w1 lf ∧ ¬ heldBack w lf)) →
      ∃ kept,
        out = applyMerges lookup remoteLookup remoteFiles (lf :: ls) rq0
              ++ (localEntry <$> kept) ∧
        sublist kept (lf :: ls) ∧
        Forall (λ lf, isTempFileName (getName lf) = true ∨
                      (jsGet lookup (getName lf) = JsUndefined ∧
                       (clientCreated w lf ∨ heldBack w lf))) kept ∧
        (∀ lf0, lf0 ∈ lf :: ls →
           lf0 ∈ kept ∨
           (isTempFileName (getName lf0) = false ∧
            (isDefined (jsGet lookup (getName lf0)) = true ∨
             (FSFileDelete (getPath lf0) ∈ trace w' ∧
              fs_stat (local w') (getPath lf0) = None ∧
              ¬ clientCreated w' lf0 ∧ ¬ heldBack w lf0))))).
    { intros w1 rq1 Hq Hrest -> Ht Hwhy.
      pose proof Hrest as Hrest'.
      pose proof (Quiet_processLocal lookup remoteLookup remoteFiles ls
                    (mergeStep lookup remoteLookup remoteFiles lf rq0) w1) as Hq'.
      rewrite Hrest in Hq'. cbn [snd] in Hq'.
      apply IH in Hrest as (kept & -> & Hsub & Hall & Hcls).
      2:{ intros nm i Hi. rewrite mergeStep_length. eauto. }
      exists kept. split; [reflexivity |]. split; [| split].
      - now apply sublist_cons.
      - eapply Forall_impl; [exact Hall |]. intros lf0 [Ht0 | [Hu Hc]]; [now left | right].
        split; [exact Hu |]. destruct Hc as [Hc | Hc]; [left | right].
        + eapply clientCreated_quiet; eauto.
        + now apply (heldBack_quiet w w1).
      - intros lf0 Hin. apply elem_of_cons in Hin as [-> | Hin].
        + right. split; [exact Ht |].
          destruct Hwhy as [Hs | (Hd1 & Hd2 & Hd3 & Hd4)]; [now left | right].
          split; [| split; [| split]].
          * pose proof (processLocal_trace ls
                          (mergeStep lookup remoteLookup remoteFiles lf rq0) w1 _ Hd1) as Hd'.
            now rewrite Hrest' in Hd'.
          * eapply fs_stat_sublist_None; [| exact Hd2]. apply Hq'.
          * intros Hc. apply Hd3. eapply clientCreated_quiet; eauto.
          * exact Hd4.
        + destruct (Hcls _ Hin) as [Hk | (Ht0 & Hr)]; [now left | right].
          split; [exact Ht0 |]. destruct Hr as [Hd | (Hd1 & Hd2 & Hd3 & Hd4)]; [now left | right].
          repeat split; try assumption.
          intros Hb. apply Hd4. now apply (heldBack_quiet w w1). }
    destruct (isTempFileName (getName lf)) eqn:Ht.
    + unfold_local in Hrun. break_local Hrun.
      eapply Hkeep; [| | now left].
      2:{ unfold localEntry. rewrite Ht. exact Hrun. }
      solve_quiet.
    + destruct (isDefined (jsGet lookup (getName lf))) eqn:Hd.
      * unfold_local in Hrun. break_local Hrun.
        eapply Hdrop; [| exact Hrun | | reflexivity | now left].
        -- solve_quiet.
        -- unfold mergeStep. now rewrite Ht.
      * apply jsGet_defined in Hd. unfold_local in Hrun. break_local Hrun.
        -- eapply Hkeep; [| | right; split; [exact Hd | left; exact Hhas]].
           2:{ unfold localEntry. rewrite Ht. exact Hrun. }
           solve_quiet.
        -- eapply Hdrop; [| exact Hrun | | reflexivity |].
           ++ solve_quiet.
           ++ unfold mergeStep. now rewrite Ht, Hd.
           ++ right.
              apply andb_true_iff in Hif as [Hif _]. apply andb_true_iff in Hif as [Ho Hr].
              apply bool_decide_eq_true in Ho. apply negb_true_iff in Hr.
              split; [| split; [| split]].
              ** wsimpl. rewrite !elem_of_app. left. right. apply list_elem_of_here.
              ** wsimpl. apply fs_stat_remove_eq.
              ** unfold clientCreated. wsimpl.
                 rewrite (fs_has_sublist_false (work w)); [discriminate | | exact Hhas].
                 etrans; apply sublist_fs_remove.
              ** unfold heldBack. intros [Hb | Hb]; [contradiction | congruence].
        -- eapply Hkeep; [| | right; split; [exact Hd | right]].
           2:{ unfold localEntry. rewrite Ht. exact Hrun. }
           ++ solve_quiet.
           ++ unfold heldBack. rewrite Hhas in Hif. cbn [negb] in Hif.
              rewrite andb_true_r in Hif. apply andb_false_iff in Hif as [Ho | Hr].
              ** left. apply bool_decide_eq_false in Ho. now apply dec_stable.
              ** right. now apply negb_false_iff in Hr.
Qed.

End LocalPass.

(** ** The merged listing *)

Lemma NoDup_fmap_inj {A B} (f : A → B) (l : list A) (x y : A) :
  NoDup (f <$> l) → x ∈ l → y ∈ l → f x = f y → x = y.
Proof.
  intros Hnd Hx Hy Heq.
  apply list_elem_of_lookup in Hx as [i Hi]. apply list_elem_of_lookup in Hy as [j Hj].
  assert (i = j) as ->.
  { apply (NoDup_lookup _ i j (f x) Hnd).
    - now rewrite list_lookup_fmap, Hi.
    - rewrite list_lookup_fmap, Hj. cbn. now rewrite Heq. }
  congruence.
Qed.

(** What the tables of the remote pass hold for a name. *)
Lemma remoteLoop_undefined `{Env} (requests : gmap string string)
    (remoteFiles : list File) (rq0 : list RQFile) (lk rl : gmap string nat) (lf : File) :
  NoDup (getName <$> remoteFiles) →
  remoteLoop requests remoteFiles 0 ([], ∅, ∅) = (rq0, lk, rl) →
  jsGet lk (getName lf) = JsUndefined ↔ unlisted (survivors requests remoteFiles) lf.
Proof.
  intros Hnd Hloop.
  destruct (applyMerges_survivors requests remoteFiles [] rq0 lk rl Hnd Hloop)
    as (_ & _ & _ & Hnone).
  rewrite jsGet_undefined, Hnone. unfold unlisted. split.
  - intros [Hop [Hp | Hno]]; [rewrite Hp in Hop; destruct (Hop proto_inherited) | now split].
  - intros [Hop Hno]. split; [exact Hop | now right].
Qed.

(** The merged listing: the surviving remote entries, merged in place,
    and then local files in local order. *)
Lemma mergeListing_shape `{Env} (requests : gmap string string)
    (remoteFiles localFiles : list File) (w w' : World) (out : list RQFile) :
  NoDup (getName <$> remoteFiles) →
  mergeListing (Some requests) remoteFiles localFiles w = (Done out, w') →
  ∃ kept,
    out = (mergedOrRemote localFiles <$> survivors requests remoteFiles)
          ++ (localEntry <$> kept) ∧
    sublist kept localFiles ∧
    Forall (λ lf, isTempFileName (getName lf) = true ∨
                  (unlisted (survivors requests remoteFiles) lf ∧
                   (clientCreated w lf ∨ heldBack w lf))) kept ∧
    (∀ lf, lf ∈ localFiles →
       lf ∈ kept ∨
       (isTempFileName (getName lf) = false ∧
        (¬ unlisted (survivors requests remoteFiles) lf ∨
         (FSFileDelete (getPath lf) ∈ trace w' ∧
          fs_stat (local w') (getPath lf) = None ∧
          ¬ clientCreated w' lf ∧ ¬ heldBack w lf)))).
Proof.
  intros Hnd Hrun. unfold mergeListing in Hrun.
  destruct (remoteLoop requests remoteFiles 0 ([], ∅, ∅)) as [[rq0 lk] rl] eqn:Hloop.
  destruct (applyMerges_survivors requests remoteFiles localFiles rq0 lk rl Hnd Hloop)
    as (Hrq0 & Hmerged & Hrange & _).
  pose proof (λ lf, remoteLoop_undefined requests remoteFiles rq0 lk rl lf Hnd Hloop) as Hun.
  apply processLocal_shape in Hrun as (kept & -> & Hsub & Hall & Hcls); [| exact Hrange].
  exists kept. rewrite Hmerged. split; [reflexivity |]. split; [exact Hsub |]. split.
  - eapply Forall_impl; [exact Hall |]. intros lf [Ht | [Hl Hc]]; [now left | right].
    split; [now apply Hun | exact Hc].
  - intros lf Hin. destruct (Hcls lf Hin) as [Hk | (Ht & [Hs | Hd])]; [now left | |].
    + right. split; [exact Ht | left]. intros Hu. apply Hun in Hu.
      rewrite Hu in Hs. discriminate.
    + right. split; [exact Ht | now right].
Qed.

(** ** Names in the merge *)

(** C1, as amended.  The merge matches a local and a remote entry when
    their names are the same string: then (the names within each listing
    being distinct, the local file not temporary, the remote entry not
    hidden by a pending DELETE, and the name not [__proto__], which a table
    keyed by names cannot hold) the two are merged into one entry under
    the local path, and no other entry of the listing is backed by either
    handle.  Normalised (NFKD) equality is what the file-system tree uses
    to select the directory entries that match a pattern other than [*]. *)
Theorem merge_matches_equal_names `{Env} (requests : gmap string string)
    (remoteFiles localFiles : list File) (w w' : World) (out : list RQFile)
    (lf r : File) :
  NoDup (getName <$> remoteFiles) →
  NoDup (getName <$> localFiles) →
  mergeListing (Some requests) remoteFiles localFiles w = (Done out, w') →
  lf ∈ localFiles → r ∈ remoteFiles →
  getName lf = getName r →
  getName lf ≠ "__proto__" →
  isTempFileName (getName lf) = false →
  requests !! getName r ≠ Some "DELETE" →
  (∃ i, out !! i = Some (syncedEntry lf r) ∧
        ∀ j f, out !! j = Some f →
               localFile f = Some lf ∨ remoteFile f = Some r → j = i) ∧
  (∀ pattern files name,
     pattern ≠ "*" →
     (name ∈ matchingNames pattern files ↔ name ∈ files ∧ nfkd name = nfkd pattern)).
Proof.
  intros Hndr Hndl Hrun Hlf Hr Hname Hproto Ht Hs. split.
  - destruct (mergeListing_shape _ _ _ _ _ _ Hndr Hrun) as (kept & -> & Hsub & Hall & _).
    set (S := survivors requests remoteFiles) in *.
    assert (HrS : r ∈ S) by (apply survivors_elem; split; assumption).
    assert (HndS : NoDup (getName <$> S)).
    { eapply sublist_NoDup; [exact Hndr |]. apply fmap_sublist.
      unfold S, survivors. apply sublist_filter. }
    assert (Hlast : ∀ r0 lf0, r0 ∈ S → lastMatch localFiles r0 = Some lf0 →
                              lf0 ∈ localFiles ∧ getName lf0 = getName r0).
    { intros r0 lf0 _ Hfind. unfold lastMatch in Hfind.
      apply find_some in Hfind as [Hin Hm]. unfold matching in Hm.
      apply andb_true_iff in Hm as [Hm _].
      apply andb_true_iff in Hm as [_ Hm]. apply bool_decide_eq_true in Hm.
      split; [| exact Hm]. apply list_elem_of_In. apply in_rev. exact Hin. }
    assert (Hmor : mergedOrRemote localFiles r = syncedEntry lf r).
    { unfold mergedOrRemote. destruct (lastMatch localFiles r) as [lf0|] eqn:Hfind.
      - destruct (Hlast _ _ HrS Hfind) as [Hin Heq].
        f_equal. apply (NoDup_fmap_inj getName localFiles); congruence.
      - unfold lastMatch in Hfind.
        assert (Hin : In lf (rev localFiles)).
        { apply in_rev. rewrite rev_involutive. now apply list_elem_of_In. }
        pose proof (find_none _ _ Hfind _ Hin) as Hm. unfold matching in Hm.
        rewrite Ht, bool_decide_eq_true_2 in Hm by exact Hname.
        rewrite bool_decide_eq_false_2 in Hm by exact Hproto. discriminate. }
    apply list_elem_of_lookup in HrS as [i Hi]. exists i. split.
    + rewrite lookup_app_l by (rewrite length_fmap; eapply lookup_lt_Some; eauto).
      now rewrite list_lookup_fmap, Hi, <- Hmor.
    + intros j f Hj Hback.
      destruct (decide (j < length S)) as [Hlt | Hge].
      * rewrite lookup_app_l, list_lookup_fmap in Hj by (now rewrite length_fmap).
        destruct (S !! j) as [r0|] eqn:Hj0; [| discriminate]. cbn in Hj.
        injection Hj as <-.
        assert (Hr0 : r0 ∈ S) by (apply list_elem_of_lookup; eauto).
        assert (getName r0 = getName r) as Heq.
        { unfold mergedOrRemote in Hback.
          destruct (lastMatch localFiles r0) as [lf0|] eqn:Hfind; cbn in Hback.
          - destruct (Hlast _ _ Hr0 Hfind) as [_ Heq].
            destruct Hback as [Hb | Hb]; injection Hb as ->; congruence.
          - destruct Hback as [Hb | Hb]; [discriminate | now injection Hb as ->]. }
        apply (NoDup_lookup _ j i (getName r) HndS).
        -- rewrite list_lookup_fmap, Hj0. cbn. now rewrite Heq.
        -- now rewrite list_lookup_fmap, Hi.
      * exfalso. rewrite lookup_app_r, list_lookup_fmap in Hj by (rewrite length_fmap; lia).
        destruct (kept !! _) as [lf0|] eqn:Hk; [| discriminate]. cbn in Hj.
        injection Hj as <-. cbn in Hback.
        destruct Hback as [Hb | Hb]; [| discriminate]. injection Hb as ->.
        rewrite Forall_lookup in Hall. destruct (Hall _ _ Hk) as [Ht' | [[_ Hno] _]].
        -- congruence.
        -- apply (Hno r); [apply list_elem_of_lookup; eauto | now symmetry].
  - intros pattern files name Hp. unfold matchingNames.
    rewrite bool_decide_eq_false_2 by exact Hp.
    rewrite list_elem_of_In, filter_In, <- list_elem_of_In.
    unfold unicodeEquals. now rewrite bool_decide_eq_true.
Qed.

Lemma merge_matches_equal_names_witness :
  let f := {| getPath := "/a/x.txt"; isDirectory := false |} in
  ∃ out w' i,
    @mergeListing sampleShare (Some sampleRequests) sampleRemoteFiles sampleLocalFiles
      mergeWorld = (Done out, w') ∧
    out !! i = Some (syncedEntry f f).
Proof.
  cbn zeta.
  destruct (@mergeListing sampleShare (Some sampleRequests) sampleRemoteFiles
              sampleLocalFiles mergeWorld) as [[out | e | x] w'] eqn:Hrun;
    [| vm_compute in Hrun; discriminate Hrun ..].
  assert (Hndr : NoDup (@getName sampleShare <$> sampleRemoteFiles)).
  { refine (bool_decide_unpack _ _). vm_compute. exact I. }
  assert (Hndl : NoDup (@getName sampleShare <$> sampleLocalFiles)).
  { refine (bool_decide_unpack _ _). vm_compute. exact I. }
  destruct (@merge_matches_equal_names sampleShare sampleRequests sampleRemoteFiles
              sampleLocalFiles mergeWorld w' out
              {| getPath := "/a/x.txt"; isDirectory := false |}
              {| getPath := "/a/x.txt"; isDirectory := false |}
              Hndr Hndl Hrun) as [(i & Hi & _) _].
  - apply list_elem_of_here.
  - apply list_elem_of_further, list_elem_of_here.
  - reflexivity.
  - vm_compute. discriminate.
  - reflexivity.
  - vm_compute. discriminate.
  - exists out, w', i. split; [reflexivity | exact Hi].
Defined.

(** C1, as stated, fails: the remote tree lists the composed form of a
    name and the local tree its decomposed form; the two names are equal
    after NFKD, and [list] hands out two entries, none of them merged. *)
Lemma list_normalization_counterexample :
  let r := {| getPath := "/a/" +:+ cafeNFC; isDirectory := false |} in
  let l := {| getPath := "/a/" +:+ cafeNFD; isDirectory := false |} in
  @unicodeEquals sampleShare (@getName sampleShare l) (@getName sampleShare r) = true ∧
  @getName sampleShare l ≠ @getName sampleShare r ∧
  fst (@RQTree_list sampleShare "/a/*" cafeWorld)
  = Done (RQFiles [remoteEntry r; @localEntry sampleShare l]).
Proof.
  cbn zeta. split; [vm_compute; reflexivity |].
  split; [vm_compute; discriminate | vm_compute; reflexivity].
Qed.

(** ** What the calls in front of the merge leave as it was *)

Lemma sameButTrace_refl (w : World) : sameButTrace w w.
Proof. repeat split. Qed.

Lemma sameButTrace_trans (w1 w2 w3 : World) :
  sameButTrace w1 w2 → sameButTrace w2 w3 → sameButTrace w1 w3.
Proof.
  unfold sameButTrace.
  intros (?&?&?&?&?&?&?&?) (?&?&?&?&?&?&?&?). repeat split; congruence.
Qed.

Lemma sameButTrace_record (c : Call) (w : World) : sameButTrace w (record c w).
Proof. repeat split. Qed.

Section Frames.
Context `{Env}.

Lemma DAMTree_list_frame (pattern : string) (w : World) :
  sameButTrace w (snd (DAMTree_list pattern w)).
Proof. unfold DAMTree_list, call. destruct (faults w _); apply sameButTrace_record. Qed.

Lemma FSTree_exists_frame (t : Tree) (name : string) (w : World) :
  sameButTrace w (snd (FSTree_exists t name w)) ∧
  ∀ b, fst (FSTree_exists t name w) = Done b → b = fs_has (treeOf t w) name.
Proof.
  unfold FSTree_exists, call. destruct (faults w _); cbn [fst snd].
  - split; [apply sameButTrace_record | discriminate].
  - split; [apply sameButTrace_record |]. intros b Hb. injection Hb as <-.
    now destruct t.
Qed.

Lemma createInstances_frame (t : Tree) (g : string → string) (names : list string) :
  ∀ (w w' : World) (files : list File),
  mapM (λ name, FSTree_createFileInstance t (g name)) names w = (Done files, w') →
  sameButTrace w w' ∧
  ∀ f, f ∈ files → fs_stat (treeOf t w) (getPath f) ≠ None.
Proof.
  induction names as [|n names IH]; intros w w' files Hrun.
  - cbn in Hrun. injection Hrun as <- <-. split; [apply sameButTrace_refl |].
    intros f Hf. inversion Hf.
  - cbn [mapM] in Hrun.
    unfold FSTree_createFileInstance at 1, FSFile_createInstance, bind, call, ret in Hrun.
    destruct (faults w (FSFileCreateInstance t (g n))); [discriminate |].
    destruct (fs_stat (treeOf t (record (FSFileCreateInstance t (g n)) w)) (g n))
      as [k|] eqn:Hk;
      [| discriminate].
    destruct (mapM _ names _) as [[files' | e | x] w1] eqn:Hrest; try discriminate.
    injection Hrun as <- <-.
    apply IH in Hrest as [Hsame Hall]. split.
    + eapply sameButTrace_trans; [apply sameButTrace_record | exact Hsame].
    + intros f Hf. apply elem_of_cons in Hf as [-> | Hf].
      * cbn [getPath handle]. destruct t; wsimpl in Hk; wsimpl; congruence.
      * specialize (Hall f Hf). now destruct t.
Qed.

Lemma FSTree_list_frame (t : Tree) (pattern : string) (w w' : World) (files : list File) :
  FSTree_list t pattern w = (Done files, w') →
  sameButTrace w w' ∧
  ∀ f, f ∈ files → fs_stat (treeOf t w) (getPath f) ≠ None.
Proof.
  unfold FSTree_list, bind, call. intros Hrun.
  destruct (faults w _); [discriminate |].
  destruct (fs_stat _ _) as [[|]|]; try discriminate.
  apply createInstances_frame in Hrun as [Hsame Hall]. split.
  - eapply sameButTrace_trans; [apply sameButTrace_record | exact Hsame].
  - intros f Hf. specialize (Hall f Hf). now destruct t.
Qed.

Lemma sameButTrace_tree (t : Tree) (w w2 : World) :
  sameButTrace w w2 → treeOf t w2 = treeOf t w.
Proof. intros (? & ? & _). now destruct t. Qed.

Lemma sameButTrace_step (c : Call) (w w2 : World) :
  sameButTrace w w2 → sameButTrace (record c w) (record c w2).
Proof. unfold sameButTrace. cbn. tauto. Qed.

(** The listing of a tree depends on the tree and on the faults only. *)
Lemma createInstances_ext (t : Tree) (g : string → string) (names : list string) :
  ∀ w w2 : World,
  sameButTrace w w2 →
  fst (mapM (λ name, FSTree_createFileInstance t (g name)) names w2)
  = fst (mapM (λ name, FSTree_createFileInstance t (g name)) names w).
Proof.
  induction names as [|n names IH]; intros w w2 F; [reflexivity |].
  cbn [mapM].
  unfold FSTree_createFileInstance at 1 3, FSFile_createInstance, bind, call, ret.
  assert (Hf : faults w2 = faults w) by apply F.
  pose proof (sameButTrace_tree t _ _ (sameButTrace_step (FSFileCreateInstance t (g n)) _ _ F))
    as Ht.
  rewrite Hf, Ht.
  destruct (faults w _); [reflexivity |].
  destruct (fs_stat _ _); [| reflexivity].
  specialize (IH _ _ (sameButTrace_step (FSFileCreateInstance t (g n)) _ _ F)).
  destruct (mapM _ names (record _ w2)) as [[? | ? | ?] ?];
    destruct (mapM _ names (record _ w)) as [[? | ? | ?] ?];
    cbn [fst] in IH |- *; congruence.
Qed.

Lemma FSTree_list_ext (t : Tree) (pattern : string) (w w2 : World) :
  sameButTrace w w2 →
  fst (FSTree_list t pattern w2) = fst (FSTree_list t pattern w).
Proof.
  intros F. unfold FSTree_list, bind, call.
  assert (Hf : faults w2 = faults w) by apply F.
  pose proof (sameButTrace_tree t _ _ (sameButTrace_step (FsReaddir t (parentOrEmpty pattern)) _ _ F))
    as Ht.
  rewrite Hf, Ht.
  destruct (faults w _); [reflexivity |].
  destruct (fs_stat _ _) as [[|]|]; try reflexivity.
  apply createInstances_ext. now apply sameButTrace_step.
Qed.

(** [list], taken apart: what the callback got is the remote listing as
    it came, or the merge of the two listings under the pending requests
    of the directory. *)
Lemma RQTree_list_inv (pattern : string) (w w' : World) (listing : Listing) :
  RQTree_list pattern w = (Done listing, w') →
  ∃ remoteFiles,
    fst (DAMTree_list pattern w) = Done remoteFiles ∧
    ((fs_has (local w) (parentOrEmpty pattern) = false ∧
      listing = RemoteFiles remoteFiles) ∨
     (fs_has (local w) (parentOrEmpty pattern) = true ∧
      ∃ localFiles w4 out,
        fst (FSTree_list Local pattern w) = Done localFiles ∧
        sameButTrace w w4 ∧
        (∀ f, f ∈ localFiles → fs_stat (local w) (getPath f) ≠ None) ∧
        mergeListing
          (match faults w (RqGetRequests (parentOrEmpty pattern)) with
           | Some _ => None
           | None => Some (requestsOf (parentOrEmpty pattern) (rq w))
           end) remoteFiles localFiles w4 = (Done out, w') ∧
        listing = RQFiles out)).
Proof.
  intros Hrun. unfold RQTree_list, bind in Hrun.
  pose proof (DAMTree_list_frame pattern w) as F1.
  destruct (DAMTree_list pattern w) as [[remoteFiles | e | x] w1]; try discriminate.
  cbn [snd] in F1. exists remoteFiles. split; [reflexivity |].
  destruct (FSTree_exists_frame Local (parentOrEmpty pattern) w1) as [F2 Hb].
  destruct (FSTree_exists Local (parentOrEmpty pattern) w1) as [[b | e | x] w2];
    try discriminate.
  cbn [fst snd] in F2, Hb. specialize (Hb b eq_refl).
  assert (HL1 : local w1 = local w) by apply F1.
  cbn [treeOf] in Hb. rewrite HL1 in Hb. subst b.
  destruct (fs_has (local w) (parentOrEmpty pattern)) eqn:Hhas.
  - right. split; [reflexivity |].
    destruct (FSTree_list Local pattern w2) as [[localFiles | e | x] w3] eqn:Hlist;
      try discriminate.
    pose proof (sameButTrace_trans _ _ _ F1 F2) as F12.
    assert (Hlist0 : fst (FSTree_list Local pattern w) = Done localFiles)
      by now rewrite <- (FSTree_list_ext Local pattern w w2 F12), Hlist.
    apply FSTree_list_frame in Hlist as [F3 Hall].
    pose proof (sameButTrace_trans _ _ _ F12 F3) as F.
    unfold RequestQueue_getRequests in Hrun.
    assert (Hf : faults w3 = faults w) by apply F.
    assert (Hq : rq w3 = rq w) by apply F.
    rewrite Hf, Hq in Hrun.
    exists localFiles, (record (RqGetRequests (parentOrEmpty pattern)) w3).
    destruct (faults w (RqGetRequests (parentOrEmpty pattern))) eqn:Hfault;
      unfold ret in Hrun;
      destruct (mergeListing _ remoteFiles localFiles _) as [[out | e | x] w5] eqn:Hm;
      try discriminate; injection Hrun as <- <-; exists out;
      (split; [exact Hlist0 |]);
      (split; [eapply sameButTrace_trans; [exact F | apply sameButTrace_record] |]);
      (split; [| split; reflexivity]);
      intros f Hf'; specialize (Hall f Hf'); cbn [treeOf] in Hall;
      assert (HL2 : local w2 = local w)
        by (pose proof (proj1 F1); pose proof (proj1 F2); congruence);
      now rewrite HL2 in Hall.
  - left. split; [reflexivity |]. unfold ret in Hrun. now injection Hrun as <- _.
Qed.

End Frames.

(** ** [delete] and the listing *)

Section DeleteHides.
Context `{Env}.

Lemma requestsOf_snoc (parentPath : string) (q : list Request) (r : Request) :
  requestKey r = parentPath →
  requestsOf parentPath (q ++ [r]) !! getPathName (path r) = Some (method r).
Proof.
  intros Hk. unfold requestsOf. rewrite foldl_app. cbn [foldl].
  rewrite bool_decide_eq_true_2 by exact Hk. apply lookup_insert_eq.
Qed.

(** The remote pass without any assumption on the names. *)
Lemma remoteLoop_weak (requests : gmap string string) (rs : list File) :
  ∀ (i : nat) (rq0 rq1 : list RQFile) (lk0 rl0 lk rl : gmap string nat),
  remoteLoop requests rs i (rq0, lk0, rl0) = (rq1, lk, rl) →
  (∀ nm k, lk0 !! nm = Some k → k < length rq0) →
  rq1 = rq0 ++ (remoteEntry <$> survivors requests rs) ∧
  (∀ nm k, lk !! nm = Some k → k < length rq1) ∧
  (∀ nm j, rl !! nm = Some j →
     rl0 !! nm = Some j ∨
     ∃ r, rs !! (j - i)%nat = Some r ∧ (i ≤ j)%nat ∧ requests !! getName r ≠ Some "DELETE").
Proof.
  induction rs as [|r rs IH]; intros i rq0 rq1 lk0 rl0 lk rl Hloop Hrange.
  - cbn in Hloop. injection Hloop as <- <- <-. cbn. rewrite app_nil_r.
    split; [reflexivity |]. split; [exact Hrange | now left].
  - cbn [remoteLoop] in Hloop. rewrite survivors_cons.
    destruct (bool_decide (requests !! getName r ≠ Some "DELETE")) eqn:Hs.
    + apply bool_decide_eq_true in Hs.
      apply IH in Hloop as (-> & Hlk & Hrl).
      * split; [now rewrite fmap_cons, <- app_assoc |]. split; [exact Hlk |].
        intros nm j Hj. destruct (Hrl nm j Hj) as [Hj0 | (r' & Hr' & Hle & Hs')].
        -- unfold jsSet in Hj0.
           destruct (bool_decide (getName r = "__proto__")); [now left |].
           destruct (decide (getName r = nm)) as [<- | Hne].
           ++ rewrite lookup_insert_eq in Hj0. injection Hj0 as <-.
              right. exists r. rewrite Nat.sub_diag. repeat split; [lia | exact Hs].
           ++ rewrite lookup_insert_ne in Hj0 by exact Hne. now left.
        -- right. exists r'. replace (j - i)%nat with (S (j - S i)) by lia.
           repeat split; [exact Hr' | lia | exact Hs'].
      * intros nm k Hk. rewrite length_app. cbn [length].
        unfold jsSet in Hk.
        destruct (bool_decide (getName r = "__proto__"));
          [apply Hrange in Hk; lia |].
        destruct (decide (getName r = nm)) as [<- | Hne].
        -- rewrite lookup_insert_eq in Hk. injection Hk as <-.
           rewrite length_app. cbn. lia.
        -- rewrite lookup_insert_ne in Hk by exact Hne. apply Hrange in Hk. lia.
    + apply bool_decide_eq_false in Hs.
      apply IH in Hloop as (-> & Hlk & Hrl); [| exact Hrange].
      split; [reflexivity |]. split; [exact Hlk |].
      intros nm j Hj. destruct (Hrl nm j Hj) as [Hj0 | (r' & Hr' & Hle & Hs')];
        [now left | right].
      exists r'. replace (j - i)%nat with (S (j - S i)) by lia.
      repeat split; [exact Hr' | lia | exact Hs'].
Qed.

(** Where the entries of a merged listing come from. *)
Lemma mergeListing_elem (requests : option (gmap string string))
    (remoteFiles localFiles : list File) (w w' : World) (out : list RQFile) (f : RQFile) :
  mergeListing requests remoteFiles localFiles w = (Done out, w') →
  f ∈ out →
  (∃ lf, lf ∈ localFiles ∧ localFile f = Some lf ∧
         (rqName f = getPath lf ∨
          (rqName f = getName lf ∧ isTempFileName (getName lf) = true))) ∧
     (∀ r, remoteFile f = Some r →
           r ∈ remoteFiles ∧ ∀ q, requests = Some q → q !! getName r ≠ Some "DELETE")
  ∨
  (∃ r, f = remoteEntry r ∧ r ∈ remoteFiles ∧
        ∀ q, requests = Some q → q !! getName r ≠ Some "DELETE").
Proof.
  intros Hrun Hf. unfold mergeListing in Hrun.
  assert (Hlocal : ∀ lf, lf ∈ localFiles → f = localEntry lf →
    (∃ lf, lf ∈ localFiles ∧ localFile f = Some lf ∧
           (rqName f = getPath lf ∨
            (rqName f = getName lf ∧ isTempFileName (getName lf) = true))) ∧
    (∀ r, remoteFile f = Some r →
          r ∈ remoteFiles ∧ ∀ q, requests = Some q → q !! getName r ≠ Some "DELETE")).
  { intros lf Hin ->. split; [| discriminate].
    exists lf. split; [exact Hin |]. split; [reflexivity |]. cbn.
    destruct (isTempFileName (getName lf)); [right | left]; eauto. }
  destruct requests as [q|]; [| destruct remoteFiles as [|r0 rs]].
  - destruct (remoteLoop q remoteFiles 0 ([], ∅, ∅)) as [[rq1 lk] rl] eqn:Hloop.
    apply remoteLoop_weak in Hloop as (-> & Hrange & Hrl);
      [| intros nm k Hk; now rewrite lookup_empty in Hk].
    cbn [app] in *.
    apply processLocal_shape in Hrun as (kept & -> & Hsub & _ & _); [| exact Hrange].
    apply elem_of_app in Hf as [Hf | Hf].
    + apply applyMerges_elem in Hf as [Hf | (lf & Hin & Ht & _ & ->)].
      * right. apply list_elem_of_fmap in Hf as (r & -> & Hr).
        apply survivors_elem in Hr as [Hs Hr].
        exists r. repeat split; [exact Hr |]. now intros q' [= <-].
      * left. split.
        -- exists lf. repeat split; [exact Hin | now left].
        -- cbn [remoteFile]. intros r Hr.
           destruct (jsGet rl (getName lf)) as [|j|] eqn:Hj; try discriminate.
           cbn [arrayGet] in Hr. apply jsGet_number in Hj as [_ Hj].
           destruct (Hrl _ _ Hj) as [H0 | (r' & Hr' & _ & Hs)];
             [now rewrite lookup_empty in H0 |].
           rewrite Nat.sub_0_r in Hr'. rewrite Hr in Hr'. injection Hr' as <-.
           split; [apply list_elem_of_lookup; eauto | now intros q' [= <-]].
    + left. apply list_elem_of_fmap in Hf as (lf & -> & Hk).
      apply (Hlocal lf); [| reflexivity].
      eapply elem_of_sublist; eauto.
  - apply processLocal_shape in Hrun as (kept & -> & Hsub & _ & _);
      [| intros nm k Hk; now rewrite lookup_empty in Hk].
    apply elem_of_app in Hf as [Hf | Hf].
    + apply applyMerges_elem in Hf as [Hf | (lf & _ & _ & [i Hl] & _)].
      * inversion Hf.
      * apply jsGet_number in Hl as [_ Hl]. now rewrite lookup_empty in Hl.
    + left. apply list_elem_of_fmap in Hf as (lf & -> & Hk).
      apply (Hlocal lf); [| reflexivity].
      eapply elem_of_sublist; eauto.
  - discriminate.
Qed.

End DeleteHides.

Lemma delete_cached_file `{Env} (n : string) (w : World) :
  fs_stat (local w) n = Some RegularFile →
  isTempFileName n = false →
  faults w (FsStat Local n) = None →
  faults w (FsUnlink Local n) = None →
  faults w (RqQueueRequest (deleteRequest n)) = None →
  ∃ w1, RQTree_delete n w = (Done tt, w1) ∧
        rq w1 = rq w ++ [deleteRequest n] ∧
        local w1 = fs_remove (local w) n.
Proof.
  intros Hk Ht F1 F2 F3.
  unfold RQTree_delete, logger, FSTree_exists, FSTree_delete, DAMTree_delete,
    invalidateContentCache, bind, call, ret, fs_has.
  repeat (hsimpl; rewrite ?F1, ?F2, ?Hk).
  match goal with
  | |- context [RQTree_queueData n "DELETE" None ?wm] =>
    destruct (queueData_cases n "DELETE" None wm) as [Hfst Hc];
    destruct (RQTree_queueData n "DELETE" None wm) as [o wq]
  end.
  cbn [fst snd truthy] in Hfst, Hc. subst o. fold (deleteRequest n) in Hc.
  destruct Hc as [[Ha _] | [(_ & _ & ->) | (_ & err & Hf & _)]].
  - unfold allTemp in Ha. cbn in Ha. rewrite Ht in Ha. discriminate.
  - unfold RQFile_deleteWorkFiles, call. hsimpl.
    destruct (faults w (RQFileDeleteWorkFiles n)); eexists;
      (split; [reflexivity |]); hsimpl; split; reflexivity.
  - wsimpl in Hf. congruence.
Qed.

(** C3, as amended.  [delete n] of a file that the local tree holds (a
    name that is not temporary; the local steps and the queue go through)
    succeeds, takes [n] out of the local tree, leaves the rest of it, and
    leaves a DELETE for [n] pending in the queue.  In every world in which
    that DELETE is still what the queue reports for [n], [n] is still gone
    from the local tree, and the local tree still holds the directory of
    [n], a listing of that directory is a merged one and has no entry that
    stands for [n]: not under that name, not through a local handle, not
    through a remote one.  When the local tree no longer holds the
    directory, [list] hands out the remote listing as it came. *)
Theorem delete_hides_until_drained `{Env} (n pattern : string) (w : World) :
  fs_stat (local w) n = Some RegularFile →
  isTempFileName n = false →
  faults w (FsStat Local n) = None →
  faults w (FsUnlink Local n) = None →
  faults w (RqQueueRequest (deleteRequest n)) = None →
  parentOrEmpty pattern = parentOrEmpty n →
  let w1 := snd (RQTree_delete n w) in
  fst (RQTree_delete n w) = Done tt ∧
  rq w1 = rq w ++ [deleteRequest n] ∧
  pendingDelete n w1 ∧
  fs_stat (local w1) n = None ∧
  (∀ d, d ≠ n → fs_stat (local w1) d = fs_stat (local w) d) ∧
  ∀ w2 w3 listing,
    pendingDelete n w2 → fs_stat (local w2) n = None →
    RQTree_list pattern w2 = (Done listing, w3) →
    (fs_has (local w2) (parentOrEmpty pattern) = true →
     ∃ out, listing = RQFiles out ∧ ∀ f, f ∈ out → ¬ refers n f) ∧
    (fs_has (local w2) (parentOrEmpty pattern) = false →
     ∃ remoteFiles, listing = RemoteFiles remoteFiles ∧
                    fst (DAMTree_list pattern w2) = Done remoteFiles).
Proof.
  intros Hk Ht F1 F2 F3 Hparent.
  destruct (delete_cached_file n w Hk Ht F1 F2 F3) as (w1 & Hrun & Hq & Hl).
  rewrite Hrun. cbn [fst snd]. split; [reflexivity |].
  split; [exact Hq |]. split; [| split; [| split]].
  - unfold pendingDelete. rewrite Hq.
    apply (requestsOf_snoc (parentOrEmpty n) (rq w) (deleteRequest n)). reflexivity.
  - rewrite Hl. apply fs_stat_remove_eq.
  - intros d Hd. rewrite Hl. now apply fs_stat_remove_ne.
  - intros w2 w3 listing Hpend Hgone Hlist.
    apply RQTree_list_inv in Hlist
      as (remoteFiles & Hrem &
          [[Hno ->] | (Hyes & localFiles & w4 & out & _ & _ & Hall & Hm & ->)]).
    { split; [congruence |]. intros _. eauto. }
    split; [| congruence]. intros _. exists out. split; [reflexivity |].
    intros f Hf Href.
    assert (Hremote : ∀ r, r ∈ remoteFiles →
              (∀ q, (match faults w2 (RqGetRequests (parentOrEmpty pattern)) with
                     | Some _ => None
                     | None => Some (requestsOf (parentOrEmpty pattern) (rq w2))
                     end) = Some q → q !! getName r ≠ Some "DELETE") →
              getPath r ≠ n).
    { intros r Hr Hs Heq.
      destruct (faults w2 (RqGetRequests (parentOrEmpty pattern))).
      - destruct (mergeListing None remoteFiles localFiles w4) eqn:Hm'.
        unfold mergeListing in Hm'. destruct remoteFiles; [inversion Hr |].
        unfold throw in Hm'. congruence.
      - apply (Hs _ eq_refl). unfold getName. rewrite Heq, Hparent. exact Hpend. }
    destruct (mergeListing_elem _ _ _ _ _ _ f Hm Hf)
      as [[(lf & Hin & Hlf & Hname) Hrem'] | (r & -> & Hr & Hs)].
    + specialize (Hall lf Hin).
      assert (Hpath : getPath lf ≠ n) by (intros Heq; apply Hall; now rewrite Heq).
      destruct Href as [Hn | [Hn | Hn]].
      * destruct Hname as [Hp | [Hp Htemp]]; [congruence |].
        rewrite <- Hn, Hp, Htemp in Ht. discriminate.
      * rewrite Hlf in Hn. cbn in Hn. congruence.
      * destruct (remoteFile f) as [r|] eqn:Hrf; [| discriminate]. cbn in Hn.
        destruct (Hrem' r eq_refl) as [Hr Hs].
        apply (Hremote r Hr Hs). congruence.
    + apply (Hremote r Hr Hs).
      destruct Href as [Hn | [Hn | Hn]]; cbn in Hn; [exact Hn | discriminate | congruence].
Qed.

Lemma delete_hides_until_drained_witness :
  let w1 := snd (@RQTree_delete sampleShare "/a/x.txt" deleteWorld) in
  @fs_stat sampleShare (remote w1) "/a/x.txt" = Some RegularFile ∧
  ∃ out, fst (@RQTree_list sampleShare "/a/*" w1) = Done (RQFiles out) ∧
         ∀ f, f ∈ out → ¬ refers "/a/x.txt" f.
Proof.
  cbn zeta. split; [vm_compute; reflexivity |].
  destruct (@delete_hides_until_drained sampleShare "/a/x.txt" "/a/*" deleteWorld
              eq_refl eq_refl eq_refl eq_refl eq_refl eq_refl)
    as (_ & _ & Hp & Hg & _ & Hlist).
  destruct (@RQTree_list sampleShare "/a/*"
              (snd (@RQTree_delete sampleShare "/a/x.txt" deleteWorld)))
    as [[listing | e | x] w3] eqn:Hrun.
  - destruct (Hlist _ _ _ Hp Hg Hrun) as [Hyes _].
    destruct Hyes as (out & -> & Hout); [vm_compute; reflexivity |].
    exists out. split; [reflexivity | exact Hout].
  - vm_compute in Hrun. discriminate Hrun.
  - vm_compute in Hrun. discriminate Hrun.
Defined.

(** C3, as stated, fails: [delete] of [/a/x.txt] succeeds and leaves its
    DELETE in the queue; then [deleteDirectory] of the folder [/a], which
    the local tree now holds empty, removes the local folder and fails at
    the remote tree, so that the queue is not purged.  The DELETE is still
    pending and [/a/x.txt] is gone from the local tree, and [list] hands
    out the remote listing as it came, with [/a/x.txt] in it. *)
Lemma delete_then_folder_gone_counterexample :
  let w1 := snd (@RQTree_delete sampleShare "/a/x.txt" deleteWorld) in
  let w2 := snd (@RQTree_deleteDirectory sampleShare remoteDirFaults "/a" w1) in
  @fs_stat sampleShare (local deleteWorld) "/a/x.txt" = Some RegularFile ∧
  fst (@RQTree_delete sampleShare "/a/x.txt" deleteWorld) = Done tt ∧
  fst (@RQTree_deleteDirectory sampleShare remoteDirFaults "/a" w1) = Fail RemoteError ∧
  rq w2 = [@deleteRequest sampleShare "/a/x.txt"] ∧
  @pendingDelete sampleShare "/a/x.txt" w2 ∧
  @fs_stat sampleShare (local w2) "/a/x.txt" = None ∧
  fst (@RQTree_list sampleShare "/a/*" w2)
  = Done (RemoteFiles [ {| getPath := "/a/x.txt"; isDirectory := false |};
                        {| getPath := "/a/y.txt"; isDirectory := false |} ]).
Proof. cbn zeta. repeat split; vm_compute; reflexivity. Qed.

(** ** Errors of [getRequests] *)

(** C10, as amended.  The callback that [list] gives to [getRequests]
    does not look at its error argument.  When [getRequests] reports an
    error (and so hands over no mapping): if the remote listing has an
    entry, the loop over it indexes the missing mapping and throws, so
    that the callback of [list] gets neither an error nor a result; if the
    remote listing is empty, the loop does not run, and [list] goes on to
    the local pass and hands its outcome to the callback. *)
Theorem list_when_getRequests_fails `{Env} (pattern : string) (w w1 w2 w3 : World)
    (remoteFiles localFiles : list File) (err : SMBError) :
  DAMTree_list pattern w = (Done remoteFiles, w1) →
  FSTree_exists Local (parentOrEmpty pattern) w1 = (Done true, w2) →
  FSTree_list Local pattern w2 = (Done localFiles, w3) →
  faults w (RqGetRequests (parentOrEmpty pattern)) = Some err →
  let w4 := record (RqGetRequests (parentOrEmpty pattern)) w3 in
  (remoteFiles ≠ [] → RQTree_list pattern w = (Throw TypeError, w4)) ∧
  (remoteFiles = [] →
   RQTree_list pattern w
   = bind (processLocal ∅ ∅ [] localFiles []) (λ l, ret (RQFiles l)) w4).
Proof.
  intros H1 H2 H3 Hfault w4.
  assert (Hf : faults w3 = faults w).
  { pose proof (DAMTree_list_frame pattern w) as F1. rewrite H1 in F1.
    destruct (FSTree_exists_frame Local (parentOrEmpty pattern) w1) as [F2 _].
    rewrite H2 in F2. apply FSTree_list_frame in H3 as [F3 _].
    cbn [snd] in F1, F2.
    apply (sameButTrace_trans _ _ _ (sameButTrace_trans _ _ _ F1 F2) F3). }
  assert (Heq : RQTree_list pattern w
                = bind (mergeListing None remoteFiles localFiles)
                       (λ l, ret (RQFiles l)) w4).
  { unfold RQTree_list. unfold bind at 1. rewrite H1. cbv beta iota.
    unfold bind at 1. rewrite H2. cbv beta iota.
    unfold bind at 1. rewrite H3. cbv beta iota.
    unfold RequestQueue_getRequests. rewrite Hf, Hfault. reflexivity. }
  rewrite Heq. unfold mergeListing. split.
  - intros Hne. destruct remoteFiles; [contradiction | reflexivity].
  - intros ->. reflexivity.
Qed.

Lemma list_when_getRequests_fails_witness :
  fst (@RQTree_list sampleShare "/a/*" unreadableQueueWorld) = Throw TypeError.
Proof.
  pose (r1 := @DAMTree_list sampleShare "/a/*" unreadableQueueWorld).
  pose (r2 := @FSTree_exists sampleShare Local "/a" (snd r1)).
  pose (r3 := @FSTree_list sampleShare Local "/a/*" (snd r2)).
  assert (H1 : r1 = (Done [ {| getPath := "/a/y.txt"; isDirectory := false |} ], snd r1))
    by (vm_compute; reflexivity).
  assert (H2 : r2 = (Done true, snd r2)) by (vm_compute; reflexivity).
  assert (H3 : r3 = (Done [], snd r3)) by (vm_compute; reflexivity).
  destruct (@list_when_getRequests_fails sampleShare "/a/*" unreadableQueueWorld
              (snd r1) (snd r2) (snd r3) _ _ QueueError H1 H2 H3 eq_refl)
    as [Hthrow _].
  rewrite Hthrow; [reflexivity | discriminate].
Defined.

(** C10, as stated, fails: the queue cannot be read, the remote directory
    is empty, and [list] hands a result to its callback. *)
Lemma list_getRequests_error_counterexample :
  faults emptyRemoteWorld (RqGetRequests "/a") = Some QueueError ∧
  fst (@RQTree_list sampleShare "/a/*" emptyRemoteWorld)
  = Done (RQFiles [@localEntry sampleShare
                     {| getPath := "/a/new.txt"; isDirectory := false |}]).
Proof. split; vm_compute; reflexivity. Qed.

(** ** Orphans *)

(** One step of the local pass at an orphan: a local file that is not
    temporary, for whose name [lookup] holds nothing and that has no
    creation marker.  When [canDelete] answers no, the file stays in the local tree,
    its entry is pushed, and a line is written to the log; nothing else
    happens.  When [canDelete] answers yes, the file is deleted from the
    local tree, its sidecars from the work tree, and no entry is pushed. *)
Lemma processLocal_orphan `{Env} (lookup remoteLookup : gmap string nat)
    (remoteFiles : list File) (lf : File) (rest : list File) (rq0 : list RQFile)
    (w : World) :
  isTempFileName (getName lf) = false →
  jsGet lookup (getName lf) = JsUndefined →
  fs_has (work w) (getCreateFileName (getPath lf)) = false →
  faults w (RQFileFromLocal (getPath lf)) = None →
  faults w (FsStat Work (getCreateFileName (getPath lf))) = None →
  faults w (RQFileCanDelete (getPath lf)) = None →
  let asked :=
    record (RQFileCanDelete (getPath lf))
      (record (FsStat Work (getCreateFileName (getPath lf)))
         (record (RQFileFromLocal (getPath lf)) w)) in
  let canDelete :=
    bool_decide (getPath lf ∉ openFiles w)
    && negb (existsb (refersTo (getPath lf)) (rq w)) in
  (canDelete = false →
   processLocal lookup remoteLookup remoteFiles (lf :: rest) rq0 w
   = processLocal lookup remoteLookup remoteFiles rest (rq0 ++ [localEntry lf])
       (addLog (InfoConflictSendingEvent (getPath lf)) asked)) ∧
  (canDelete = true →
   fs_has (local w) (getPath lf) = true →
   faults w (FSFileDelete (getPath lf)) = None →
   faults w (RQFileDeleteWorkFiles (getPath lf)) = None →
   processLocal lookup remoteLookup remoteFiles (lf :: rest) rq0 w
   = processLocal lookup remoteLookup remoteFiles rest rq0
       (addLog (InfoDeletedRemotely (getPath lf))
          (setTree Work
             (fs_remove (fs_remove (work w) (getCreateFileName (getPath lf))) (getPath lf))
             (record (RQFileDeleteWorkFiles (getPath lf))
                (setTree Local (fs_remove (local w) (getPath lf))
                   (record (FSFileDelete (getPath lf)) asked)))))).
Proof.
  intros Ht Hl Hm F1 F2 F3 asked canDelete.
  cbn [processLocal]. rewrite Ht, Hl. cbn [isDefined].
  unfold_local. unfold localEntry. rewrite Ht.
  split.
  - intros Hc. subst canDelete asked.
    repeat (wsimpl; cbn [rqName]; rewrite ?F1, ?F2, ?F3, ?Hm, ?Hc).
    reflexivity.
  - intros Hc Hhas F4 F5. subst canDelete asked. unfold fs_has in Hhas.
    destruct (fs_stat (local w) (getPath lf)) eqn:Hstat; [| discriminate].
    repeat (wsimpl; cbn [rqName negb andb];
            rewrite ?F1, ?F2, ?F3, ?F4, ?F5, ?Hm, ?Hc, ?Hstat).
    reflexivity.
Qed.

(** C4, at the input where the code falls short of it.  The local file
    has no remote counterpart and no creation marker and a client holds it
    open, so [canDelete] answers no.  The file stays in the local tree and
    is listed, backed by its local handle; and all that [list] does about
    the conflict is to write the line that announces an event to the log:
    the calls of the run are the ones below, none of which sends one.
    (The rest of what C4 says holds at every orphan: see
    [processLocal_orphan].) *)
Example list_orphan_conflict_only_logged :
  let old := {| getPath := "/a/old.txt"; isDirectory := false |} in
  let out := @RQTree_list sampleShare "/a/*" conflictWorld in
  fst out = Done (RQFiles [@localEntry sampleShare old]) ∧
  local (snd out) = local conflictWorld ∧
  logs (snd out) = [InfoConflictSendingEvent "/a/old.txt"] ∧
  trace (snd out)
  = [DamList "/a/*"; FsStat Local "/a"; FsReaddir Local "/a";
     FSFileCreateInstance Local "/a/old.txt"; RqGetRequests "/a";
     RQFileFromLocal "/a/old.txt"; FsStat Work "/a/old.txt.rqcf";
     RQFileCanDelete "/a/old.txt"].
Proof. cbn zeta. repeat split; vm_compute; reflexivity. Qed.

Lemma enqueue_errors_are_logged_not_propagated_witness :
  let out := @RQTree_delete sampleShare "/a/x.txt" unwritableQueueWorld in
  let out' := @RQTree_rename sampleShare "/a/x.txt" "/a/y.txt" unwritableQueueWorld in
  (fst out = Done tt ∧
   ErrorUnableToQueue (@deleteRequest sampleShare "/a/x.txt") QueueError ∈ logs (snd out) ∧
   rq (snd out) = []) ∧
  (fst out' = Done tt ∧
   ErrorUnableToQueue (@moveRequest sampleShare "/a/x.txt" "/a/y.txt") QueueError
     ∈ logs (snd out') ∧
   rq (snd out') = []).
Proof.
  cbv zeta.
  destruct (@enqueue_errors_are_logged_not_propagated sampleShare unwritableQueueWorld)
    as (_ & _ & _ & _ & _ & Hd & Hr).
  split.
  - destruct (Hd "/a/x.txt" QueueError eq_refl eq_refl eq_refl eq_refl eq_refl)
      as (Hdone & _ & _ & Hlog & Hrq).
    split; [exact Hdone |]. split; [exact Hlog | exact Hrq].
  - destruct (Hr "/a/x.txt" "/a/y.txt" QueueError) as (Hdone & _ & Hlog & Hrq).
    + reflexivity.
    + vm_compute. reflexivity.
    + vm_compute. reflexivity.
    + reflexivity.
    + reflexivity.
    + split; [exact Hdone |]. split; [exact Hlog | exact Hrq].
Defined.

(** ** What the mutations hand to the queue *)

Ltac break_queue :=
  repeat (hsimpl;
    match goal with
    | |- context [match faults ?w ?c with _ => _ end] =>
      let E := fresh "Hfault" in destruct (faults w c) eqn:E
    | |- context [match fs_stat ?fs ?p with _ => _ end] =>
      let E := fresh "Hstat" in destruct (fs_stat fs p) eqn:E
    | |- context [if fs_has ?fs ?p then _ else _] =>
      let E := fresh "Hhas" in destruct (fs_has fs p) eqn:E
    | |- context [match fs_rename ?fs ?a ?b with _ => _ end] =>
      let E := fresh "Hmv" in destruct (fs_rename fs a b) eqn:E
    | |- context [match ?k with RegularFile => _ | Directory => _ end] =>
      is_var k; destruct k
    | |- context [RQTree_queueData ?n ?m ?d ?w] =>
      let Hq1 := fresh "Hq" in
      let Hq2 := fresh "Hc" in
      let Ht := fresh "Htemp" in
      destruct (queueData_cases n m d w) as [Hq1 Hq2];
      destruct (RQTree_queueData n m d w) as [? ?];
      cbn [fst snd truthy negb] in Hq1, Hq2; subst;
      destruct Hq2 as [[Ht ->] | [(Ht & _ & ->) | (Ht & ? & _ & ->)]]
    end).

Lemma delete_queues_at_most_one `{Env} (name : string) (w : World) :
  let w' := snd (RQTree_delete name w) in
  queuedBy (trace w') = queuedBy (trace w) ∨
  (queuedBy (trace w') = queuedBy (trace w) ++ [deleteRequest name] ∧
   allTemp (deleteRequest name) = false).
Proof.
  cbn zeta.
  unfold RQTree_delete, logger, FSTree_exists, FSTree_delete, DAMTree_delete,
    RQFile_deleteWorkFiles, invalidateContentCache, bind, call, ret.
  break_queue; fold (deleteRequest name) in *;
    first [ left; count_calls; fail | right; split; [count_calls; fail | assumption] ].
Qed.

Lemma rename_queues_at_most_one `{Env} (oldName newName : string) (w : World) :
  let w' := snd (RQTree_rename oldName newName w) in
  queuedBy (trace w') = queuedBy (trace w) ∨
  (queuedBy (trace w') = queuedBy (trace w) ++ [moveRequest oldName newName] ∧
   allTemp (moveRequest oldName newName) = false).
Proof.
  cbn zeta.
  unfold RQTree_rename, FSTree_exists, FSTree_rename, FSFile_createInstance,
    invalidateContentCache, DAMTree_rename, RequestQueue_updatePath,
    bind, call, ret.
  break_queue; fold (moveRequest oldName newName) in *;
    first [ left; count_calls; fail | right; split; [count_calls; fail | assumption] ].
Qed.

(** C2, as amended.  A mutation hands at most one request to the queue,
    and that request never has all of its names in the temporary
    namespace.  [queueData] appends at most one entry: one without
    [destPath] has a [path] that is not temporary, one with a [destPath]
    has a [path] or a [destPath] that is not temporary.  [delete] queues
    at most a DELETE, for a name that is not temporary.  [rename] queues at
    most a MOVE, of which the old or the new name is not temporary (a
    rename into or out of the temporary namespace is queued). *)
Theorem mutations_never_queue_all_temp `{Env} (w : World) :
  (∀ name meth newName,
     let w' := snd (RQTree_queueData name meth newName w) in
     rq w' = rq w ∨
     ∃ r, rq w' = rq w ++ [r] ∧ path r = name ∧ method r = meth ∧
          destPath r = (if truthy newName then newName else None) ∧
          allTemp r = false ∧
          (destPath r = None → isTempFileName (path r) = false)) ∧
  (∀ name,
     let w' := snd (RQTree_delete name w) in
     queuedBy (trace w') = queuedBy (trace w) ∨
     (queuedBy (trace w') = queuedBy (trace w) ++ [deleteRequest name] ∧
      isTempFileName name = false)) ∧
  (∀ oldName newName,
     let w' := snd (RQTree_rename oldName newName w) in
     queuedBy (trace w') = queuedBy (trace w) ∨
     (queuedBy (trace w') = queuedBy (trace w) ++ [moveRequest oldName newName] ∧
      allTemp (moveRequest oldName newName) = false)).
Proof.
  split; [| split].
  - intros name meth newName. apply queueData_queues_at_most_one.
  - intros name. destruct (delete_queues_at_most_one name w) as [Hq | [Hq Ht]];
      [now left | right]. split; [exact Hq |].
    unfold allTemp in Ht. cbn in Ht. now rewrite andb_true_r in Ht.
  - intros oldName newName. apply rename_queues_at_most_one.
Qed.

Lemma mutations_never_queue_all_temp_witness :
  ∃ r, rq (snd (@RQTree_queueData sampleShare "/a/x.txt" "PUT" None deleteWorld)) = [r] ∧
       @isTempFileName sampleShare (path r) = false.
Proof.
  destruct (@mutations_never_queue_all_temp sampleShare deleteWorld) as [Hq _].
  destruct (Hq "/a/x.txt" "PUT" None) as [Heq | (r & Hr & _ & _ & Hd & _ & Hnt)].
  - vm_compute in Heq. discriminate Heq.
  - exists r. split; [exact Hr | apply Hnt; exact Hd].
Defined.

(** ** The order of a listing *)




(** What the sample merge hands to its callback. *)
Example list_order_sample :
  fst (@RQTree_list sampleShare "/a/*" mergeWorld)
  = Done (RQFiles
      [ remoteEntry {| getPath := "/a/y.txt"; isDirectory := false |};
        syncedEntry {| getPath := "/a/x.txt"; isDirectory := false |}
                                 {| getPath := "/a/x.txt"; isDirectory := false |};
        @localEntry sampleShare {| getPath := "/a/~lock"; isDirectory := false |};
        @localEntry sampleShare {| getPath := "/a/new.txt"; isDirectory := false |} ]).
Proof. vm_compute. reflexivity. Qed.



(** * Further properties *)

(** ** Reads are served locally where they can *)

(** X1.  [exists] is served from the local tree: for a name that the local
    tree holds it answers yes without a call to the remote tree, so also
    when the remote tree cannot be reached.  [open] is not: it asks the
    remote tree first, and an error of that call is what the callback gets,
    whether or not the local tree holds the name. *)
Theorem exists_is_local_first_open_is_not `{Env} (name : string) (w : World) :
  (fs_has (local w) name = true →
   faults w (FsStat Local name) = None →
   fst (RQTree_exists name w) = Done true ∧
   remoteCalls (trace (snd (RQTree_exists name w))) = remoteCalls (trace w)) ∧
  (∀ e, faults w (DamExists name) = Some e →
        RQTree_open name w = (Fail e, record (DamExists name) w)).
Proof.
  split.
  - intros Hhas F. unfold RQTree_exists, FSTree_exists, bind, call, ret.
    rewrite F. wsimpl. rewrite Hhas. wsimpl. split; [reflexivity |].
    rewrite remoteCalls_app. cbn. apply app_nil_r.
  - intros e F. unfold RQTree_open, DAMTree_exists, bind, call. now rewrite F.
Qed.

Lemma exists_is_local_first_open_is_not_witness :
  let w := world [dirEntry "" "/"; dirEntry "/" "a"; fileEntry "/a" "x.txt"] [] []
                 [] (λ c, match c with DamExists _ => Some RemoteError | _ => None end) in
  fst (@RQTree_exists sampleShare "/a/x.txt" w) = Done true ∧
  fst (@RQTree_open sampleShare "/a/x.txt" w) = Fail RemoteError.
Proof.
  cbn zeta.
  destruct (@exists_is_local_first_open_is_not sampleShare "/a/x.txt"
              (world [dirEntry "" "/"; dirEntry "/" "a"; fileEntry "/a" "x.txt"] [] []
                 [] (λ c, match c with DamExists _ => Some RemoteError | _ => None end)))
    as [Hex Hop].
  split.
  - apply Hex; reflexivity.
  - now rewrite (Hop RemoteError eq_refl).
Defined.

(** X2.  When every call goes through and the name exists somewhere, the
    file that [open] hands out is created under that name and is backed by
    a local handle exactly when the local tree holds the name, and by a
    remote handle exactly when the remote tree does. *)
Theorem open_handles_mirror_the_trees `{Env} (name : string) (w : World) :
  (∀ c, faults w c = None) →
  fs_has (local w) name || fs_has (remote w) name = true →
  ∃ f, fst (RQTree_open name w) = Done f ∧
       rqName f = name ∧
       localFile f = handle name <$> fs_stat (local w) name ∧
       remoteFile f = handle name <$> fs_stat (remote w) name.
Proof.
  intros F Hsome.
  unfold RQTree_open, DAMTree_exists, FSTree_exists, FSTree_open, DAMTree_open,
    FSTree_createFileInstance, FSFile_createInstance, RQFile_createInstance,
    RQFile_createInstanceFromLocal, RQFile_createInstanceFromLocalAndRemote,
    RQFile_createInstanceFromRemote, bind, call, ret, fs_has in *.
  repeat (wsimpl; rewrite ?F).
  destruct (fs_stat (remote w) name) as [kr|] eqn:Hr;
    destruct (fs_stat (local w) name) as [kl|] eqn:Hl; try discriminate;
    repeat (wsimpl; cbn [negb andb]; rewrite ?F, ?Hr, ?Hl);
    eexists; repeat split.
Qed.

Lemma open_handles_mirror_the_trees_witness :
  ∃ f, fst (@RQTree_open sampleShare "/a/x.txt" deleteWorld) = Done f ∧
       localFile f = Some (handle "/a/x.txt" RegularFile) ∧
       remoteFile f = Some (handle "/a/x.txt" RegularFile).
Proof.
  destruct (@open_handles_mirror_the_trees sampleShare "/a/x.txt" deleteWorld
              (λ c, eq_refl) eq_refl) as (f & Hf & _ & Hl & Hr).
  exists f. split; [exact Hf |]. split; [exact Hl | exact Hr].
Defined.

(** ** What [list] leaves as it was *)


(** X3.  [list] is a read: whatever it hands to its callback, it leaves
    the queue and the remote tree as they were and hands nothing to
    [queueRequest]; the local tree and the work tree lose entries at most
    (the orphans that the merge deletes, and their sidecars). *)
Theorem list_changes_nothing_but_orphans `{Env} (pattern : string) (w : World) :
  let w' := snd (RQTree_list pattern w) in
  rq w' = rq w ∧
  remote w' = remote w ∧
  createdFiles w' = createdFiles w ∧
  queuedBy (trace w') = queuedBy (trace w) ∧
  sublist (local w') (local w) ∧
  sublist (work w') (work w).
Proof.
  cbn zeta. destruct (Quiet_RQTree_list pattern w) as (?&?&?&?&?&?&?&?).
  repeat split; assumption.
Qed.

(** ** The listing and the local tree *)

(** X4.  When the local tree does not hold the directory of the pattern,
    [list] hands out the remote listing as it came: it lists nothing
    locally and does not read the queue, so that a remote entry for which
    a DELETE is pending is not hidden. *)
Theorem list_without_local_directory `{Env} (pattern : string) (w w1 : World)
    (remoteFiles : list File) :
  DAMTree_list pattern w = (Done remoteFiles, w1) →
  fs_has (local w) (parentOrEmpty pattern) = false →
  faults w (FsStat Local (parentOrEmpty pattern)) = None →
  RQTree_list pattern w
  = (Done (RemoteFiles remoteFiles), record (FsStat Local (parentOrEmpty pattern)) w1) ∧
  trace (snd (RQTree_list pattern w))
  = trace w ++ [DamList pattern; FsStat Local (parentOrEmpty pattern)].
Proof.
  intros Hr Hhas F.
  pose proof (DAMTree_list_frame pattern w) as F1. rewrite Hr in F1. cbn [snd] in F1.
  assert (Hf : faults w1 = faults w) by apply F1.
  assert (Hl : local w1 = local w) by apply F1.
  assert (Ht : trace w1 = trace w ++ [DamList pattern]).
  { unfold DAMTree_list, call in Hr. destruct (faults w (DamList pattern)); [discriminate |].
    now injection Hr as _ <-. }
  assert (Heq : RQTree_list pattern w
                = (Done (RemoteFiles remoteFiles),
                   record (FsStat Local (parentOrEmpty pattern)) w1)).
  { unfold RQTree_list. unfold bind at 1. rewrite Hr. cbv beta iota.
    unfold bind, FSTree_exists, call, ret. rewrite Hf, F. wsimpl. now rewrite Hl, Hhas. }
  split; [exact Heq |]. rewrite Heq. wsimpl. now rewrite Ht, <- app_assoc.
Qed.

Lemma list_without_local_directory_witness :
  let w := world [dirEntry "" "/"] []
                 [dirEntry "" "/"; dirEntry "/" "a"; fileEntry "/a" "gone.txt"]
                 [ {| method := "DELETE"; path := "/a/gone.txt"; destPath := None;
                      remotePrefix := ""; localPrefix := "" |} ]
                 noFaults in
  fst (@RQTree_list sampleShare "/a/*" w)
  = Done (RemoteFiles [ {| getPath := "/a/gone.txt"; isDirectory := false |} ]).
Proof.
  cbn zeta.
  pose (w := world [dirEntry "" "/"] []
                 [dirEntry "" "/"; dirEntry "/" "a"; fileEntry "/a" "gone.txt"]
                 [ {| method := "DELETE"; path := "/a/gone.txt"; destPath := None;
                      remotePrefix := ""; localPrefix := "" |} ]
                 noFaults).
  assert (Hr : @DAMTree_list sampleShare "/a/*" w
               = (Done [ {| getPath := "/a/gone.txt"; isDirectory := false |} ],
                  snd (@DAMTree_list sampleShare "/a/*" w)))
    by (vm_compute; reflexivity).
  destruct (@list_without_local_directory sampleShare "/a/*" w _ _ Hr eq_refl eq_refl)
    as [Heq _].
  fold w. now rewrite Heq.
Defined.

Section ListEntries.
Context `{Env}.

(** The local pass does not delete a file with a temporary name. *)
Lemma processLocal_keeps_temp (lookup remoteLookup : gmap string nat)
    (remoteFiles : list File) (p : string) (localFiles : list File) :
  isTempFileName (getPathName p) = true →
  ∀ (rqFiles : list RQFile) (w : World),
  fs_stat (local (snd (processLocal lookup remoteLookup remoteFiles localFiles rqFiles w))) p
  = fs_stat (local w) p.
Proof.
  intros Hp. induction localFiles as [|lf ls IH]; intros rqFiles w; [reflexivity |].
  cbn [processLocal]. unfold_local.
  break_local_goal; rewrite ?IH; wsimpl; try reflexivity.
  all: apply fs_stat_remove_ne; intros ->; unfold getName in *; congruence.
Qed.

(** The local pass pushes an entry for every temporary file. *)
Lemma mergeListing_temp (requests : option (gmap string string))
    (remoteFiles localFiles : list File) (w w' : World) (out : list RQFile) (lf : File) :
  mergeListing requests remoteFiles localFiles w = (Done out, w') →
  lf ∈ localFiles → isTempFileName (getName lf) = true →
  localEntry lf ∈ out ∧
  fs_stat (local w') (getPath lf) = fs_stat (local w) (getPath lf).
Proof.
  intros Hrun Hin Ht. unfold mergeListing in Hrun.
  assert (Hgen : ∀ lk rl rq0,
    (∀ nm k, lk !! nm = Some k → k < length rq0) →
    processLocal lk rl remoteFiles localFiles rq0 w = (Done out, w') →
    localEntry lf ∈ out ∧
    fs_stat (local w') (getPath lf) = fs_stat (local w) (getPath lf)).
  { intros lk rl rq0 Hrange Hp. split.
    - apply processLocal_shape in Hp as (kept & -> & _ & _ & Hcls); [| exact Hrange].
      apply elem_of_app. right. apply list_elem_of_fmap. exists lf. split; [reflexivity |].
      destruct (Hcls lf Hin) as [Hk | [Hf _]]; [exact Hk | congruence].
    - pose proof (processLocal_keeps_temp lk rl remoteFiles (getPath lf) localFiles Ht rq0 w)
        as Hk. now rewrite Hp in Hk. }
  destruct requests as [q|]; [| destruct remoteFiles as [|r0 rs]; [| discriminate]].
  - destruct (remoteLoop q remoteFiles 0 ([], ∅, ∅)) as [[rq1 lk] rl] eqn:Hloop.
    apply remoteLoop_weak in Hloop as (_ & Hrange & _);
      [| intros nm k Hk; now rewrite lookup_empty in Hk].
    eapply Hgen; eauto.
  - eapply Hgen; [| exact Hrun]. intros nm k Hk. now rewrite lookup_empty in Hk.
Qed.

End ListEntries.

(** X5.  Every entry of a merged listing is backed by a handle.  A local
    handle is one of a file that the local tree held when [list] was
    called; a remote handle is one of the remote listing, and (when the
    queue could be read) never one for whose name a DELETE is pending:
    a file that was created again while its DELETE is pending is listed
    through its local handle only. *)
Theorem list_entries_are_backed `{Env} (pattern : string) (w w' : World)
    (out : list RQFile) (f : RQFile) :
  RQTree_list pattern w = (Done (RQFiles out), w') →
  f ∈ out →
  (localFile f ≠ None ∨ remoteFile f ≠ None) ∧
  (∀ lf, localFile f = Some lf → fs_stat (local w) (getPath lf) ≠ None) ∧
  (∀ r, remoteFile f = Some r →
        (∃ remoteFiles, fst (DAMTree_list pattern w) = Done remoteFiles ∧ r ∈ remoteFiles) ∧
        (faults w (RqGetRequests (parentOrEmpty pattern)) = None →
         requestsOf (parentOrEmpty pattern) (rq w) !! getName r ≠ Some "DELETE")).
Proof.
  intros Hrun Hf.
  apply RQTree_list_inv in Hrun
    as (remoteFiles & Hr &
        [[_ Hno] | (_ & localFiles & w4 & out' & _ & _ & Hall & Hm & Heq)]);
    [discriminate |].
  injection Heq as <-.
  destruct (mergeListing_elem _ _ _ _ _ _ f Hm Hf)
    as [[(lf & Hin & Hlf & _) Hrem] | (r & -> & Hin & Hs)].
  - split; [left; now rewrite Hlf |]. split.
    + intros lf' Hlf'. rewrite Hlf in Hlf'. injection Hlf' as <-. now apply Hall.
    + intros r Hrf. destruct (Hrem r Hrf) as [Hin' Hs]. split; [eauto |].
      intros Hfault. rewrite Hfault in Hs. now apply Hs.
  - split; [right; discriminate |]. split; [discriminate |].
    intros r' [= <-]. split; [eauto |].
    intros Hfault. rewrite Hfault in Hs. now apply Hs.
Qed.

Lemma list_entries_are_backed_witness :
  ∃ out, fst (@RQTree_list sampleShare "/a/*" mergeWorld) = Done (RQFiles out) ∧
         ∀ f, f ∈ out → localFile f ≠ None ∨ remoteFile f ≠ None.
Proof.
  destruct (@RQTree_list sampleShare "/a/*" mergeWorld) as [[[fs | out] | e | x] w'] eqn:Hrun;
    [vm_compute in Hrun; discriminate Hrun | | vm_compute in Hrun; discriminate Hrun ..].
  exists out. split; [reflexivity |]. intros f Hf.
  exact (proj1 (@list_entries_are_backed sampleShare "/a/*" mergeWorld w' out f Hrun Hf)).
Defined.

(** X6.  A temporary file of the local listing is always in the merged
    listing, under its base name and through its local handle only,
    whatever the remote listing, the queue and the work tree hold; and
    [list] leaves it in the local tree. *)
Theorem list_shows_every_temporary_file `{Env} (pattern : string) (w w' : World)
    (out : list RQFile) (localFiles : list File) (lf : File) :
  RQTree_list pattern w = (Done (RQFiles out), w') →
  fst (FSTree_list Local pattern w) = Done localFiles →
  lf ∈ localFiles →
  isTempFileName (getName lf) = true →
  {| rqName := getName lf; localFile := Some lf; remoteFile := None |} ∈ out ∧
  fs_stat (local w') (getPath lf) = fs_stat (local w) (getPath lf).
Proof.
  intros Hrun Hl Hin Ht.
  apply RQTree_list_inv in Hrun
    as (remoteFiles & _ &
        [[_ Hno] | (_ & localFiles' & w4 & out' & Hl' & F & _ & Hm & Heq)]);
    [discriminate |].
  injection Heq as <-. rewrite Hl in Hl'. injection Hl' as <-.
  destruct (mergeListing_temp _ _ _ _ _ _ lf Hm Hin Ht) as [Hout Hstat].
  unfold localEntry in Hout. rewrite Ht in Hout. split; [exact Hout |].
  rewrite Hstat. now destruct F as [-> _].
Qed.

Lemma list_shows_every_temporary_file_witness :
  ∃ out, fst (@RQTree_list sampleShare "/a/*" tempBothWorld) = Done (RQFiles out) ∧
         {| rqName := "~lock";
            localFile := Some {| getPath := "/a/~lock"; isDirectory := false |};
            remoteFile := None |} ∈ out.
Proof.
  destruct (@RQTree_list sampleShare "/a/*" tempBothWorld)
    as [[[fs | out] | e | x] w'] eqn:Hrun;
    [vm_compute in Hrun; discriminate Hrun | | vm_compute in Hrun; discriminate Hrun ..].
  exists out. split; [reflexivity |].
  refine (proj1 (@list_shows_every_temporary_file sampleShare "/a/*" tempBothWorld w' out
                   [ {| getPath := "/a/~lock"; isDirectory := false |} ]
                   {| getPath := "/a/~lock"; isDirectory := false |} Hrun _ _ _)).
  - vm_compute. reflexivity.
  - apply list_elem_of_here.
  - reflexivity.
Defined.

(** ** [createFile] on names that are taken *)

Lemma find_app {A} (p : A → bool) (l k : list A) :
  find p (l ++ k) = match find p l with Some y => Some y | None => find p k end.
Proof. induction l as [|a l IH]; cbn; [reflexivity |]. now destruct (p a). Qed.

Lemma fs_stat_app_l `{Env} (fs extra : list DirEntry) (p : string) (k : Kind) :
  fs_stat fs p = Some k → fs_stat (fs ++ extra) p = Some k.
Proof.
  unfold fs_stat, fs_find. rewrite find_app.
  destruct (find _ fs); [trivial | discriminate].
Qed.

Lemma mkdirp_unfold `{Env} (fuel : nat) (fs : list DirEntry) (dir : string) :
  mkdirp fuel fs dir =
  match fs_stat fs dir with
  | Some _ => fs
  | None =>
    match fuel, getParentPath dir with
    | S k, Some up => mkdirp k fs up ++ [fs_entry dir Directory]
    | _, _ => fs ++ [fs_entry dir Directory]
    end
  end.
Proof. destruct fuel; reflexivity. Qed.

Lemma mkdirp_extends `{Env} (fuel : nat) :
  ∀ (fs : list DirEntry) (dir : string), ∃ extra, mkdirp fuel fs dir = fs ++ extra.
Proof.
  induction fuel as [|n IH]; intros fs dir; rewrite mkdirp_unfold.
  - destruct (fs_stat fs dir); [exists []; now rewrite app_nil_r |]. eauto.
  - destruct (fs_stat fs dir); [exists []; now rewrite app_nil_r |].
    destruct (getParentPath dir) as [up|]; [| eauto].
    destruct (IH fs up) as [extra ->]. rewrite <- app_assoc. eauto.
Qed.

Lemma fs_stat_mkdirp `{Env} (fuel : nat) (fs : list DirEntry) (dir p : string) (k : Kind) :
  fs_stat fs p = Some k → fs_stat (mkdirp fuel fs dir) p = Some k.
Proof.
  intros Hp. destruct (mkdirp_extends fuel fs dir) as [extra ->].
  now apply fs_stat_app_l.
Qed.

(** X7.  [createFile] is exclusive: for a name that the local tree already
    holds it fails with [AlreadyExists], and it has then created no marker,
    recorded nothing in [createdFiles] and left the queue and the existing
    entry as they were. *)
Theorem createFile_refuses_existing_name `{Env} (name : string) (k : Kind) (w : World) :
  fs_stat (local w) name = Some k →
  faults w (Mkdirp Local (parentOrEmpty name)) = None →
  faults w (FsOpenWx Local name) = None →
  let out := RQTree_createFile name w in
  fst out = Fail AlreadyExists ∧
  fs_stat (local (snd out)) name = Some k ∧
  work (snd out) = work w ∧
  createdFiles (snd out) = createdFiles w ∧
  rq (snd out) = rq w.
Proof.
  intros Hk F1 F2. cbn zeta.
  unfold RQTree_createFile, FSTree_createFile, bind, call.
  rewrite F1. wsimpl. rewrite F2. wsimpl.
  rewrite (fs_stat_mkdirp _ _ _ _ _ Hk). wsimpl.
  repeat split. now apply fs_stat_mkdirp.
Qed.

Lemma createFile_refuses_existing_name_witness :
  fst (@RQTree_createFile sampleShare "/a/x.txt" deleteWorld) = Fail AlreadyExists.
Proof.
  apply (@createFile_refuses_existing_name sampleShare "/a/x.txt" RegularFile deleteWorld);
    reflexivity.
Defined.

(** X8.  [createFile] does not undo what it has done.  When the local file
    has been created and the marker cannot be (the work tree already holds
    one for the name), the callback gets the error of the work tree, and
    the new file stays in the local tree, without being recorded in
    [createdFiles]. *)
Theorem createFile_keeps_the_file_when_the_marker_fails `{Env}
    (name : string) (k : Kind) (f : File) (w w1 : World) :
  FSTree_createFile Local name w = (Done f, w1) →
  fs_stat (work w) (getCreateFileName name) = Some k →
  faults w (Mkdirp Work (parentOrEmpty (getCreateFileName name))) = None →
  faults w (FsOpenWx Work (getCreateFileName name)) = None →
  let out := RQTree_createFile name w in
  fst out = Fail AlreadyExists ∧
  fs_stat (local (snd out)) name = Some RegularFile ∧
  createdFiles (snd out) = createdFiles w ∧
  rq (snd out) = rq w.
Proof.
  intros Hrun Hk F1 F2. cbn zeta.
  assert (Hw : work w1 = work w ∧ faults w1 = faults w ∧
               createdFiles w1 = createdFiles w ∧ rq w1 = rq w ∧
               fs_stat (local w1) name = Some RegularFile).
  { pose proof Hrun as Hrun'.
    unfold FSTree_createFile, FSTree_createFileInstance, FSFile_createInstance,
      bind, call, ret in Hrun'.
    break_run Hrun'. injection Hrun' as <- <-.
    destruct (fs_stat_app_new _ _ _ _ Hstat Hstat0) as [Hkind _].
    wsimpl. repeat split. now rewrite Hstat0, Hkind. }
  destruct Hw as (Hw1 & Hf & Hc & Hq & Hl).
  assert (Heq : ∃ w2, RQTree_createFile name w = (Fail AlreadyExists, w2) ∧
                      local w2 = local w1 ∧ createdFiles w2 = createdFiles w1 ∧
                      rq w2 = rq w1).
  { unfold RQTree_createFile. unfold bind at 1. rewrite Hrun. cbv beta iota.
    unfold FSTree_createFile, bind, call.
    repeat (wsimpl; rewrite ?Hf, ?F1, ?F2, ?Hw1, ?(fs_stat_mkdirp _ _ _ _ _ Hk)).
    eexists. split; [reflexivity |]. wsimpl. repeat split. }
  destruct Heq as (w2 & -> & Hl2 & Hc2 & Hq2). cbn [fst snd].
  split; [reflexivity |]. split; [now rewrite Hl2 |]. split; congruence.
Qed.

Lemma createFile_keeps_the_file_when_the_marker_fails_witness :
  let w := world [dirEntry "" "/"; dirEntry "/" "a"]
                 [dirEntry "" "/"; dirEntry "/" "a"; fileEntry "/a" "x.txt.rqcf"]
                 [dirEntry "" "/"; dirEntry "/" "a"] [] noFaults in
  let out := @RQTree_createFile sampleShare "/a/x.txt" w in
  fst out = Fail AlreadyExists ∧
  @fs_stat sampleShare (local (snd out)) "/a/x.txt" = Some RegularFile.
Proof.
  cbn zeta.
  pose (w := world [dirEntry "" "/"; dirEntry "/" "a"]
                 [dirEntry "" "/"; dirEntry "/" "a"; fileEntry "/a" "x.txt.rqcf"]
                 [dirEntry "" "/"; dirEntry "/" "a"] [] noFaults).
  assert (Hrun : @FSTree_createFile sampleShare Local "/a/x.txt" w
                 = (Done (handle "/a/x.txt" RegularFile),
                    snd (@FSTree_createFile sampleShare Local "/a/x.txt" w)))
    by (vm_compute; reflexivity).
  destruct (@createFile_keeps_the_file_when_the_marker_fails sampleShare "/a/x.txt"
              RegularFile _ w _ Hrun eq_refl eq_refl eq_refl) as (Hf & Hl & _).
  fold w. split; assumption.
Defined.

(** ** The file-system tree *)

(** X9.  After a successful [delete] of the file-system tree the name is
    gone from the tree and every other name is as it was; deleting it a
    second time fails with [NotFound] and changes nothing. *)
Theorem FSTree_delete_then_gone `{Env} (t : Tree) (name : string) (w w1 : World) :
  FSTree_delete t name w = (Done tt, w1) →
  fs_stat (treeOf t w1) name = None ∧
  (∀ other, other ≠ name → fs_stat (treeOf t w1) other = fs_stat (treeOf t w) other) ∧
  fst (FSTree_delete t name w1) = Fail NotFound ∧
  treeOf t (snd (FSTree_delete t name w1)) = treeOf t w1.
Proof.
  intros Hrun. unfold FSTree_delete, call in *.
  destruct (faults w (FsUnlink t name)) eqn:F; [discriminate |].
  destruct (fs_stat (treeOf t (record (FsUnlink t name) w)) name) as [[|]|] eqn:Hk;
    try discriminate.
  injection Hrun as <-.
  assert (Hgone : fs_stat (treeOf t (setTree t (fs_remove (treeOf t (record (FsUnlink t name) w)) name)
                                       (record (FsUnlink t name) w))) name = None).
  { destruct t; wsimpl; apply fs_stat_remove_eq. }
  split; [exact Hgone |]. split.
  - intros other Hne. destruct t; wsimpl; now apply fs_stat_remove_ne.
  - wsimpl. rewrite F.
    replace (treeOf t (record (FsUnlink t name)
               (setTree t (fs_remove (treeOf t (record (FsUnlink t name) w)) name)
                  (record (FsUnlink t name) w))))
      with (treeOf t (setTree t (fs_remove (treeOf t (record (FsUnlink t name) w)) name)
                        (record (FsUnlink t name) w)))
      by now destruct t.
    rewrite Hgone. split; [reflexivity | now destruct t].
Qed.

Lemma FSTree_delete_then_gone_witness :
  let w1 := snd (@FSTree_delete sampleShare Local "/a/x.txt" deleteWorld) in
  @fs_stat sampleShare (local w1) "/a/x.txt" = None ∧
  fst (@FSTree_delete sampleShare Local "/a/x.txt" w1) = Fail NotFound.
Proof.
  cbn zeta.
  assert (Hrun : @FSTree_delete sampleShare Local "/a/x.txt" deleteWorld
                 = (Done tt, snd (@FSTree_delete sampleShare Local "/a/x.txt" deleteWorld)))
    by (vm_compute; reflexivity).
  destruct (@FSTree_delete_then_gone sampleShare Local "/a/x.txt" deleteWorld _ Hrun)
    as (Hg & _ & Hf & _).
  split; [exact Hg | exact Hf].
Defined.

Section Listing.
Context `{Env}.

Lemma fs_stat_of_entry (fs : list DirEntry) (dir name : string) :
  name ∈ fs_readdir fs dir → fs_stat fs (pathJoin dir name) ≠ None.
Proof.
  unfold fs_readdir, fs_stat, fs_find. intros Hin.
  apply list_elem_of_fmap in Hin as (e & -> & He).
  apply (list_elem_of_filter (λ e, d_dir e = dir)) in He as [<- He].
  destruct (find _ fs) eqn:Hfind; [discriminate |].
  apply list_elem_of_In in He.
  pose proof (find_none _ _ Hfind _ He) as Hno. cbn in Hno.
  now rewrite bool_decide_eq_true_2 in Hno.
Qed.

Lemma createInstances_total (t : Tree) (g : string → string) (names : list string) :
  ∀ w : World,
  (∀ c, faults w c = None) →
  (∀ n, n ∈ names → fs_stat (treeOf t w) (g n) ≠ None) →
  ∃ files, fst (mapM (λ name, FSTree_createFileInstance t (g name)) names w) = Done files ∧
           getPath <$> files = g <$> names.
Proof.
  induction names as [|n names IH]; intros w F Hall.
  - exists []. split; reflexivity.
  - cbn [mapM]. unfold FSTree_createFileInstance at 1, FSFile_createInstance, bind, call, ret.
    rewrite F.
    assert (Ht : treeOf t (record (FSFileCreateInstance t (g n)) w) = treeOf t w)
      by now destruct t.
    rewrite Ht.
    destruct (fs_stat (treeOf t w) (g n)) as [k|] eqn:Hk.
    2:{ exfalso. apply (Hall n); [apply list_elem_of_here | exact Hk]. }
    destruct (IH (record (FSFileCreateInstance t (g n)) w)) as (files & Hfiles & Hpaths).
    + intros c. wsimpl. apply F.
    + intros m Hm. rewrite Ht. apply Hall. now apply list_elem_of_further.
    + destruct (mapM _ names _) as [[fs' | e | x] w']; cbn [fst] in Hfiles; try discriminate.
      injection Hfiles as ->. exists (handle (g n) k :: files). split; [reflexivity |].
      rewrite !fmap_cons, Hpaths. reflexivity.
Qed.

End Listing.

(** X10.  The listing of a directory of the file-system tree (when every
    call goes through) holds one handle for each entry of the directory
    whose name matches the pattern, in the order of [readdir], under the
    path of the directory joined with the name.  For the pattern [*] these
    are all the entries; for any other pattern they are the entries whose
    name is equal to it after NFKD normalisation. *)
Theorem FSTree_list_matching_entries `{Env} (t : Tree) (pattern : string) (w : World) :
  (∀ c, faults w c = None) →
  fs_stat (treeOf t w) (parentOrEmpty pattern) = Some Directory →
  let names := fs_readdir (treeOf t w) (parentOrEmpty pattern) in
  ∃ files,
    fst (FSTree_list t pattern w) = Done files ∧
    getPath <$> files
    = pathJoin (parentOrEmpty pattern) <$> matchingNames (getPathName pattern) names ∧
    (getPathName pattern = "*" → length files = length names) ∧
    (getPathName pattern ≠ "*" →
     ∀ name, name ∈ matchingNames (getPathName pattern) names ↔
             name ∈ names ∧ nfkd name = nfkd (getPathName pattern)).
Proof.
  intros F Hdir names.
  assert (Ht : treeOf t (record (FsReaddir t (parentOrEmpty pattern)) w) = treeOf t w)
    by now destruct t.
  destruct (createInstances_total t (pathJoin (parentOrEmpty pattern))
              (matchingNames (getPathName pattern) names)
              (record (FsReaddir t (parentOrEmpty pattern)) w))
    as (files & Hfiles & Hpaths).
  { intros c. wsimpl. apply F. }
  { intros n Hn. rewrite Ht. apply fs_stat_of_entry.
    unfold matchingNames in Hn. destruct (bool_decide _); [exact Hn |].
    apply list_elem_of_In, filter_In in Hn as [Hn _]. now apply list_elem_of_In. }
  exists files. split; [| split; [exact Hpaths | split]].
  - unfold FSTree_list, bind, call. rewrite F, Ht, Hdir. exact Hfiles.
  - intros Hstar.
    assert (Hlen : length (getPath <$> files) = length names).
    { rewrite Hpaths, length_fmap. unfold matchingNames.
      now rewrite bool_decide_eq_true_2 by exact Hstar. }
    now rewrite length_fmap in Hlen.
  - intros Hne name. unfold matchingNames.
    rewrite bool_decide_eq_false_2 by exact Hne.
    rewrite list_elem_of_In, filter_In, <- list_elem_of_In.
    unfold unicodeEquals. now rewrite bool_decide_eq_true.
Qed.

Lemma FSTree_list_matching_entries_witness :
  (∃ files, fst (@FSTree_list sampleShare Local "/a/*" mergeWorld) = Done files ∧
            getPath <$> files = ["/a/x.txt"; "/a/~lock"; "/a/new.txt"; "/a/old.txt"]) ∧
  (∃ files, fst (@FSTree_list sampleShare Local ("/a/" +:+ cafeNFC) cafeWorld) = Done files ∧
            getPath <$> files = ["/a/" +:+ cafeNFD]).
Proof.
  split.
  - destruct (@FSTree_list_matching_entries sampleShare Local "/a/*" mergeWorld
                (λ c, eq_refl) eq_refl) as (files & Hf & Hp & _).
    exists files. split; [exact Hf | exact Hp].
  - destruct (@FSTree_list_matching_entries sampleShare Local ("/a/" +:+ cafeNFC) cafeWorld
                (λ c, eq_refl) eq_refl) as (files & Hf & Hp & _).
    exists files. split; [exact Hf | exact Hp].
Defined.

(** ** Mutations and their failures *)

(** X11.  An error while the sidecars of a deleted file are removed does
    not fail [delete]: the file is gone from the local tree, the callback
    gets no error, the error is the last line of the log, and the work
    tree is left as it was (a creation marker of the file stays). *)
Theorem delete_swallows_cleanup_errors `{Env} (name : string) (e : SMBError) (w : World) :
  fs_stat (local w) name = Some RegularFile →
  faults w (FsStat Local name) = None →
  faults w (FsUnlink Local name) = None →
  faults w (RQFileDeleteWorkFiles name) = Some e →
  let out := RQTree_delete name w in
  fst out = Done tt ∧
  fs_stat (local (snd out)) name = None ∧
  work (snd out) = work w ∧
  ∃ lines, logs (snd out) = lines ++ [ErrorCleanUpAfterDeletion e].
Proof.
  intros Hk F1 F2 F3. cbn zeta.
  unfold RQTree_delete, logger, FSTree_exists, FSTree_delete, DAMTree_delete,
    RQFile_deleteWorkFiles, invalidateContentCache, bind, call, ret, fs_has.
  repeat (hsimpl; rewrite ?F1, ?F2, ?Hk).
  match goal with
  | |- context [RQTree_queueData name "DELETE" None ?wm] =>
    destruct (queueData_cases name "DELETE" None wm) as [Hfst Hc];
    destruct (RQTree_queueData name "DELETE" None wm) as [o wq]
  end.
  cbn [fst snd] in Hfst, Hc. subst o.
  destruct Hc as [[_ ->] | [(_ & _ & ->) | (_ & err & _ & ->)]];
    hsimpl; rewrite F3; hsimpl;
    (split; [reflexivity |]); (split; [apply fs_stat_remove_eq |]);
    (split; [reflexivity |]); eexists; reflexivity.
Qed.

Lemma delete_swallows_cleanup_errors_witness :
  let w := world [dirEntry "" "/"; dirEntry "/" "a"; fileEntry "/a" "x.txt"]
                 [dirEntry "" "/"; dirEntry "/" "a"; fileEntry "/a" "x.txt.rqcf"]
                 [dirEntry "" "/"; dirEntry "/" "a"] []
                 (λ c, match c with RQFileDeleteWorkFiles _ => Some Io | _ => None end) in
  let out := @RQTree_delete sampleShare "/a/x.txt" w in
  fst out = Done tt ∧
  @fs_stat sampleShare (work (snd out)) "/a/x.txt.rqcf" = Some RegularFile.
Proof.
  cbn zeta.
  destruct (@delete_swallows_cleanup_errors sampleShare "/a/x.txt" Io
              (world [dirEntry "" "/"; dirEntry "/" "a"; fileEntry "/a" "x.txt"]
                 [dirEntry "" "/"; dirEntry "/" "a"; fileEntry "/a" "x.txt.rqcf"]
                 [dirEntry "" "/"; dirEntry "/" "a"] []
                 (λ c, match c with RQFileDeleteWorkFiles _ => Some Io | _ => None end))
              eq_refl eq_refl eq_refl eq_refl) as (Hd & _ & Hw & _).
  split; [exact Hd |]. rewrite Hw. reflexivity.
Defined.

(** X12.  For a name that the local tree does not hold, [delete] and
    [rename] are carried out on the remote tree at once: the callback gets
    what the remote tree answers (its error too), nothing is handed to the
    queue, and the local tree, the work tree and the queue are left as
    they were. *)
Theorem uncached_mutations_go_to_the_remote `{Env} (name newName : string) (w : World) :
  fs_has (local w) name = false →
  faults w (FsStat Local name) = None →
  (fst (RQTree_delete name w)
   = fst (DAMTree_delete name (record (FsStat Local name) (addLog (InfoTreeDelete name) w))) ∧
   fst (RQTree_rename name newName w)
   = fst (DAMTree_rename name newName (record (FsStat Local name) w))) ∧
  (∀ w', w' = snd (RQTree_delete name w) ∨ w' = snd (RQTree_rename name newName w) →
         local w' = local w ∧ work w' = work w ∧ rq w' = rq w ∧
         queuedBy (trace w') = queuedBy (trace w)).
Proof.
  intros Hhas F.
  assert (Hd : RQTree_delete name w
               = DAMTree_delete name (record (FsStat Local name) (addLog (InfoTreeDelete name) w))).
  { unfold RQTree_delete, logger, FSTree_exists, bind, call. wsimpl. rewrite F. wsimpl.
    now rewrite Hhas. }
  assert (Hr : RQTree_rename name newName w
               = DAMTree_rename name newName (record (FsStat Local name) w)).
  { unfold RQTree_rename, FSTree_exists, bind, call. rewrite F. wsimpl. now rewrite Hhas. }
  split; [now rewrite Hd, Hr |].
  intros w' [-> | ->]; [rewrite Hd | rewrite Hr];
    unfold DAMTree_delete, DAMTree_rename, call; break_goal;
    repeat split; count_calls.
Qed.

Lemma uncached_mutations_go_to_the_remote_witness :
  let w := world [dirEntry "" "/"; dirEntry "/" "a"] []
                 [dirEntry "" "/"; dirEntry "/" "a"; fileEntry "/a" "y.txt"] [] noFaults in
  let out := @RQTree_delete sampleShare "/a/y.txt" w in
  fst out = Done tt ∧ rq (snd out) = [] ∧
  @fs_stat sampleShare (remote (snd out)) "/a/y.txt" = None.
Proof.
  cbn zeta.
  pose (w := world [dirEntry "" "/"; dirEntry "/" "a"] []
                 [dirEntry "" "/"; dirEntry "/" "a"; fileEntry "/a" "y.txt"] [] noFaults).
  destruct (@uncached_mutations_go_to_the_remote sampleShare "/a/y.txt" "/a/z.txt" w
              eq_refl eq_refl) as [[Hd _] Hsame].
  destruct (Hsame _ (or_introl eq_refl)) as (_ & _ & Hq & _).
  fold w. split; [rewrite Hd; vm_compute; reflexivity |].
  split; [exact Hq | vm_compute; reflexivity].
Defined.

(** X13.  The queue only changes for mutations that report success:
    when [delete] or [rename] hands an error to its callback, the queue is
    as it was and nothing has been handed to [queueRequest]; [createFile]
    never touches the queue at all. *)
Theorem failed_mutations_leave_the_queue `{Env} (w : World) :
  (∀ name e, fst (RQTree_delete name w) = Fail e →
             rq (snd (RQTree_delete name w)) = rq w ∧
             queuedBy (trace (snd (RQTree_delete name w))) = queuedBy (trace w)) ∧
  (∀ oldName newName e,
     fst (RQTree_rename oldName newName w) = Fail e →
     rq (snd (RQTree_rename oldName newName w)) = rq w ∧
     queuedBy (trace (snd (RQTree_rename oldName newName w))) = queuedBy (trace w)) ∧
  (∀ name, rq (snd (RQTree_createFile name w)) = rq w ∧
           queuedBy (trace (snd (RQTree_createFile name w))) = queuedBy (trace w)).
Proof.
  split; [| split].
  - intros name e.
    unfold RQTree_delete, logger, FSTree_exists, FSTree_delete, DAMTree_delete,
      RQFile_deleteWorkFiles, invalidateContentCache, bind, call, ret.
    break_queue; intros Hfail; try discriminate Hfail; split; count_calls.
  - intros oldName newName e.
    unfold RQTree_rename, FSTree_exists, FSTree_rename, FSFile_createInstance,
      invalidateContentCache, DAMTree_rename, RequestQueue_updatePath,
      bind, call, ret.
    break_queue; intros Hfail; try discriminate Hfail; split; count_calls.
  - intros name.
    unfold RQTree_createFile, FSTree_createFile, FSTree_createFileInstance,
      FSFile_createInstance, RQFile_createInstanceFromLocal,
      invalidateContentCache, bind, call, ret.
    break_queue; split; count_calls.
Qed.

Lemma failed_mutations_leave_the_queue_witness :
  let w := world [dirEntry "" "/"; dirEntry "/" "a"; dirEntry "/a" "d"] []
                 [dirEntry "" "/"; dirEntry "/" "a"] [] noFaults in
  fst (@RQTree_rename sampleShare "/a/d" "/a/e" w) = Fail NotFound ∧
  rq (snd (@RQTree_rename sampleShare "/a/d" "/a/e" w)) = [].
Proof.
  cbn zeta.
  pose (w := world [dirEntry "" "/"; dirEntry "/" "a"; dirEntry "/a" "d"] []
                 [dirEntry "" "/"; dirEntry "/" "a"] [] noFaults).
  destruct (@failed_mutations_leave_the_queue sampleShare w) as (_ & Hr & _).
  assert (Hfail : fst (@RQTree_rename sampleShare "/a/d" "/a/e" w) = Fail NotFound)
    by (vm_compute; reflexivity).
  fold w. split; [exact Hfail | exact (proj1 (Hr _ _ _ Hfail))].
Defined.

(** ** The directory operations *)

Ltac dsimpl :=
  unfold RQTree_deleteDirectory, RQTree_createDirectory, FSTree_deleteDirectory,
    FSTree_createDirectory, DAMTree_deleteDirectory, DAMTree_createDirectory,
    RequestQueue_removePath, FSTree_createFileInstance, FSFile_createInstance,
    FSTree_exists, dirCall, bind, call, ret.

Ltac break_dir :=
  repeat (hsimpl;
    match goal with
    | |- context [match faults ?w ?c with _ => _ end] =>
      let E := fresh "Hfault" in destruct (faults w c) eqn:E
    | |- context [match dirFaults ?c with _ => _ end] =>
      let E := fresh "Hdir" in destruct (dirFaults c) eqn:E
    | |- context [match fs_stat ?fs ?p with _ => _ end] =>
      let E := fresh "Hstat" in destruct (fs_stat fs p) eqn:E
    | |- context [if fs_has ?fs ?p then _ else _] =>
      let E := fresh "Hhas" in destruct (fs_has fs p) eqn:E
    | |- context [match fs_readdir ?fs ?p with _ => _ end] =>
      let E := fresh "Hdir" in destruct (fs_readdir fs p) eqn:E
    | |- context [match ?k with RegularFile => _ | Directory => _ end] =>
      is_var k; destruct k
    end).

Ltac hsimpl_all :=
  cbn [faults local work remote rq createdFiles openFiles logs trace healQueue
       record setTree setRemote setRq setCreatedFiles addLog treeOf fst snd
       isDirectory handle] in *.

(** X14.  [deleteDirectory] of a name the local tree contains goes step by
    step, and a step that fails leaves the later ones undone: the remote
    tree changes only when the local tree has lost the name, the queue
    changes only when the local and the remote tree have both lost it, and
    the work tree changes only when, moreover, the queue has been purged
    of the entries whose key begins with the name. *)
Theorem deleteDirectory_steps_in_order `{Env} `{DirFaults} (name : string) (w : World) :
  fs_has (local w) name = true →
  faults w (FsStat Local name) = None →
  let w' := snd (RQTree_deleteDirectory name w) in
  let gone := fs_stat (local w') name = None in
  let goneRemote := fs_stat (remote w') name = None in
  let purged := rq w' = filter (λ r, String.prefix name (requestKey r) = false) (rq w) in
  (remote w' = remote w ∨ gone) ∧
  (rq w' = rq w ∨ gone ∧ goneRemote) ∧
  (work w' = work w ∨ gone ∧ goneRemote ∧ purged).
Proof.
  intros Hhas Hf. cbv zeta. dsimpl. rewrite Hf. hsimpl. rewrite Hhas.
  break_dir; repeat split; try (left; reflexivity); right;
    repeat split; try reflexivity; apply fs_stat_remove_eq.
Qed.

Lemma deleteDirectory_steps_in_order_witness :
  let w' := snd (@RQTree_deleteDirectory sampleShare remoteDirFaults "/a/d" folderWorld) in
  (remote w' = remote folderWorld ∨ @fs_stat sampleShare (local w') "/a/d" = None) ∧
  (rq w' = rq folderWorld ∨
   @fs_stat sampleShare (local w') "/a/d" = None ∧
   @fs_stat sampleShare (remote w') "/a/d" = None) ∧
  (work w' = work folderWorld ∨
   @fs_stat sampleShare (local w') "/a/d" = None ∧
   @fs_stat sampleShare (remote w') "/a/d" = None ∧
   rq w' = filter (λ r, String.prefix "/a/d" (@requestKey sampleShare r) = false)
                  (rq folderWorld)).
Proof.
  exact (@deleteDirectory_steps_in_order sampleShare remoteDirFaults "/a/d" folderWorld
           eq_refl eq_refl).
Defined.

(** X15.  After a successful [deleteDirectory] of a name the local tree
    contains, none of the three trees contains the name, and the queue
    holds exactly its former entries whose key does not begin with the
    name, in their former order. *)
Theorem deleteDirectory_postcondition `{Env} `{DirFaults} (name : string) (w w' : World) :
  fs_has (local w) name = true →
  RQTree_deleteDirectory name w = (Done tt, w') →
  fs_stat (local w') name = None ∧
  fs_stat (remote w') name = None ∧
  fs_stat (work w') name = None ∧
  rq w' = filter (λ r, String.prefix name (requestKey r) = false) (rq w) ∧
  (∀ r, r ∈ rq w' → String.prefix name (requestKey r) = false).
Proof.
  intros Hhas Hrun.
  assert (Hq : ∀ q : list Request,
    ∀ r, r ∈ filter (λ r, String.prefix name (requestKey r) = false) q →
         String.prefix name (requestKey r) = false).
  { intros q r Hr.
    apply (list_elem_of_filter (λ r, String.prefix name (requestKey r) = false)) in Hr.
    exact (proj1 Hr). }
  revert Hrun. dsimpl. break_dir; intros Hrun; try discriminate Hrun;
    try (hsimpl_all; congruence);
    injection Hrun as <-; hsimpl;
    repeat split; try apply fs_stat_remove_eq; try apply Hq;
    match goal with
    | E : fs_has ?fs ?p = false |- fs_stat ?fs ?p = None =>
      unfold fs_has in E; destruct (fs_stat fs p); [discriminate E | reflexivity]
    end.
Qed.

Lemma deleteDirectory_postcondition_witness :
  let w' := snd (@RQTree_deleteDirectory sampleShare noDirFaults "/a/d" folderWorld) in
  @fs_stat sampleShare (local w') "/a/d" = None ∧
  @fs_stat sampleShare (remote w') "/a/d" = None ∧
  @fs_stat sampleShare (work w') "/a/d" = None ∧
  rq w' = filter (λ r, String.prefix "/a/d" (@requestKey sampleShare r) = false)
                 (rq folderWorld) ∧
  (∀ r, r ∈ rq w' → String.prefix "/a/d" (@requestKey sampleShare r) = false).
Proof.
  assert (Hrun : @RQTree_deleteDirectory sampleShare noDirFaults "/a/d" folderWorld
                 = (Done tt, snd (@RQTree_deleteDirectory sampleShare noDirFaults
                                    "/a/d" folderWorld)))
    by (vm_compute; reflexivity).
  exact (@deleteDirectory_postcondition sampleShare noDirFaults "/a/d" folderWorld _
           eq_refl Hrun).
Defined.

(** X16.  [deleteDirectory] refuses a local directory that has an entry:
    the callback gets [NotEmpty], and the call stops at the local tree: the
    trees and the queue are as before, the remote tree's too, and the
    trace has gained the [fs.stat] of the name only. *)
Theorem deleteDirectory_refuses_a_folder_with_entries `{Env} `{DirFaults}
    (name child : string) (w : World) :
  fs_stat (local w) name = Some Directory →
  child ∈ fs_readdir (local w) name →
  faults w (FsStat Local name) = None →
  dirFaults (FsRmdir Local name) = None →
  FSTree_deleteDirectory Local name w = (Fail NotEmpty, w) ∧
  RQTree_deleteDirectory name w = (Fail NotEmpty, record (FsStat Local name) w).
Proof.
  intros Hstat Hchild Hf Hd.
  dsimpl. rewrite Hf, Hd. hsimpl. unfold fs_has. rewrite Hstat. hsimpl.
  rewrite Hstat. destruct (fs_readdir (local w) name) as [|c cs].
  - apply elem_of_nil in Hchild as [].
  - split; reflexivity.
Qed.

Lemma deleteDirectory_refuses_a_folder_with_entries_witness :
  @RQTree_deleteDirectory sampleShare noDirFaults "/a" folderWorld
  = (Fail NotEmpty, record (FsStat Local "/a") folderWorld).
Proof.
  refine (proj2 (@deleteDirectory_refuses_a_folder_with_entries sampleShare noDirFaults
                   "/a" "d" folderWorld eq_refl _ eq_refl eq_refl)).
  vm_compute. apply list_elem_of_here.
Defined.

(** X17.  [deleteDirectory] of a name the local tree does not contain is
    the remote tree's [deleteDirectory] and no more: the callback gets its
    answer, and the local tree, the work tree and the queue stay as they
    were, whatever the queue holds below the name. *)
Theorem deleteDirectory_uncached_goes_to_the_remote `{Env} `{DirFaults}
    (name : string) (w : World) :
  fs_has (local w) name = false →
  faults w (FsStat Local name) = None →
  let out := RQTree_deleteDirectory name w in
  fst out = fst (DAMTree_deleteDirectory name w) ∧
  remote (snd out) = remote (snd (DAMTree_deleteDirectory name w)) ∧
  local (snd out) = local w ∧ work (snd out) = work w ∧ rq (snd out) = rq w.
Proof.
  intros Hhas Hf. cbv zeta. dsimpl. rewrite Hf. hsimpl. rewrite Hhas.
  break_dir; repeat split; reflexivity.
Qed.

Lemma deleteDirectory_uncached_goes_to_the_remote_witness :
  let out := @RQTree_deleteDirectory sampleShare noDirFaults "/a/e" folderWorld in
  fst out = Fail NotFound ∧ rq (snd out) = rq folderWorld.
Proof.
  cbv zeta.
  destruct (@deleteDirectory_uncached_goes_to_the_remote sampleShare noDirFaults
              "/a/e" folderWorld eq_refl eq_refl) as (Hout & _ & _ & _ & Hrq).
  split; [rewrite Hout; reflexivity | exact Hrq].
Defined.

(** [mkdirp] adds directories only. *)
Lemma mkdirp_extends_dirs `{Env} (fuel : nat) :
  ∀ (fs : list DirEntry) (dir : string),
  ∃ extra, mkdirp fuel fs dir = fs ++ extra ∧ Forall (λ e, d_kind e = Directory) extra.
Proof.
  induction fuel as [|n IH]; intros fs dir; rewrite mkdirp_unfold.
  - destruct (fs_stat fs dir).
    + exists []. now rewrite app_nil_r.
    + eexists. split; [reflexivity |]. now repeat constructor.
  - destruct (fs_stat fs dir).
    + exists []. now rewrite app_nil_r.
    + destruct (getParentPath dir) as [up|].
      * destruct (IH fs up) as (extra & -> & Hall). rewrite <- app_assoc.
        eexists. split; [reflexivity |].
        apply Forall_app. split; [exact Hall | now repeat constructor].
      * eexists. split; [reflexivity |]. now repeat constructor.
Qed.

Lemma fs_stat_app_dirs `{Env} (fs extra : list DirEntry) (p : string) (k : Kind) :
  Forall (λ e, d_kind e = Directory) extra →
  fs_stat fs p ≠ Some RegularFile →
  fs_stat (fs ++ extra) p = Some k → k = Directory.
Proof.
  intros Hall Hfs. unfold fs_stat, fs_find in *. rewrite find_app.
  destruct (find _ fs) as [e|] eqn:E.
  - cbn in *. intros [= <-]. destruct (d_kind e); [congruence | reflexivity].
  - intros Hk. destruct (find _ extra) as [e|] eqn:E'; [| discriminate Hk].
    cbn in Hk. injection Hk as <-.
    apply find_some in E' as [Hin _].
    rewrite Forall_forall in Hall. apply Hall. now apply list_elem_of_In.
Qed.

(** What a successful [createDirectory] of a file-system tree has done. *)
Lemma FSTree_createDirectory_inv `{Env} (t : Tree) (name : string) (w w1 : World) (f : File) :
  FSTree_createDirectory t name w = (Done f, w1) →
  f = handle name Directory ∧
  fs_stat (treeOf t w1) name = Some Directory ∧
  (∃ extra, treeOf t w1 = treeOf t w ++ extra ∧ Forall (λ e, d_kind e = Directory) extra) ∧
  faults w (Mkdirp t name) = None ∧
  faults w (FSFileCreateInstance t name) = None ∧
  faults w1 = faults w ∧ remote w1 = remote w ∧ rq w1 = rq w ∧
  treeOf (match t with Local => Work | Work => Local end) w1
  = treeOf (match t with Local => Work | Work => Local end) w ∧
  queuedBy (trace w1) = queuedBy (trace w).
Proof.
  unfold FSTree_createDirectory, FSTree_createFileInstance, FSFile_createInstance,
    bind, call.
  destruct (faults w (Mkdirp t name)) eqn:F1; [discriminate |].
  hsimpl.
  destruct (mkdirp_extends_dirs (String.length name) (treeOf t w) name)
    as (extra & Hext & Hall).
  assert (Hnew : ∀ k, fs_stat (treeOf t w) name ≠ Some RegularFile →
            fs_stat (mkdirp (String.length name) (treeOf t w) name) name = Some k →
            k = Directory).
  { intros k Hne. rewrite Hext. now apply fs_stat_app_dirs. }
  assert (Hcase : fs_stat (treeOf t w) name = Some RegularFile ∨
                  fs_stat (treeOf t w) name ≠ Some RegularFile).
  { destruct (fs_stat (treeOf t w) name) as [[]|]; auto. }
  destruct Hcase as [Hfile | Hne].
  - replace (treeOf t (record (Mkdirp t name) w)) with (treeOf t w) by (destruct t; reflexivity).
    rewrite Hfile. discriminate.
  - replace (treeOf t (record (Mkdirp t name) w)) with (treeOf t w) by (destruct t; reflexivity).
    set (w0 := setTree t (mkdirp (String.length name) (treeOf t w) name)
                 (record (Mkdirp t name) w)).
    assert (Hw0 : treeOf t w0 = mkdirp (String.length name) (treeOf t w) name)
      by (destruct t; reflexivity).
    assert (Hstep :
      match fs_stat (treeOf t w) name with
      | Some RegularFile => (Fail AlreadyExists, record (Mkdirp t name) w)
      | _ => (Done tt, w0)
      end = (Done tt, w0)).
    { destruct (fs_stat (treeOf t w) name) as [[]|]; [congruence | reflexivity..]. }
    rewrite Hstep.
    assert (F0 : faults w0 = faults w) by reflexivity.
    rewrite F0.
    destruct (faults w (FSFileCreateInstance t name)) eqn:F2; [discriminate |].
    replace (treeOf t (record (FSFileCreateInstance t name) w0)) with (treeOf t w0)
      by (destruct t; reflexivity).
    destruct (fs_stat (treeOf t w0) name) as [k|] eqn:Hk; [| discriminate].
    intros [= <- <-].
    rewrite Hw0 in Hk. pose proof (Hnew k Hne Hk) as ->.
    replace (treeOf t (record (FSFileCreateInstance t name) w0)) with (treeOf t w0)
      by (destruct t; reflexivity).
    rewrite Hw0.
    repeat split; try reflexivity; try exact Hk.
    + exists extra. split; [exact Hext | exact Hall].
    + destruct t; reflexivity.
    + subst w0. hsimpl. rewrite !queuedBy_app. cbn. now rewrite !app_nil_r.
Qed.

(** X18.  [createDirectory] of a file-system tree is [mkdir -p]: when it
    succeeds the handle is that of a directory of this name, the tree has
    kept every entry it had and has gained directories only, and a second
    [createDirectory] of the same name succeeds with the same handle and
    leaves the tree as the first one left it. *)
Theorem FSTree_createDirectory_is_idempotent `{Env}
    (t : Tree) (name : string) (w w1 : World) (f : File) :
  FSTree_createDirectory t name w = (Done f, w1) →
  getPath f = name ∧ isDirectory f = true ∧
  (∃ extra, treeOf t w1 = treeOf t w ++ extra ∧ Forall (λ e, d_kind e = Directory) extra) ∧
  ∃ w2, FSTree_createDirectory t name w1 = (Done f, w2) ∧ treeOf t w2 = treeOf t w1.
Proof.
  intros Hrun.
  pose proof (FSTree_createDirectory_inv t name w w1 f Hrun)
    as (-> & Hstat & Hext & F1 & F2 & F & _).
  repeat split; [exact Hext |].
  unfold FSTree_createDirectory, FSTree_createFileInstance, FSFile_createInstance,
    bind, call.
  rewrite F, F1. hsimpl.
  replace (treeOf t (record (Mkdirp t name) w1)) with (treeOf t w1) by (destruct t; reflexivity).
  rewrite Hstat, mkdirp_unfold, Hstat. hsimpl. rewrite F, F2.
  replace (treeOf t (record (FSFileCreateInstance t name)
             (setTree t (treeOf t w1) (record (Mkdirp t name) w1))))
    with (treeOf t w1) by (destruct t; reflexivity).
  rewrite Hstat. eexists. split; [reflexivity |]. destruct t; reflexivity.
Qed.

Lemma FSTree_createDirectory_is_idempotent_witness :
  let out := @FSTree_createDirectory sampleShare Local "/a/n/m" folderWorld in
  ∃ w2, @FSTree_createDirectory sampleShare Local "/a/n/m" (snd out)
        = (Done (handle "/a/n/m" Directory), w2) ∧ local w2 = local (snd out).
Proof.
  cbv zeta.
  assert (Hrun : @FSTree_createDirectory sampleShare Local "/a/n/m" folderWorld
                 = (Done (handle "/a/n/m" Directory),
                    snd (@FSTree_createDirectory sampleShare Local "/a/n/m" folderWorld)))
    by (vm_compute; reflexivity).
  destruct (@FSTree_createDirectory_is_idempotent sampleShare Local "/a/n/m" folderWorld _ _
              Hrun) as (_ & _ & _ & w2 & H2 & Ht).
  exists w2. split; [exact H2 | exact Ht].
Defined.

(** X19.  [createDirectory] is eager and does not undo.  It hands nothing
    to the queue and leaves the queue and the work tree as they were.  When
    the local step fails, its error is the callback's and the remote tree
    is left as it was.  When the local step has succeeded, the outcome is the
    remote tree's: on success the handle is the remote one of a directory,
    and on an error of the remote tree the local tree keeps the directory
    it has just made. *)
Theorem createDirectory_is_eager_and_does_not_undo `{Env} `{DirFaults}
    (name : string) (w : World) :
  let out := RQTree_createDirectory name w in
  (rq (snd out) = rq w ∧ work (snd out) = work w ∧
   queuedBy (trace (snd out)) = queuedBy (trace w)) ∧
  (∀ e, fst (FSTree_createDirectory Local name w) = Fail e →
        fst out = Fail e ∧ remote (snd out) = remote w) ∧
  (∀ d w1, FSTree_createDirectory Local name w = (Done d, w1) →
           fst out = fst (DAMTree_createDirectory name w1) ∧
           fs_stat (local (snd out)) name = Some Directory ∧
           (∀ f, fst out = Done f →
                 f = handle name Directory ∧
                 remote (snd out) = remote w ++ [fs_entry name Directory])).
Proof.
  cbv zeta. unfold RQTree_createDirectory, bind.
  destruct (FSTree_createDirectory Local name w) as [[d | e | x] w1] eqn:Hloc.
  - pose proof (FSTree_createDirectory_inv Local name w w1 d Hloc)
      as (-> & Hstat & _ & _ & _ & _ & Hrem & Hrq & Hwork & Hq).
    cbn [treeOf] in *.
    unfold DAMTree_createDirectory, dirCall.
    split; [| split; [intros e; cbn [fst]; discriminate |]].
    + break_dir; repeat split; assumption.
    + intros d w2 [= <- <-].
      break_dir; (split; [reflexivity |]); (split; [exact Hstat |]);
        intros f; cbn [fst]; intros [= <-].
      split; [reflexivity |]. now rewrite Hrem.
  - assert (Hsame : rq w1 = rq w ∧ work w1 = work w ∧ remote w1 = remote w ∧
                    queuedBy (trace w1) = queuedBy (trace w)).
    { revert Hloc. dsimpl. unfold FSTree_createDirectory, bind, call.
      break_dir; intros [= <- <-]; hsimpl; repeat split;
        rewrite ?queuedBy_app; cbn [queuedBy omap list_omap];
        rewrite ?app_nil_r; reflexivity. }
    destruct Hsame as (Hrq & Hwork & Hrem & Hq). cbn [fst snd].
    split; [repeat split; assumption |].
    split; [intros e' [= <-]; split; [reflexivity | exact Hrem] |].
    intros d w2 [=].
  - exfalso. revert Hloc. dsimpl. unfold FSTree_createDirectory, bind, call.
    break_dir; discriminate.
Qed.

Lemma createDirectory_is_eager_and_does_not_undo_witness :
  let out := @RQTree_createDirectory sampleShare remoteDirFaults "/a/n" folderWorld in
  fst out = Fail RemoteError ∧
  @fs_stat sampleShare (local (snd out)) "/a/n" = Some Directory.
Proof.
  cbv zeta.
  destruct (@createDirectory_is_eager_and_does_not_undo sampleShare remoteDirFaults
              "/a/n" folderWorld) as (_ & _ & Hok).
  destruct (Hok (handle "/a/n" Directory)
                (snd (@FSTree_createDirectory sampleShare Local "/a/n" folderWorld)))
    as (Hout & Hstat & _).
  - vm_compute. reflexivity.
  - split; [rewrite Hout; reflexivity | exact Hstat].
Defined.

Lemma fs_rename_same `{Env} (fs fs' : list DirEntry) (name : string) :
  fs_rename fs name name = inr fs' → fs' = fs.
Proof.
  unfold fs_rename. destruct (fs_stat fs name); [| discriminate].
  rewrite bool_decide_eq_true_2 by reflexivity. now intros [= <-].
Qed.

(** X20.  [rename] of a name the local tree contains starts at the local
    tree and undoes nothing.  Either the local rename has failed: then the
    callback gets an error, and the trees and the queue are as before.  Or
    the local tree is what [fs.rename] has made of it (the same tree, when
    the two names are the same), whatever fails later; then the remote
    tree has changed only for a directory, and the queue is as before, or
    has gained the MOVE of a file, or is the re-parented queue of a
    directory. *)
Theorem rename_is_local_first_and_undoes_nothing `{Env}
    (oldName newName : string) (w : World) :
  fs_has (local w) oldName = true →
  faults w (FsStat Local oldName) = None →
  let out := RQTree_rename oldName newName w in
  let w' := snd out in
  ((∃ e, fst out = Fail e) ∧
   local w' = local w ∧ work w' = work w ∧ remote w' = remote w ∧ rq w' = rq w) ∨
  (fs_rename (local w) oldName newName = inr (local w') ∧
   (oldName = newName → local w' = local w) ∧
   (remote w' = remote w ∨ fs_stat (local w') newName = Some Directory) ∧
   (rq w' = rq w ∨
    (fs_stat (local w') newName = Some RegularFile ∧
     rq w' = rq w ++ [moveRequest oldName newName]) ∨
    (fs_stat (local w') newName = Some Directory ∧
     rq w' = reparentRequest oldName newName <$> rq w))).
Proof.
  intros Hhas Hf. cbv zeta.
  unfold RQTree_rename, FSTree_exists, FSTree_rename, FSFile_createInstance,
    invalidateContentCache, DAMTree_rename, RequestQueue_updatePath,
    bind, call, ret.
  rewrite Hf. hsimpl. rewrite Hhas. hsimpl.
  destruct (faults w (FsRename Local oldName newName)) eqn:Hfr.
  { left. hsimpl. split; [eauto |]. repeat split; reflexivity. }
  destruct (fs_rename (local w) oldName newName) as [e | renamed] eqn:Hmv.
  { left. hsimpl. split; [eauto |]. repeat split; reflexivity. }
  right.
  assert (Hsame : oldName = newName → renamed = local w).
  { intros <-. now apply fs_rename_same in Hmv. }
  break_queue; fold (moveRequest oldName newName) in *;
    (split; [reflexivity |]); (split; [exact Hsame |]);
    (split;
     [ first [left; reflexivity | right; assumption]
     | first [ left; reflexivity
             | right; left; split; [assumption | reflexivity]
             | right; right; split; [assumption | reflexivity] ] ]).
Qed.

Lemma rename_is_local_first_and_undoes_nothing_witness :
  let w := world [dirEntry "" "/"; dirEntry "/" "a"; fileEntry "/a" "x.txt"] []
                 [dirEntry "" "/"; dirEntry "/" "a"] [] noFaults in
  let out := @RQTree_rename sampleShare "/a/x.txt" "/a/x.txt" w in
  fst out = Done tt ∧ local (snd out) = local w ∧
  rq (snd out) = [@moveRequest sampleShare "/a/x.txt" "/a/x.txt"].
Proof.
  cbv zeta.
  destruct (@rename_is_local_first_and_undoes_nothing sampleShare "/a/x.txt" "/a/x.txt"
              (world [dirEntry "" "/"; dirEntry "/" "a"; fileEntry "/a" "x.txt"] []
                 [dirEntry "" "/"; dirEntry "/" "a"] [] noFaults) eq_refl eq_refl)
    as [([e He] & _) | (_ & Hl & _ & Hq)].
  - vm_compute in He. discriminate He.
  - split; [vm_compute; reflexivity |]. split; [exact (Hl eq_refl) |].
    destruct Hq as [Hq | [[_ Hq] | [Hk _]]].
    + vm_compute in Hq. discriminate Hq.
    + exact Hq.
    + vm_compute in Hk. discriminate Hk.
Defined.

(** ** Names that every object has *)

Section Inherited.
Context `{Env}.

(** The local pass does not delete a file whose name is the name of an
    inherited property. *)
Lemma processLocal_keeps_inherited (lookup remoteLookup : gmap string nat)
    (remoteFiles : list File) (p : string) (localFiles : list File) :
  getPathName p ∈ objectPrototype →
  ∀ (rqFiles : list RQFile) (w : World),
  fs_stat (local (snd (processLocal lookup remoteLookup remoteFiles localFiles rqFiles w))) p
  = fs_stat (local w) p.
Proof.
  intros Hp. induction localFiles as [|lf ls IH]; intros rqFiles w; [reflexivity |].
  cbn [processLocal]. unfold_local.
  break_local_goal; rewrite ?IH; wsimpl; try reflexivity.
  all: apply fs_stat_remove_ne; intros ->;
    match goal with
    | E : isDefined (jsGet _ _) = false |- _ =>
      apply jsGet_defined, jsGet_undefined in E as [E _]; exact (E Hp)
    end.
Qed.

End Inherited.

(** X21.  The tables of the merge are objects, and an object has the
    properties of [Object.prototype].  A local file that is not temporary
    and bears the name of such a property ([constructor], [toString],
    [__proto__], ...) takes the branch of the merge, also when no remote
    entry bears its name (for [__proto__]: in any case).  The entry that is
    made for it is then written to the array under a key that is not an
    index: the listing has no entry backed by the file, whether a client
    has created it or not, and the file stays in the local tree. *)
Theorem list_leaves_out_inherited_names `{Env} (pattern : string) (w w' : World)
    (out : list RQFile) (remoteFiles localFiles : list File) (lf : File) :
  RQTree_list pattern w = (Done (RQFiles out), w') →
  faults w (RqGetRequests (parentOrEmpty pattern)) = None →
  fst (DAMTree_list pattern w) = Done remoteFiles →
  fst (FSTree_list Local pattern w) = Done localFiles →
  NoDup (getName <$> remoteFiles) →
  lf ∈ localFiles →
  isTempFileName (getName lf) = false →
  getName lf ∈ objectPrototype →
  getName lf = "__proto__" ∨ (∀ r, r ∈ remoteFiles → getName r ≠ getName lf) →
  (∀ f, f ∈ out → localFile f ≠ Some lf) ∧
  fs_stat (local w') (getPath lf) = fs_stat (local w) (getPath lf).
Proof.
  intros Hrun Hfault Hr Hl Hnd Hin Ht Hop Hwhy.
  apply RQTree_list_inv in Hrun
    as (remoteFiles' & Hr' &
        [[_ Hno] | (_ & localFiles' & w4 & out' & Hl' & F & _ & Hm & Heq)]);
    [discriminate |].
  injection Heq as <-. rewrite Hr in Hr'. injection Hr' as <-.
  rewrite Hl in Hl'. injection Hl' as <-. rewrite Hfault in Hm.
  split.
  - destruct (mergeListing_shape _ _ _ _ _ _ Hnd Hm) as (kept & -> & _ & Hall & _).
    intros f Hf Hback. apply elem_of_app in Hf as [Hf | Hf].
    + apply list_elem_of_fmap in Hf as (r & -> & Hs).
      unfold mergedOrRemote in Hback.
      destruct (lastMatch localFiles r) as [lf0|] eqn:Hfind; cbn in Hback;
        [| discriminate].
      injection Hback as ->. unfold lastMatch in Hfind.
      apply find_some in Hfind as [_ Hmatch]. unfold matching in Hmatch.
      apply andb_true_iff in Hmatch as [Hmatch Hp].
      apply andb_true_iff in Hmatch as [_ Hname].
      apply bool_decide_eq_true in Hname. apply negb_true_iff in Hp.
      apply bool_decide_eq_false in Hp.
      destruct Hwhy as [Hproto | Hnone]; [contradiction |].
      apply survivors_elem in Hs as [_ Hs]. now apply (Hnone r Hs).
    + apply list_elem_of_fmap in Hf as (lf0 & -> & Hk). cbn in Hback.
      injection Hback as ->. rewrite Forall_forall in Hall.
      destruct (Hall lf Hk) as [Ht' | [[Hno _] _]]; [congruence | contradiction].
  - unfold mergeListing in Hm.
    destruct (remoteLoop _ remoteFiles 0 ([], ∅, ∅)) as [[rq0 lk] rl].
    pose proof (processLocal_keeps_inherited lk rl remoteFiles (getPath lf) localFiles
                  Hop rq0 w4) as Hk.
    rewrite Hm in Hk. cbn [snd] in Hk. rewrite Hk. now destruct F as [-> _].
Qed.

Lemma list_leaves_out_inherited_names_witness :
  let lf := {| getPath := "/a/constructor"; isDirectory := false |} in
  ∃ out w', @RQTree_list sampleShare "/a/*" inheritedWorld = (Done (RQFiles out), w') ∧
    (∀ f, f ∈ out → localFile f ≠ Some lf) ∧
    @fs_stat sampleShare (local w') "/a/constructor" = Some RegularFile ∧
    @clientCreated sampleShare inheritedWorld lf.
Proof.
  cbv zeta.
  destruct (@RQTree_list sampleShare "/a/*" inheritedWorld)
    as [[[fs | out] | e | x] w'] eqn:Hrun;
    [vm_compute in Hrun; discriminate Hrun | | vm_compute in Hrun; discriminate Hrun ..].
  exists out, w'. split; [reflexivity |].
  destruct (@list_leaves_out_inherited_names sampleShare "/a/*" inheritedWorld w' out
              [ {| getPath := "/a/__proto__"; isDirectory := false |} ]
              [ {| getPath := "/a/constructor"; isDirectory := false |};
                {| getPath := "/a/__proto__"; isDirectory := false |};
                {| getPath := "/a/n.txt"; isDirectory := false |} ]
              {| getPath := "/a/constructor"; isDirectory := false |} Hrun)
    as [Hout Hstat].
  - reflexivity.
  - vm_compute. reflexivity.
  - vm_compute. reflexivity.
  - refine (bool_decide_unpack _ _). vm_compute. exact I.
  - apply list_elem_of_here.
  - reflexivity.
  - refine (bool_decide_unpack _ _). vm_compute. exact I.
  - right. intros r Hr. apply list_elem_of_singleton in Hr as ->. vm_compute. discriminate.
  - split; [exact Hout |]. split; [| vm_compute; reflexivity].
    cbn [getPath] in Hstat. rewrite Hstat. vm_compute. reflexivity.
Defined.
